(** * ExportForPrinting: the export command of the Fusion 360 add-in

    A shallow embedding of [commands/ExportCommand.py]: the export
    configuration and its JSON file ([to_dict], [emit_file], [parse_file]),
    the two traversals of the assembly ([recursiveEnumerateComponents],
    [recursiveCountOccurences]) and the export driver ([export]) with its
    manifest ("version control") file.

    Python values read from JSON are kept dynamically typed ([json]); Python
    exceptions are values of [exn]; the host application, the file system and
    the clock are an explicit [World] that the driver threads through. *)

From Stdlib Require Import String Ascii ZArith List Bool Lia.
From Stdlib Require Import Floats.SpecFloat DecimalString.
From stdpp Require Import base option gmap strings list fin_maps.

Set Warnings "-register-all".

Open Scope Z_scope.

(** ** Python values and exceptions *)

(** The exceptions the modelled code can raise. *)
Inductive exn :=
| AssertionError
| AttributeError
| KeyError
| TypeError
| ValueError
| OverflowError
| FileNotFoundError
| FileExistsError
| RuntimeError.

(** The outcome of a Python expression: a value or a raised exception. *)
Inductive result (A : Type) :=
| Ok (a : A)
| Raise (e : exn).
Arguments Ok {A} a.
Arguments Raise {A} e.

Definition rbind {A B} (r : result A) (k : A → result B) : result B :=
  match r with
  | Ok a => k a
  | Raise e => Raise e
  end.

Declare Scope result_scope.
Delimit Scope result_scope with result.
Notation "'try' x := r 'in' k" := (rbind r (fun x => k))
  (at level 10, x pattern, r at level 100, k at level 200) : result_scope.
Open Scope result_scope.

(** What [json.loads] produces: [None], [bool], [int], [float], [str],
    [list] and [dict] with string keys.  A float is the IEEE value it
    denotes; a string is a sequence of code points below 256, compared code
    point by code point; a dict is a finite map (the order of its members is
    not modelled). *)
Inductive json :=
| JNull
| JBool (b : bool)
| JInt (z : Z)
| JFloat (f : spec_float)
| JStr (s : string)
| JList (l : list json)
| JDict (d : gmap string json).

(** [x is None]. *)
Definition is_none (v : json) : bool :=
  match v with
  | JNull => true
  | _ => false
  end.

(** Truth value of an object, as tested by [if], [and] and [or]. *)
Definition truthy (v : json) : bool :=
  match v with
  | JNull => false
  | JBool b => b
  | JInt z => negb (z =? 0)
  | JFloat f =>
      match f with
      | S754_zero _ => false
      | _ => true
      end
  | JStr s => negb (String.eqb s "")
  | JList l =>
      match l with
      | [] => false
      | _ => true
      end
  | JDict d => negb (bool_decide (d = ∅))
  end.

(** [a or b]. *)
Definition py_or (a b : json) : json := if truthy a then a else b.

(** [v == s] for a string [s]: only an equal string is equal to a string. *)
Definition eq_str (v : json) (s : string) : bool :=
  match v with
  | JStr s' => String.eqb s' s
  | _ => false
  end.

(** [v < s] for a string [s]: strings are ordered lexicographically by code
    point, and any other left operand raises [TypeError]. *)
Definition lt_str (v : json) (s : string) : result bool :=
  match v with
  | JStr s' => Ok (String.ltb s' s)
  | _ => Raise TypeError
  end.

(** [v[k]] for a string key [k]. *)
Definition getitem (v : json) (k : string) : result json :=
  match v with
  | JDict d =>
      match d !! k with
      | Some x => Ok x
      | None => Raise KeyError
      end
  | _ => Raise TypeError
  end.

(** [v.get(k, default)]: only a dict has the method. *)
Definition dict_get (v : json) (k : string) (dflt : json) : result json :=
  match v with
  | JDict d => Ok (default dflt (d !! k))
  | _ => Raise AttributeError
  end.

(** ** Strings *)

(** [s.endswith(suffix)]. *)
Definition endswith (s suffix : string) : bool :=
  let n := String.length s in
  let k := String.length suffix in
  (k <=? n)%nat && String.eqb (substring (n - k) k s) suffix.

(** [s[: -k]]: everything but the last [k] characters; for [k = 0] the
    slice is [s[:0]], the empty string. *)
Definition drop_last (k : nat) (s : string) : string :=
  match k with
  | O => ""
  | S _ => substring 0 (String.length s - k) s
  end.

(** ** Conversion to [int] *)

(** [int(f)] for a float: truncation toward zero; infinities and NaN have no
    integer value. *)
Definition int_of_float (f : spec_float) : result Z :=
  match f with
  | S754_zero _ => Ok 0
  | S754_infinity _ => Raise OverflowError
  | S754_nan => Raise ValueError
  | S754_finite sign m e =>
      let magnitude :=
        if 0 <=? e then Z.pos m * 2 ^ e else Z.pos m / 2 ^ (- e) in
      Ok (if sign then - magnitude else magnitude)
  end.

Section Builtins.

(** [int(s)] for a string [s] is the builtin's business: the integer the
    text denotes, or [None] when the builtin raises [ValueError]. *)
Variable int_of_str : string → option Z.

(** [int(v)]. *)
Definition py_int (v : json) : result Z :=
  match v with
  | JInt z => Ok z
  | JBool b => Ok (if b then 1 else 0)
  | JFloat f => int_of_float f
  | JStr s =>
      match int_of_str s with
      | Some z => Ok z
      | None => Raise ValueError
      end
  | JNull | JList _ | JDict _ => Raise TypeError
  end.

End Builtins.

(** ** The assembly: components and occurrences

    The host's object model, as far as the add-in reads it: a component has
    a name, solid bodies and top-level occurrences; an occurrence has a
    name such as ["Wheel:2"], the component it instantiates and the
    occurrences nested below it. *)

Inductive Occurrence :=
| mkOccurrence (occ_name : string) (component : Component)
    (childOccurrences : list Occurrence)
with Component :=
| mkComponent (name : string) (bRepBodies : list string)
    (occurrences : list Occurrence).

Definition occ_name (o : Occurrence) : string :=
  match o with
  | mkOccurrence n _ _ => n
  end.

Definition component (o : Occurrence) : Component :=
  match o with
  | mkOccurrence _ c _ => c
  end.

Definition childOccurrences (o : Occurrence) : list Occurrence :=
  match o with
  | mkOccurrence _ _ ch => ch
  end.

Definition name (c : Component) : string :=
  match c with
  | mkComponent n _ _ => n
  end.

Definition bRepBodies (c : Component) : list string :=
  match c with
  | mkComponent _ b _ => b
  end.

Definition occurrences (c : Component) : list Occurrence :=
  match c with
  | mkComponent _ _ occs => occs
  end.

(** The argument of [recursiveEnumerateComponents] and [export]:
    [Occurrence | Component]. *)
Inductive Root :=
| RootOccurrence (o : Occurrence)
| RootComponent (c : Component).

(** [rv.update(d)]: the entries of [d] override those of [rv]. *)
Definition dict_update {V} (rv d : gmap string V) : gmap string V := d ∪ rv.

(** The [else] branch of [recursiveEnumerateComponents]: the root is an
    occurrence. *)
Fixpoint enumerate_occurrence (rootOcc : Occurrence) : gmap string Component :=
  match rootOcc with
  | mkOccurrence _ c children =>
      fold_left (fun rv occ => dict_update rv (enumerate_occurrence occ))
        children (<[name c := c]> ∅)
  end.

Definition recursiveEnumerateComponents (rootOcc : Root) : gmap string Component :=
  match rootOcc with
  | RootComponent c =>
      fold_left (fun rv occ => dict_update rv (enumerate_occurrence occ))
        (occurrences c) (<[name c := c]> ∅)
  | RootOccurrence o => enumerate_occurrence o
  end.

(** A [defaultdict(int)]: its items in insertion order, a missing key
    reading as [0]. *)
Definition counter := list (string * Z).

(** [rv[k]] (for a key that is present, or without keeping the inserted
    default). *)
Fixpoint counter_get (rv : counter) (k : string) : Z :=
  match rv with
  | [] => 0
  | (k', v) :: rest => if String.eqb k' k then v else counter_get rest k
  end.

(** [rv.get(k, None)]. *)
Fixpoint counter_lookup (rv : counter) (k : string) : option Z :=
  match rv with
  | [] => None
  | (k', v) :: rest => if String.eqb k' k then Some v else counter_lookup rest k
  end.

(** [rv[k] += n]: an existing item is updated in place, a new one goes last. *)
Fixpoint counter_add (rv : counter) (k : string) (n : Z) : counter :=
  match rv with
  | [] => [(k, n)]
  | (k', v) :: rest =>
      if String.eqb k' k then (k', v + n) :: rest
      else (k', v) :: counter_add rest k n
  end.

(** First loop of [recursiveCountOccurences]. *)
Definition count_direct (occs : list Occurrence) : counter :=
  fold_left (fun rv occ => counter_add rv (name (component occ)) 1) occs [].

(** The inner loop [for key, count in child.items()]: the multiplier
    [rv[occ.component.name]] is read anew for every key. *)
Definition add_child (parent : string) (rv child : counter) : counter :=
  fold_left (fun rv kc => counter_add rv (fst kc) (snd kc * counter_get rv parent))
    child rv.

(** Second loop of [recursiveCountOccurences], given the recursive call. *)
Definition count_nested (recur : Occurrence → counter)
    (occs : list Occurrence) (rv : counter) : counter :=
  fold_left
    (fun rv occ =>
       if endswith (occ_name occ) ":1"
       then add_child (name (component occ)) rv (recur occ)
       else rv)
    occs rv.

(** [recursiveCountOccurences(occ.childOccurrences)]. *)
Fixpoint count_children (occ : Occurrence) : counter :=
  match occ with
  | mkOccurrence _ _ children =>
      count_nested count_children children (count_direct children)
  end.

Definition recursiveCountOccurences (occs : list Occurrence) : counter :=
  count_nested count_children occs (count_direct occs).

(** ** The world: file system, design timeline, dialog, clock *)

(** What a file holds: text that [json.loads] reads as a value (what
    [json.dumps] wrote), a mesh written by the host's exporter, or anything
    else. *)
Inductive file_content :=
| JsonText (j : json)
| MeshData (cname : string)
| OtherData.

(** A file with the ISO rendering of its modification time. *)
Record file := {
  content : file_content;
  mtime : string
}.

(** Calls into the host application and the operating system, logged in
    the order they happen. *)
Inductive event :=
| ProgressShow (maximum : nat)
| ProgressValue (i : nat)
| ProgressMessage (msg : string)
| ProgressHide
| Unlink (path : string)
| MoveFeatureAdd (cname : string) (bodies : list string) (up : string) (feature : nat)
| MoveFeatureDelete (feature : nat)
| MkdirParent (path : string)
| ExportSTL (cname : string) (path : string)
| WriteText (path : string) (j : json).

(** The state the driver runs in.  [trace] has the most recent event first.
    What the program cannot determine (the time, whether the user has pressed
    Cancel, the revision id the host reports for a component, whether the
    operating system or the host refuses to make a directory or to export a
    mesh, and with which exception) is a function of everything that has
    happened so far. *)
Record World := {
  fs : gmap string file;
  moveFeatures : list (string * nat);
  trace : list event;
  root_comp_name : string;
  clock : list event → string;
  cancel_pressed : list event → bool;
  revision_of : list event → Component → string;
  host_error : list event → option exn
}.

Definition set_fs (f : gmap string file → gmap string file) (w : World) : World :=
  {| fs := f (fs w); moveFeatures := moveFeatures w; trace := trace w;
     root_comp_name := root_comp_name w; clock := clock w;
     cancel_pressed := cancel_pressed w; revision_of := revision_of w;
     host_error := host_error w |}.

Definition set_moveFeatures (f : list (string * nat) → list (string * nat))
    (w : World) : World :=
  {| fs := fs w; moveFeatures := f (moveFeatures w); trace := trace w;
     root_comp_name := root_comp_name w; clock := clock w;
     cancel_pressed := cancel_pressed w; revision_of := revision_of w;
     host_error := host_error w |}.

Definition add_event (e : event) (w : World) : World :=
  {| fs := fs w; moveFeatures := moveFeatures w; trace := e :: trace w;
     root_comp_name := root_comp_name w; clock := clock w;
     cancel_pressed := cancel_pressed w; revision_of := revision_of w;
     host_error := host_error w |}.

(** A computation that changes the world and returns or raises. *)
Definition M (A : Type) : Type := World → World * result A.

Definition ret {A} (a : A) : M A := fun w => (w, Ok a).

Definition raise {A} (e : exn) : M A := fun w => (w, Raise e).

Definition bind {A B} (m : M A) (k : A → M B) : M B :=
  fun w =>
    match m w with
    | (w', Ok a) => k a w'
    | (w', Raise e) => (w', Raise e)
    end.

Definition lift {A} (r : result A) : M A := fun w => (w, r).

Declare Scope world_scope.
Delimit Scope world_scope with world.
Notation "'do' x <- m ; k" := (bind m (fun x => k))
  (at level 10, x pattern, m at level 100, k at level 200) : world_scope.
Open Scope world_scope.

Definition emit (e : event) : M unit := fun w => (add_event e w, Ok tt).

(** [datetime.now().isoformat()]. *)
Definition now : M string := fun w => (w, Ok (clock w (trace w))).

(** [cmp.revisionId]. *)
Definition revisionId (cmp : Component) : M string :=
  fun w => (w, Ok (revision_of w (trace w) cmp)).

(** [progressDialog.wasCancelled]. *)
Definition wasCancelled : M bool := fun w => (w, Ok (cancel_pressed w (trace w))).

(** [path.exists()]. *)
Definition path_exists (path : string) : M bool :=
  fun w => (w, Ok (bool_decide (is_Some (fs w !! path)))).

(** [path.unlink()]. *)
Definition unlink (path : string) : M unit :=
  fun w =>
    match fs w !! path with
    | Some _ => (add_event (Unlink path) (set_fs (delete path) w), Ok tt)
    | None => (w, Raise FileNotFoundError)
    end.

(** [path.write_text(json.dumps(j, indent=2))]. *)
Definition write_text (path : string) (j : json) : M unit :=
  fun w =>
    let f := {| content := JsonText j; mtime := clock w (trace w) |} in
    (add_event (WriteText path j) (set_fs (insert path f) w), Ok tt).

(** [json.loads(path.read_text())]. *)
Definition read_json (path : string) : M json :=
  fun w =>
    match fs w !! path with
    | None => (w, Raise FileNotFoundError)
    | Some f =>
        match content f with
        | JsonText j => (w, Ok j)
        | _ => (w, Raise ValueError)
        end
    end.

(** An identifier no feature of the timeline has. *)
Definition fresh_feature (features : list (string * nat)) : nat :=
  S (foldr Nat.max O (map snd features)).

(** [cmp.features.moveFeatures.add(input)] for all solid bodies of [cmp]. *)
Definition add_move_feature (cmp : Component) (up : string) : M nat :=
  fun w =>
    let feature := fresh_feature (moveFeatures w) in
    (add_event (MoveFeatureAdd (name cmp) (bRepBodies cmp) up feature)
       (set_moveFeatures (cons (name cmp, feature)) w),
     Ok feature).

(** [feature.deleteMe()]. *)
Definition delete_move_feature (feature : nat) : M unit :=
  fun w =>
    (add_event (MoveFeatureDelete feature)
       (set_moveFeatures (filter (fun p => p.2 ≠ feature)) w),
     Ok tt).

(** [filepath.parent.mkdir(parents=True, exist_ok=True)]: the directory is
    made, or the operating system refuses (a file is in the way, say) and
    the call raises. *)
Definition mkdir_parent (filepath : string) : M unit :=
  fun w =>
    match host_error w (trace w) with
    | Some e => (w, Raise e)
    | None => (add_event (MkdirParent filepath) w, Ok tt)
    end.

(** [exportMgr.execute(exportOptions)]: the host writes the mesh file, or
    fails and raises. *)
Definition export_stl (cmp : Component) (path : string) : M unit :=
  fun w =>
    match host_error w (trace w) with
    | Some e => (w, Raise e)
    | None =>
        let f := {| content := MeshData (name cmp); mtime := clock w (trace w) |} in
        (add_event (ExportSTL (name cmp) path) (set_fs (insert path f) w), Ok tt)
    end.

(** ** The export configuration *)

Definition config_file_name : string := "export_for_printing.json".

(** [Path(config_file_name).with_suffix(".version.json")]. *)
Definition version_control_name : string := "export_for_printing.version.json".

Definition VALID_ORIENTATIONS : list string := ["x"; "y"; "z"; "-x"; "-y"; "-z"].

(** The dataclass [ComponentExportConfig]; a field holds whatever the caller
    or the JSON file put there, [None] by default.  (The fields [name], [to],
    [up], [fmt] and [count] carry the prefix [cfg_]: a component has a
    [name] too.) *)
Record ComponentExportConfig := {
  cfg_name : json;
  cfg_to : json;
  cfg_up : json;
  cfg_fmt : json;
  cfg_count : json
}.

(** The dataclass [ExportConfig]. *)
Record ExportConfig := {
  fmt : json;
  components : list ComponentExportConfig;
  modified : option string
}.

(** Attribute access [self.attr] on a [ComponentExportConfig]: the class has
    the five fields and nothing else. *)
Definition getattr (self : ComponentExportConfig) (attr : string) : result json :=
  if String.eqb attr "name" then Ok (cfg_name self)
  else if String.eqb attr "to" then Ok (cfg_to self)
  else if String.eqb attr "up" then Ok (cfg_up self)
  else if String.eqb attr "fmt" then Ok (cfg_fmt self)
  else if String.eqb attr "count" then Ok (cfg_count self)
  else Raise AttributeError.

(** [ComponentExportConfig.to_dict]. *)
Definition to_dict (self : ComponentExportConfig) : result json :=
  try n := getattr self "name" in
  try t := getattr self "to" in
  let rv : gmap string json := <["to" := t]> (<["name" := n]> ∅) in
  try orientation := getattr self "orientation" in
  try rv :=
    (if negb (is_none orientation)
     then try u := getattr self "up" in Ok (<["up" := u]> rv)
     else Ok rv) in
  try f := getattr self "fmt" in
  let rv := if negb (is_none f) then <["fmt" := f]> rv else rv in
  try c := getattr self "count" in
  let rv := if negb (is_none c) then <["count" := c]> rv else rv in
  Ok (JDict rv).

(** [[f(x) for x in l]], stopping at the first exception. *)
Fixpoint map_result {A B} (f : A → result B) (l : list A) : result (list B) :=
  match l with
  | [] => Ok []
  | x :: rest =>
      try y := f x in
      try ys := map_result f rest in
      Ok (y :: ys)
  end.

(** [for x in v]: the items a loop over [v] visits (for a dict its keys, in
    an order that does not matter here). *)
Definition py_iter (v : json) : result (list json) :=
  match v with
  | JList l => Ok l
  | JStr s => Ok (map (fun c => JStr (String c "")) (list_ascii_of_string s))
  | JDict d => Ok (map (fun kv => JStr kv.1) (map_to_list d))
  | JNull | JBool _ | JInt _ | JFloat _ => Raise TypeError
  end.

Definition component_fields : gset string :=
  {[ "name"; "to"; "up"; "fmt"; "count" ]}.

(** [counts.get(name, 1)]: a list or dict cannot be hashed, and nothing but a
    string equals a key of [counts]. *)
Definition counts_get (counts : counter) (n : json) : result Z :=
  match n with
  | JStr s => Ok (default 1 (counter_lookup counts s))
  | JList _ | JDict _ => Raise TypeError
  | JNull | JBool _ | JInt _ | JFloat _ => Ok 1
  end.

(** The body of the loop of [parse_file]: the constructor called with the
    members of [cmp_dict] as keyword arguments (an unknown keyword is a
    [TypeError], so is anything but a dict), then the default for [count]. *)
Definition parse_component (counts : option counter) (cmp_dict : json)
    : result ComponentExportConfig :=
  match cmp_dict with
  | JDict kw =>
      if bool_decide (dom kw ⊆ component_fields) then
        let cmp :=
          {| cfg_name := default JNull (kw !! "name");
             cfg_to := default JNull (kw !! "to");
             cfg_up := default JNull (kw !! "up");
             cfg_fmt := default JNull (kw !! "fmt");
             cfg_count := default JNull (kw !! "count") |} in
        match counts with
        | Some cs =>
            if is_none (cfg_count cmp) then
              try c := counts_get cs (cfg_name cmp) in
              Ok {| cfg_name := cfg_name cmp; cfg_to := cfg_to cmp;
                    cfg_up := cfg_up cmp; cfg_fmt := cfg_fmt cmp;
                    cfg_count := JInt c |}
            else Ok cmp
        | None => Ok cmp
        end
      else Raise TypeError
  | _ => Raise TypeError
  end.

Section Config.

Variable int_of_str : string → option Z.

(** [sorted(dicts, key=lambda x: x["name"])] is the builtin's business. *)
Variable sorted_by_name : list json → result (list json).

(** [parse_file(filename, counts)], reading the file system of [w]. *)
Definition parse_file (w : World) (filename : string) (counts : option counter)
    : result ExportConfig :=
  match fs w !! filename with
  | None => Raise FileNotFoundError
  | Some f =>
      match content f with
      | JsonText obj =>
          try v := dict_get obj "v" (JInt 0) in
          try version := py_int int_of_str v in
          if version =? 1 then
            try fmt := dict_get obj "fmt" JNull in
            try listed := dict_get obj "components" (JList []) in
            try items := py_iter listed in
            try components := map_result (parse_component counts) items in
            Ok {| fmt := fmt; components := components;
                  modified := Some (mtime f) |}
          else Raise AssertionError
      | _ => Raise ValueError
      end
  end.

(** [emit_file(filename, config)]. *)
Definition emit_file (filename : string) (config : ExportConfig) : M unit :=
  do dicts <- lift (map_result to_dict (components config));
  do sorted <- lift (sorted_by_name dicts);
  write_text filename
    (JDict (<["components" := JList sorted]>
              (<["fmt" := fmt config]> (<["v" := JInt 1]> ∅)))).

End Config.

(** ** The export driver *)

(** [all_components.get(name, None)]. *)
Definition lookup_component (all_components : gmap string Component) (n : json)
    : result (option Component) :=
  match n with
  | JStr s => Ok (all_components !! s)
  | JList _ | JDict _ => Raise TypeError
  | JNull | JBool _ | JInt _ | JFloat _ => Ok None
  end.

(** The first loop of [export]: the configured components that the assembly
    has, each with its component. *)
Fixpoint select_components (all_components : gmap string Component)
    (cfgs : list ComponentExportConfig)
    : result (list (ComponentExportConfig * Component)) :=
  match cfgs with
  | [] => Ok []
  | cmp_cfg :: rest =>
      try found := lookup_component all_components (cfg_name cmp_cfg) in
      try others := select_components all_components rest in
      match found with
      | Some cmp => Ok ((cmp_cfg, cmp) :: others)
      | None => Ok others
      end
  end.

(** The entry [export] stores in the manifest. *)
Definition manifest_entry (cname filepath revision document changed : string) : json :=
  JDict (<["changed" := JStr changed]>
           (<["fromDocument" := JStr document]>
              (<["revisionId" := JStr revision]>
                 (<["filename" := JStr filepath]>
                    (<["component" := JStr cname]> ∅))))).

(** [version_control[file_key] = entry]. *)
Definition setitem (version_control : json) (file_key : string) (entry : json)
    : result json :=
  match version_control with
  | JDict d => Ok (JDict (<[file_key := entry]> d))
  | _ => Raise TypeError
  end.

(** The condition of the [if] that skips a component, evaluated left to
    right as [and] does. *)
Definition unchanged (main_cfg : ExportConfig) (old_version : json)
    (cname revision : string) (file_exists : bool) : result bool :=
  try c := getitem old_version "component" in
  if eq_str c cname then
    try r := getitem old_version "revisionId" in
    if eq_str r revision then
      if file_exists then
        match modified main_cfg with
        | Some t =>
            if negb (String.eqb t "") then
              try changed := getitem old_version "changed" in
              lt_str changed t
            else Ok false
        | None => Ok false
        end
      else Ok false
    else Ok false
  else Ok false.

Section Driver.

(** [str(directory / name)] is pathlib's business. *)
Variable joinpath : string → string → string.

(** The text an f-string puts for a value is the builtin's business. *)
Variable py_format : json → string.

(** The file key and the file name of a component: lines 173 to 185. *)
Definition file_names (main_cfg : ExportConfig) (cfg : ComponentExportConfig)
    : result (string * string) :=
  match cfg_to cfg with
  | JStr file_to =>
      match py_or (cfg_fmt cfg) (fmt main_cfg) with
      | JStr file_ext =>
          let file_to :=
            if endswith file_to file_ext
            then drop_last (String.length file_ext) file_to
            else file_to in
          let file_key := file_to in
          let file_to :=
            if negb (is_none (cfg_count cfg))
            then file_to +:+ "_x" +:+ py_format (cfg_count cfg)
            else file_to in
          Ok (file_key, file_to +:+ "." +:+ file_ext)
      | _ => Raise TypeError
      end
  | _ => Raise AttributeError
  end.

(** Lines 206 to 210: the file recorded for this key has another name now. *)
Definition remove_renamed (output_dir : string) (old_version : json)
    (filepath : string) : M unit :=
  do recorded <- lift (getitem old_version "filename");
  if negb (eq_str recorded filepath) then
    match recorded with
    | JStr old =>
        let old_filename := joinpath output_dir old in
        do there <- path_exists old_filename;
        if there then unlink old_filename else ret tt
    | _ => raise TypeError
    end
  else ret tt.

(** Lines 229 to 264: rotate, export the mesh, undo the rotation.  Nothing
    catches an exception of [mkdir] or of the exporter: the statements after
    it, the deletion of the move feature among them, are not reached. *)
Definition rotate_and_export (cfg : ComponentExportConfig) (cmp : Component)
    (filepath : string) : M unit :=
  do newMoveFeature <-
    (if negb (is_none (cfg_up cfg)) && negb (eq_str (cfg_up cfg) "z") then
       match cfg_up cfg with
       | JStr up =>
           if bool_decide (up ∈ VALID_ORIENTATIONS) then
             do feature <- add_move_feature cmp up;
             ret (Some feature)
           else raise AssertionError
       | _ => raise AssertionError
       end
     else ret None);
  do _ <- mkdir_parent filepath;
  do _ <- export_stl cmp filepath;
  match newMoveFeature with
  | Some feature => delete_move_feature feature
  | None => ret tt
  end.

(** How an iteration of the loop ends: at the [continue] statement, at the
    [break] statement, or at the end of the body. *)
Inductive flow :=
| Continue
| Break
| EndOfBody.

(** One iteration of the loop of [export], for the [i]-th pair; the result
    is the manifest and how the iteration ended. *)
Definition export_one (main_cfg : ExportConfig) (output_dir : string) (i : nat)
    (cfg : ComponentExportConfig) (cmp : Component) (version_control : json)
    : M (json * flow) :=
  do _ <- emit (ProgressValue i);
  do _ <- emit (ProgressMessage "Exporting component %v of %m");
  do names <- lift (file_names main_cfg cfg);
  let file_key := names.1 in
  let filepath := joinpath output_dir names.2 in
  do old_version <- lift (dict_get version_control file_key JNull);
  do skip <-
    (if negb (is_none old_version) then
       do revision <- revisionId cmp;
       do there <- path_exists filepath;
       do same <- lift (unchanged main_cfg old_version (name cmp) revision there);
       if same then ret true
       else do _ <- remove_renamed output_dir old_version filepath; ret false
     else ret false);
  if skip then ret (version_control, Continue)
  else
    do revision <- revisionId cmp;
    do document <- (fun w => (w, Ok (root_comp_name w)));
    do changed <- now;
    do version_control <-
      lift (setitem version_control file_key
              (manifest_entry (name cmp) filepath revision document changed));
    do _ <- rotate_and_export cfg cmp filepath;
    do cancelled <- wasCancelled;
    if cancelled then ret (version_control, Break)
    else do _ <- emit (ProgressValue (S i)); ret (version_control, EndOfBody).

(** The loop [for i, (cfg, cmp) in enumerate(components)]. *)
Fixpoint export_loop (main_cfg : ExportConfig) (output_dir : string) (i : nat)
    (todo : list (ComponentExportConfig * Component)) (version_control : json)
    : M json :=
  match todo with
  | [] => ret version_control
  | (cfg, cmp) :: rest =>
      do step <- export_one main_cfg output_dir i cfg cmp version_control;
      match step.2 with
      | Break => ret step.1
      | Continue | EndOfBody => export_loop main_cfg output_dir (S i) rest step.1
      end
  end.

(** [export(main_cfg, output_dir, root)]. *)
Definition export (main_cfg : ExportConfig) (output_dir : string) (root : Root)
    : M unit :=
  let all_components := recursiveEnumerateComponents root in
  do todo <- lift (select_components all_components (components main_cfg));
  do _ <- emit (ProgressShow (length todo));
  let version_control_file := joinpath output_dir version_control_name in
  do there <- path_exists version_control_file;
  do version_control <-
    (if there then read_json version_control_file else ret (JDict ∅));
  do version_control <- export_loop main_cfg output_dir 0 todo version_control;
  do _ <- emit ProgressHide;
  write_text version_control_file version_control.

End Driver.

(** * Vocabulary of the statements *)

(** ** Reachability in the assembly *)

(** A component is reachable from an occurrence when it is the occurrence's
    own component or reachable from one of the occurrences below it. *)
Inductive reaches_from : Occurrence → Component → Prop :=
| reaches_own (o : Occurrence) : reaches_from o (component o)
| reaches_below (o child : Occurrence) (c : Component) :
    In child (childOccurrences o) →
    reaches_from child c →
    reaches_from o c.

(** The components of the hierarchy under the root that [export] is given. *)
Definition reaches (root : Root) (c : Component) : Prop :=
  match root with
  | RootOccurrence o => reaches_from o c
  | RootComponent k =>
      c = k ∨ ∃ occ, In occ (occurrences k) ∧ reaches_from occ c
  end.

(** The components in the order the traversal stores them: the component of
    an occurrence first, then what the sub-trees of its child occurrences
    give, one after the other. *)
Fixpoint visited_from (o : Occurrence) : list Component :=
  match o with
  | mkOccurrence _ c children => c :: flat_map visited_from children
  end.

Definition visited (root : Root) : list Component :=
  match root with
  | RootOccurrence o => visited_from o
  | RootComponent k => k :: flat_map visited_from (occurrences k)
  end.

(** The last of the components with the name [k] in a list. *)
Definition last_named (k : string) (l : list Component) : option Component :=
  last (filter (fun c => name c = k) l).

(** The root's own component. *)
Definition root_component (root : Root) : Component :=
  match root with
  | RootOccurrence o => component o
  | RootComponent k => k
  end.

(** ** Occurrence counts *)

(** The number of occurrences in a list that instantiate the component
    named [k]. *)
Definition direct_count (occs : list Occurrence) (k : string) : Z :=
  Z.of_nat (length (filter (fun occ => name (component occ) = k) occs)).

(** The occurrences whose sub-tree stands for all occurrences of their
    component: those named [...:1]. *)
Definition representatives (occs : list Occurrence) : list Occurrence :=
  filter (fun occ => endswith (occ_name occ) ":1" = true) occs.

(** The count by the multiplicative rule with the direct occurrence count as
    the multiplier: direct occurrences, plus, for every representative
    sub-tree, the count inside it times the number of direct occurrences of
    the sub-tree's component. *)
Definition multiplied_by_direct (occs : list Occurrence) (k : string) : Z :=
  direct_count occs k
  + foldr Z.add 0
      (map (fun occ =>
              counter_get (recursiveCountOccurences (childOccurrences occ)) k
              * direct_count occs (name (component occ)))
         (representatives occs)).

(** Merging the sub-tree of a representative occurrence by the
    multiplicative rule: every count grows by the count inside the sub-tree
    times the count that the occurrence's own component has at that
    moment. *)
Definition merge_rule (acc : string → Z) (occ : Occurrence) : string → Z :=
  fun k =>
    acc k
    + counter_get (recursiveCountOccurences (childOccurrences occ)) k
      * acc (name (component occ)).

(** The count by the multiplicative rule with the accumulated count as the
    multiplier: the direct occurrences, then the representative sub-trees
    merged one after the other, in the order of the list. *)
Definition multiplied_accumulated (occs : list Occurrence) : string → Z :=
  fold_left merge_rule (representatives occs) (direct_count occs).

(** No component is counted inside the sub-tree of its own representative
    occurrence. *)
Definition not_self_nested (occs : list Occurrence) : bool :=
  forallb
    (fun occ =>
       bool_decide
         (counter_lookup (recursiveCountOccurences (childOccurrences occ))
            (name (component occ)) = None))
    (representatives occs).

(** No component with a representative occurrence in the list also occurs
    inside a representative sub-tree of the list. *)
Definition parents_not_nested (occs : list Occurrence) : bool :=
  forallb
    (fun parent =>
       forallb
         (fun occ =>
            bool_decide
              (counter_lookup (recursiveCountOccurences (childOccurrences occ))
                 (name (component parent)) = None))
         (representatives occs))
    (representatives occs).

(** Cutting off what lies below every occurrence not named [...:1]. *)
Fixpoint prune (occ : Occurrence) : Occurrence :=
  match occ with
  | mkOccurrence n c children =>
      mkOccurrence n c (if endswith n ":1" then map prune children else [])
  end.

(** An occurrence of a component, with the component's own occurrences
    below it. *)
Definition occurrence_of (n : string) (c : Component) : Occurrence :=
  mkOccurrence n c (occurrences c).

(** An assembly in which [B] contains [C], [A] contains the second
    occurrence of [B], and the first occurrences of [A] and [B] are at the
    top. *)
Definition part_C : Component := mkComponent "C" ["Body1"] [].

Definition part_B : Component := mkComponent "B" [] [occurrence_of "C:1" part_C].

Definition part_A : Component := mkComponent "A" [] [occurrence_of "B:2" part_B].

Definition nested_twice : list Occurrence :=
  [occurrence_of "A:1" part_A; occurrence_of "B:1" part_B].

(** ** The configuration file *)

(** What a component entry of the file says for a field: its value, [None]
    when the field is left out. *)
Definition specified (kw : gmap string json) (field : string) : json :=
  default JNull (kw !! field).

(** The count a component gets when the file gives none: nothing without a
    [counts] dictionary, else the dictionary's value for the component's name,
    [1] when it has none. *)
Definition count_default (counts : option counter) (n : json) : json :=
  match counts with
  | None => JNull
  | Some cs =>
      JInt (match n with
            | JStr s => default 1 (counter_lookup cs s)
            | _ => 1
            end)
  end.

(** A value that can be looked up in a dictionary: anything but a list or a
    dict. *)
Definition hashable (v : json) : bool :=
  match v with
  | JList _ | JDict _ => false
  | _ => true
  end.

(** A component entry that [parse_file] accepts: a dict over the five field
    names; and when a [counts] dictionary is given and the entry has no
    count (none, or [null]), its name must be one that can be looked up in
    [counts]. *)
Definition accepted_component (counts : option counter) (item : json) : bool :=
  match item with
  | JDict kw =>
      bool_decide (dom kw ⊆ component_fields)
      && match counts with
         | Some _ =>
             if is_none (specified kw "count") then hashable (specified kw "name")
             else true
         | None => true
         end
  | _ => false
  end.

(** The configuration of a component as the file lists it. *)
Definition listed (counts : option counter) (item : json)
    (cmp : ComponentExportConfig) : Prop :=
  ∃ kw,
    item = JDict kw
    ∧ cfg_name cmp = specified kw "name"
    ∧ cfg_to cmp = specified kw "to"
    ∧ cfg_up cmp = specified kw "up"
    ∧ cfg_fmt cmp = specified kw "fmt"
    ∧ cfg_count cmp =
        (if is_none (specified kw "count")
         then count_default counts (specified kw "name")
         else specified kw "count").

(** ** Concrete builtins for the examples *)

Fixpoint digits_value (acc : Z) (s : string) : option Z :=
  match s with
  | EmptyString => Some acc
  | String c rest =>
      let n := Z.of_nat (nat_of_ascii c) in
      if (48 <=? n) && (n <=? 57)
      then digits_value (10 * acc + (n - 48)) rest
      else None
  end.

(** [int(s)] for a string of ASCII digits, as the builtin gives it; the
    examples apply it to such strings only. *)
Definition int_of_digits (s : string) : option Z :=
  match s with
  | EmptyString => None
  | _ => digits_value 0 s
  end.

(** [sorted] for a list with at most one item (there is nothing to compare);
    the examples apply it to such lists only. *)
Definition sorted_short (l : list json) : result (list json) :=
  match l with
  | [] | [_] => Ok l
  | _ => Raise TypeError
  end.

(** [str(directory / name)] for a relative file name without dots and
    slashes that need normalising. *)
Definition join_slash (directory file_name : string) : string :=
  directory +:+ "/" +:+ file_name.

(** The text of an f-string field for an [int], as the builtin gives it, and
    for a [str]; the examples apply it to such values only. *)
Definition format_scalar (v : json) : string :=
  match v with
  | JInt z => DecimalString.NilZero.string_of_int (Z.to_int z)
  | JStr s => s
  | _ => ""
  end.

(** ** Example worlds and configurations *)

(** A world with the given files, nothing in the timeline and no history;
    the clock shows [time] throughout, the host reports the revision
    [rev-7] for every component and refuses nothing, and with [cancelled]
    the user presses Cancel as soon as the progress dialog is there. *)
Definition world_with (files : gmap string file) (time : string)
    (cancelled : bool) : World :=
  {| fs := files; moveFeatures := []; trace := [];
     root_comp_name := "Assembly v3";
     clock := fun _ => time;
     cancel_pressed :=
       fun history =>
         match history with
         | [] => false
         | _ :: _ => cancelled
         end;
     revision_of := fun _ _ => "rev-7";
     host_error := fun _ => None |}.

Definition json_file (j : json) (time : string) : file :=
  {| content := JsonText j; mtime := time |}.

(** What [ExportConfig.generate] makes of a design with the single component
    [Bracket]. *)
Definition generated_config : ExportConfig :=
  {| fmt := JStr "stl";
     components :=
       [ {| cfg_name := JStr "Bracket"; cfg_to := JStr "bracket";
            cfg_up := JNull; cfg_fmt := JNull; cfg_count := JNull |} ];
     modified := None |}.

(** A configuration file that gives its version as the string ["1"], one that
    gives it as the number [1.5], and one that gives version [1] and lists a
    component without a count. *)
Definition config_with_version (v : json) (listed_components : list json) : json :=
  JDict (<["components" := JList listed_components]> (<["v" := v]> ∅)).

Definition one_and_a_half : spec_float := S754_finite false 3 (-1).

Definition bracket_entry : json :=
  JDict (<["to" := JStr "bracket"]> (<["name" := JStr "Bracket"]> ∅)).

(** ** The export run *)

(** The world once an iteration has updated the progress dialog. *)
Definition progressed (i : nat) (w : World) : World :=
  add_event (ProgressMessage "Exporting component %v of %m")
    (add_event (ProgressValue i) w).

(** The configured orientation is set and is not ["z"]. *)
Definition needs_rotation (cfg : ComponentExportConfig) : bool :=
  negb (is_none (cfg_up cfg)) && negb (eq_str (cfg_up cfg) "z").

(** The configured orientation is unset or one of [VALID_ORIENTATIONS]. *)
Definition valid_up (cfg : ComponentExportConfig) : bool :=
  match cfg_up cfg with
  | JNull => true
  | JStr up => bool_decide (up ∈ VALID_ORIENTATIONS)
  | _ => false
  end.

(** The names of the fields of a manifest entry. *)
Definition entry_fields : gset string :=
  {[ "component"; "filename"; "revisionId"; "fromDocument"; "changed" ]}.

(** A manifest entry as [export] writes them: a dict with exactly the five
    fields, each a string. *)
Definition flat_entry (v : json) : Prop :=
  ∃ e, v = JDict e
       ∧ dom e = entry_fields
       ∧ ∀ k x, e !! k = Some x → ∃ s, x = JStr s.

(** A manifest: a dict from file key to entries. *)
Definition flat_manifest (m : gmap string json) : Prop :=
  ∀ k v, m !! k = Some v → flat_entry v.

(** The condition under which a component is left alone: the manifest [m]
    has, under the file key, an entry recording this component's name and
    its current revision id, the target file exists, and the configuration
    has a modification time that the entry's time stamp is strictly
    before. *)
Definition skip_condition (main_cfg : ExportConfig) (w : World)
    (m : gmap string json) (file_key filepath : string) (cmp : Component) : Prop :=
  ∃ e changed t,
    m !! file_key = Some (JDict e)
    ∧ e !! "component" = Some (JStr (name cmp))
    ∧ e !! "revisionId" = Some (JStr (revision_of w (trace w) cmp))
    ∧ is_Some (fs w !! filepath)
    ∧ modified main_cfg = Some t
    ∧ e !! "changed" = Some (JStr changed)
    ∧ String.ltb changed t = true.

(** The history a run adds consists of events that leave the timeline
    alone and of rotations: a move feature of an allowed component and
    orientation is added, the target directory made, the mesh of that
    component exported, and the same feature deleted.  (Most recent event
    first, as in [trace].) *)
Inductive bracketed (allowed : string → string → Prop) : list event → Prop :=
| bracketed_nil : bracketed allowed []
| bracketed_other (e : event) (older : list event) :
    (∀ c b u f, e ≠ MoveFeatureAdd c b u f) →
    (∀ f, e ≠ MoveFeatureDelete f) →
    bracketed allowed older →
    bracketed allowed (e :: older)
| bracketed_rotation (c : string) (b : list string) (u p : string) (f : nat)
    (older : list event) :
    allowed c u →
    bracketed allowed older →
    bracketed allowed
      (MoveFeatureDelete f :: ExportSTL c p :: MkdirParent p
         :: MoveFeatureAdd c b u f :: older).

(** The components and orientations the configuration asks a rotation for:
    a configured component with that name whose [up] is that string and is
    not ["z"]. *)
Definition rotating (cfgs : list ComponentExportConfig) (c u : string) : Prop :=
  ∃ cfg, cfg ∈ cfgs
         ∧ cfg_name cfg = JStr c
         ∧ cfg_up cfg = JStr u
         ∧ needs_rotation cfg = true.

(** A configured component paired with the component of that name. *)
Definition paired (all_components : gmap string Component)
    (pair : ComponentExportConfig * Component) : Prop :=
  ∃ s, cfg_name pair.1 = JStr s ∧ all_components !! s = Some pair.2.

(** The oracles and the document name are the same in both worlds. *)
Definition same_host (w w' : World) : Prop :=
  root_comp_name w' = root_comp_name w
  ∧ clock w' = clock w
  ∧ cancel_pressed w' = cancel_pressed w
  ∧ revision_of w' = revision_of w
  ∧ host_error w' = host_error w.

(** A computation that leaves the host's oracles as they were and, when it
    returns, has left the timeline as it was and added a bracketed
    history. *)
Definition tidy {A} (allowed : string → string → Prop) (m : M A) : Prop :=
  ∀ w w' r, m w = (w', r) →
    same_host w w'
    ∧ match r with
      | Ok _ =>
          moveFeatures w' = moveFeatures w
          ∧ ∃ new, trace w' = new ++ trace w ∧ bracketed allowed new
      | Raise _ => True
      end.

(** The events that change the timeline. *)
Definition timeline_event (e : event) : bool :=
  match e with
  | MoveFeatureAdd _ _ _ _ | MoveFeatureDelete _ => true
  | _ => false
  end.

(** A computation that, however it ends, leaves the timeline as it was and
    adds no event that changes it. *)
Definition still {A} (m : M A) : Prop :=
  ∀ w w' r, m w = (w', r) →
    moveFeatures w' = moveFeatures w
    ∧ ∃ new, trace w' = new ++ trace w
             ∧ Forall (fun e => timeline_event e = false) new.

(** The host refuses nothing, whatever has happened. *)
Definition host_obliging (w : World) : Prop :=
  ∀ history, host_error w history = None.

(** The values the progress counter was set to, most recent first. *)
Definition progress_values (events : list event) : list nat :=
  omap (fun e => match e with ProgressValue i => Some i | _ => None end) events.

(** The values the counter takes, in order, when the iterations starting at
    index [i] end as listed: [i] when an iteration starts, [i + 1] when it
    reaches the end of the body. *)
Fixpoint progress_script (i : nat) (endings : list flow) : list nat :=
  match endings with
  | [] => []
  | ending :: rest =>
      i :: match ending with
           | EndOfBody => [S i]
           | Continue | Break => []
           end ++ progress_script (S i) rest
  end.

(** The configured component names an entry of the enumeration. *)
Definition found (all_components : gmap string Component)
    (cfg : ComponentExportConfig) : bool :=
  match cfg_name cfg with
  | JStr s => bool_decide (is_Some (all_components !! s))
  | _ => false
  end.

Section RunVocabulary.

Variable joinpath : string → string → string.
Variable py_format : json → string.

(** The iterations a run of the loop performs, each with the way it ended
    and the world it left (none from the first that raises on). *)
Fixpoint iterations (main_cfg : ExportConfig) (output_dir : string) (i : nat)
    (todo : list (ComponentExportConfig * Component)) (version_control : json)
    (w : World) : list (flow * World) :=
  match todo with
  | [] => []
  | (cfg, cmp) :: rest =>
      match export_one joinpath py_format main_cfg output_dir i cfg cmp
              version_control w with
      | (w', Ok (version_control', ending)) =>
          (ending, w')
          :: match ending with
             | Break => []
             | Continue | EndOfBody =>
                 iterations main_cfg output_dir (S i) rest version_control' w'
             end
      | (_, Raise _) => []
      end
  end.

(** The manifest the run starts from: the manifest file, read as JSON, or an
    empty dict when there is no such file. *)
Definition loaded_manifest (output_dir : string) (w : World) : option json :=
  match fs w !! joinpath output_dir version_control_name with
  | None => Some (JDict ∅)
  | Some f =>
      match content f with
      | JsonText j => Some j
      | _ => None
      end
  end.

End RunVocabulary.

(** The mesh exports in a history, most recent first: the component and the
    file of each. *)
Definition exported_meshes (events : list event) : list (string * string) :=
  omap (fun e => match e with ExportSTL c p => Some (c, p) | _ => None end) events.

(** What is stored under a key of a manifest. *)
Definition stored (version_control : json) (file_key : string) : json :=
  match version_control with
  | JDict m => default JNull (m !! file_key)
  | _ => JNull
  end.

(** The old entry can be read the way [export] reads it: there is none, or
    it is an entry as [export] writes them. *)
Definition readable_entry (old : option json) : Prop :=
  match old with
  | None => True
  | Some v => v = JNull ∨ flat_entry v
  end.

Section TargetVocabulary.

Variable joinpath : string → string → string.
Variable py_format : json → string.

(** The file key of a configured component (the empty string when the
    configuration gives no usable name). *)
Definition file_key_of (main_cfg : ExportConfig) (cfg : ComponentExportConfig)
    : string :=
  match file_names py_format main_cfg cfg with
  | Ok names => names.1
  | Raise _ => ""
  end.

(** The path of the file written for a configured component. *)
Definition target_of (main_cfg : ExportConfig) (output_dir : string)
    (cfg : ComponentExportConfig) : string :=
  match file_names py_format main_cfg cfg with
  | Ok names => joinpath output_dir names.2
  | Raise _ => ""
  end.

(** The components a run of the loop exports (those whose iteration does not
    end at [continue]), in order, each with the entry its iteration leaves
    under its file key. *)
Fixpoint exported (main_cfg : ExportConfig) (output_dir : string) (i : nat)
    (todo : list (ComponentExportConfig * Component)) (version_control : json)
    (w : World) : list (ComponentExportConfig * Component * json) :=
  match todo with
  | [] => []
  | (cfg, cmp) :: rest =>
      match export_one joinpath py_format main_cfg output_dir i cfg cmp
              version_control w with
      | (w', Ok (version_control', ending)) =>
          let this := (cfg, cmp, stored version_control' (file_key_of main_cfg cfg)) in
          match ending with
          | Continue => exported main_cfg output_dir (S i) rest version_control' w'
          | EndOfBody =>
              this :: exported main_cfg output_dir (S i) rest version_control' w'
          | Break => [this]
          end
      | (_, Raise _) => []
      end
  end.

(** The manifest with the entries of the exported components put under
    their file keys, in order. *)
Definition updated (main_cfg : ExportConfig) (m : gmap string json)
    (done : list (ComponentExportConfig * Component * json)) : gmap string json :=
  foldl (fun m x => <[file_key_of main_cfg x.1.1 := x.2]> m) m done.

End TargetVocabulary.

(** What [wasCancelled] showed in an iteration: set when the iteration ended
    at [break], clear when it went on to the end of the body (it is read just
    before the last progress update); an iteration that ended at [continue]
    did not read it. *)
Definition cancel_seen (w : World) (iteration : flow * World) : Prop :=
  match iteration.1 with
  | Break => cancel_pressed w (trace iteration.2) = true
  | EndOfBody => cancel_pressed w (tail (trace iteration.2)) = false
  | Continue => True
  end.

(** The events of one mesh export, most recent first: the directory is
    made and the mesh written, between the addition and the deletion of a
    move feature of the component when it is rotated. *)
Definition export_bracket (cmp : Component) (target : string)
    (events : list event) : Prop :=
  events = [ExportSTL (name cmp) target; MkdirParent target]
  ∨ ∃ up feature,
      events = [MoveFeatureDelete feature; ExportSTL (name cmp) target;
                MkdirParent target;
                MoveFeatureAdd (name cmp) (bRepBodies cmp) up feature].

(** The entry was written in the run from [w] to [w'] for the mesh export of
    [cmp] to [target]: it records the component's name, the file, the
    revision id that the host reported and the time that the clock showed
    just before the events of that mesh export, and the document's name. *)
Definition written_during (w w' : World) (cmp : Component) (target : string)
    (entry : json) : Prop :=
  ∃ earlier bracket later,
    trace w' = later ++ bracket ++ earlier ++ trace w
    ∧ export_bracket cmp target bracket
    ∧ entry
      = manifest_entry (name cmp) target
          (revision_of w (earlier ++ trace w) cmp) (root_comp_name w)
          (clock w (earlier ++ trace w)).

(** How the [i]-th iteration, for [cmp] with the file [target], has gone
    from the world [before] to the world [after]: at [continue] the world
    has the two progress updates and nothing else; at [break] the mesh has
    been exported and Cancel was then found pressed; at the end of the body
    the mesh has been exported, Cancel was found not pressed, and the
    progress counter was then set to [i + 1]. *)
Definition iteration_shape (w : World) (i : nat) (cmp : Component)
    (target : string) (before : World) (ending : flow) (after : World) : Prop :=
  match ending with
  | Continue => after = progressed i before
  | Break =>
      ∃ new, trace after = new ++ trace before
             ∧ exported_meshes new = [(name cmp, target)]
             ∧ progress_values new = [i]
             ∧ cancel_pressed w (trace after) = true
  | EndOfBody =>
      ∃ new, trace after = ProgressValue (S i) :: new ++ trace before
             ∧ exported_meshes new = [(name cmp, target)]
             ∧ progress_values new = [i]
             ∧ cancel_pressed w (new ++ trace before) = false
  end.

(** The iterations of a run of the loop over [todo], one after the other
    from the world [before]: each has the shape above, nothing follows an
    iteration that ended at [break], and the next component follows every
    other iteration. *)
Fixpoint sequential (target : ComponentExportConfig → string) (w : World)
    (i : nat) (todo : list (ComponentExportConfig * Component))
    (before : World) (its : list (flow * World)) : Prop :=
  match its, todo with
  | [], _ => True
  | _ :: _, [] => False
  | (ending, after) :: its', (cfg, cmp) :: rest =>
      iteration_shape w i cmp (target cfg) before ending after
      ∧ (ending = Break → its' = [])
      ∧ (ending ≠ Break → rest ≠ [] → its' ≠ [])
      ∧ sequential target w (S i) rest after its'
  end.

(** ** An example design and its export directory *)

Definition bracket : Component := mkComponent "Bracket" ["Body1"] [].

Definition plate : Component := mkComponent "Plate" ["Body1"; "Body2"] [].

Definition assembly : Component :=
  mkComponent "Assembly v3" []
    [ occurrence_of "Bracket:1" bracket;
      occurrence_of "Plate:1" plate;
      occurrence_of "Plate:2" plate ].

Definition design_root : Root := RootComponent assembly.

(** [Bracket] goes to [bracket.stl] as it lies. *)
Definition bracket_cfg : ComponentExportConfig :=
  {| cfg_name := JStr "Bracket"; cfg_to := JStr "bracket";
     cfg_up := JNull; cfg_fmt := JNull; cfg_count := JNull |}.

(** [Plate] goes to [plate_x2.stl] with its x axis up. *)
Definition plate_cfg : ComponentExportConfig :=
  {| cfg_name := JStr "Plate"; cfg_to := JStr "plate";
     cfg_up := JStr "x"; cfg_fmt := JNull; cfg_count := JInt 2 |}.

(** [Plate] with an orientation that is not one of the six. *)
Definition tilted_cfg : ComponentExportConfig :=
  {| cfg_name := JStr "Plate"; cfg_to := JStr "plate";
     cfg_up := JStr "w"; cfg_fmt := JNull; cfg_count := JNull |}.

Definition config_of (cfgs : list ComponentExportConfig) : ExportConfig :=
  {| fmt := JStr "stl"; components := cfgs;
     modified := Some "2026-01-02T10:00:00" |}.

(** The manifest of an earlier run that exported [Bracket]. *)
Definition bracket_manifest : gmap string json :=
  {[ "bracket" :=
       manifest_entry "Bracket" "out/bracket.stl" "rev-7" "Assembly v3"
         "2026-01-01T10:00:00" ]}.

(** The export directory that run left. *)
Definition earlier_files : gmap string file :=
  <["out/bracket.stl" :=
      {| content := MeshData "Bracket"; mtime := "2026-01-01T10:00:00" |}]>
    (<["out/export_for_printing.version.json" :=
         json_file (JDict bracket_manifest) "2026-01-01T10:00:01"]> ∅).

(** A directory with nothing but a configuration file. *)
Definition config_only (obj : json) : gmap string file :=
  {[ "out/export_for_printing.json" := json_file obj "2026-01-02T10:00:00" ]}.

(** A flat assembly: two occurrences of [Plate] and one of [Bracket]. *)
Definition flat_assembly : list Occurrence := occurrences assembly.

(** The day after the configuration was edited: the earlier export is in
    place and nobody presses Cancel. *)
Definition later_world : World :=
  world_with earlier_files "2026-01-03T10:00:00" false.

(** The same, with Cancel pressed as soon as the dialog shows. *)
Definition cancelled_world : World :=
  world_with earlier_files "2026-01-03T10:00:00" true.

(** An export directory that does not hold anything yet. *)
Definition fresh_world : World := world_with ∅ "2026-01-03T10:00:00" false.

(** The JSON value in the manifest file of the directory [out]. *)
Definition saved_manifest (w : World) : json :=
  match fs w !! "out/export_for_printing.version.json" with
  | Some f =>
      match content f with
      | JsonText j => j
      | _ => JNull
      end
  | None => JNull
  end.

(** A world whose directory holds the given configuration file. *)
Definition configured_world (obj : json) : World :=
  world_with (config_only obj) "2026-01-03T10:00:00" false.

(** Two plates side by side below the first of two frames. *)
Definition frame : Component :=
  mkComponent "Frame" [] [occurrence_of "Plate:1" plate; occurrence_of "Plate:2" plate].

Definition two_frames : list Occurrence :=
  [occurrence_of "Frame:1" frame; occurrence_of "Frame:2" frame].

(** ** Where a run writes *)

(** A computation that, however it ends, changes no file outside [inside]
    and adds only events that satisfy [quiet]. *)
Definition confined {A} (inside : string → Prop) (quiet : event → Prop)
    (m : M A) : Prop :=
  ∀ w w' r, m w = (w', r) →
    (∀ path, ¬ inside path → fs w' !! path = fs w !! path)
    ∧ ∃ new, trace w' = new ++ trace w ∧ Forall quiet new.

(** The event is not the writing of a text file. *)
Definition no_write (e : event) : Prop :=
  match e with
  | WriteText _ _ => False
  | _ => True
  end.

(** ** Which components are counted *)

(** The name [k] is that of a component with an occurrence in the list, or
    is counted below an occurrence of the list named [...:1]. *)
Inductive counted_in : list Occurrence → string → Prop :=
| counted_direct occs occ :
    In occ occs → counted_in occs (name (component occ))
| counted_below occs occ k :
    In occ occs →
    endswith (occ_name occ) ":1" = true →
    counted_in (childOccurrences occ) k →
    counted_in occs k.

(** The keys of a [defaultdict], in insertion order. *)
Definition keys (rv : counter) : list string := map fst rv.

(** ** Further examples *)




(** A listed component that gives its orientation under the name
    [orientation]. *)
Definition misspelt_entry : json :=
  JDict (<["orientation" := JStr "x"]>
           (<["to" := JStr "plate"]> (<["name" := JStr "Plate"]> ∅))).

(** A configured component whose name is a list. *)
Definition unhashable_cfg : ComponentExportConfig :=
  {| cfg_name := JList [JStr "Plate"]; cfg_to := JStr "plate";
     cfg_up := JNull; cfg_fmt := JNull; cfg_count := JNull |}.

(** [Bracket] with the extension in the configured name. *)
Definition dotted_cfg : ComponentExportConfig :=
  {| cfg_name := JStr "Bracket"; cfg_to := JStr "part.stl";
     cfg_up := JNull; cfg_fmt := JNull; cfg_count := JNull |}.

(** A configuration without components. *)
Definition empty_config : ExportConfig :=
  {| fmt := JStr "stl"; components := []; modified := None |}.

(** ** Generating a configuration *)

(** [s.replace(old, new)] for one-character strings [old] and [new]. *)
Fixpoint replace_char (old new : ascii) (s : string) : string :=
  match s with
  | EmptyString => EmptyString
  | String c rest =>
      String (if Ascii.eqb c old then new else c) (replace_char old new rest)
  end.

(** [c in s] for a character [c]. *)
Fixpoint contains_char (c : ascii) (s : string) : bool :=
  match s with
  | EmptyString => false
  | String c' rest => Ascii.eqb c' c || contains_char c rest
  end.

Section Generate.

(** [s.lower()] is the builtin's business. *)
Variable lower : string → string.

(** [ExportConfig.generate(component_names)]: the fields not given keep
    their default [None]. *)
Definition generate (component_names : list string) : ExportConfig :=
  {| fmt := JStr "stl";
     components :=
       map (fun cmp =>
              {| cfg_name := JStr cmp;
                 cfg_to := JStr (replace_char " " "_" (lower cmp));
                 cfg_up := JNull; cfg_fmt := JNull; cfg_count := JNull |})
         component_names;
     modified := None |}.

End Generate.

(** Lower case for the letters A to Z, other characters as they are. *)
Definition lower_ascii (s : string) : string :=
  string_of_list_ascii
    (map (fun c =>
            let n := nat_of_ascii c in
            if (65 <=? n)%nat && (n <=? 90)%nat then ascii_of_nat (n + 32) else c)
       (list_ascii_of_string s)).

(** ** The command

    [ExportCommand.on_execute] with what it calls.  Besides the [World] of
    the export driver, the command makes the output directory, shows message
    boxes, and keeps its settings with the add-in framework, which stores
    one dictionary for the add-in, keyed here by the document's name. *)

Inductive command_call :=
| MakeDirs (path : string)
| MessageBox (text : string).

(** The state the command runs in; [calls] has the most recent call
    first, and [stored_settings] is what [utils.read_settings(app_name)]
    returns. *)
Record Session := {
  host : World;
  document_name : string;
  stored_settings : gmap string json;
  calls : list command_call
}.

Definition with_host (w : World) (s : Session) : Session :=
  {| host := w; document_name := document_name s;
     stored_settings := stored_settings s; calls := calls s |}.

Definition add_call (c : command_call) (s : Session) : Session :=
  {| host := host s; document_name := document_name s;
     stored_settings := stored_settings s; calls := c :: calls s |}.

(** [update_settings], called with the keyword arguments [config]: the
    settings are read, the entry of the document replaced, and the settings
    written back. *)
Definition update_settings (config : gmap string json) (s : Session) : Session :=
  {| host := host s; document_name := document_name s;
     stored_settings := <[document_name s := JDict config]> (stored_settings s);
     calls := calls s |}.

(** [get_settings()]. *)
Definition get_settings (s : Session) : json :=
  default (JDict ∅) (stored_settings s !! document_name s).

(** The first entity of the selection that [on_execute] is given. *)
Inductive Entity :=
| EntityOccurrence (o : Occurrence)
| EntityComponent (c : Component)
| EntityOther.

(** The entity as the root of an export, when it is an occurrence or a
    component. *)
Definition root_of (sel_obj : Entity) : option Root :=
  match sel_obj with
  | EntityOccurrence o => Some (RootOccurrence o)
  | EntityComponent c => Some (RootComponent c)
  | EntityOther => None
  end.

(** [sel_obj.name if isinstance(sel_obj, Occurrence) else "_root"]. *)
Definition selection_name (sel_obj : Entity) : string :=
  match sel_obj with
  | EntityOccurrence o => occ_name o
  | _ => "_root"
  end.

Section Command.

Variable int_of_str : string → option Z.
Variable sorted_by_name : list json → result (list json).
Variable joinpath : string → string → string.
Variable py_format : json → string.
Variable lower : string → string.

(** [str(Path(text))] is pathlib's business. *)
Variable path_str : string → string.

(** [on_execute], for the text of the input [dir_selected], the first
    selected entity and the counts that [on_create] has put into
    [self.component_counts]. *)
Definition on_execute (dir_selected : string) (sel_obj : Entity)
    (component_counts : counter) (s : Session) : Session * result unit :=
  let output_dir := path_str dir_selected in
  let s := add_call (MakeDirs output_dir) s in
  match root_of sel_obj with
  | None => (add_call (MessageBox "Please select a component to export.") s, Ok tt)
  | Some root =>
      let s :=
        update_settings
          (<["last_selection" := JStr (selection_name sel_obj)]>
             (<["last_dir" := JStr output_dir]> ∅)) s in
      let config_file := joinpath output_dir config_file_name in
      if negb (bool_decide (is_Some (fs (host s) !! config_file))) then
        match
          emit_file sorted_by_name config_file
            (generate lower (keys component_counts)) (host s)
        with
        | (w, Raise e) => (with_host w s, Raise e)
        | (w, Ok _) =>
            (add_call
               (MessageBox "Created new export configuration file. Please edit it and run this script again.")
               (with_host w s),
             Ok tt)
        end
      else
        match parse_file int_of_str (host s) config_file (Some component_counts) with
        | Raise e => (s, Raise e)
        | Ok export_cfg =>
            match export joinpath py_format export_cfg output_dir root (host s) with
            | (w, r) => (with_host w s, r)
            end
        end
  end.

End Command.

(** [str(Path(text))] for a text that is a path in normal form. *)
Definition plain_path (text : string) : string := text.

(** The command is run for the first time, on the example design. *)
Definition first_session : Session :=
  {| host := fresh_world; document_name := "Assembly v3";
     stored_settings := ∅; calls := [] |}.

(** Two components with one name, the second below the first. *)
Definition inner_part : Component := mkComponent "Part" ["Body2"] [].

Definition outer_part : Component :=
  mkComponent "Part" ["Body1"] [occurrence_of "Part:1" inner_part].

(** [Plate] configured to the file name of [Bracket]. *)
Definition plate_as_bracket_cfg : ComponentExportConfig :=
  {| cfg_name := JStr "Plate"; cfg_to := JStr "bracket";
     cfg_up := JNull; cfg_fmt := JNull; cfg_count := JNull |}.

(** A world in which the operating system refuses to make a directory: a
    file is in the way. *)
Definition refusing_world : World :=
  {| fs := ∅; moveFeatures := []; trace := [];
     root_comp_name := "Assembly v3";
     clock := fun _ => "2026-01-03T10:00:00";
     cancel_pressed := fun _ => false;
     revision_of := fun _ _ => "rev-7";
     host_error :=
       fun history =>
         match history with
         | MoveFeatureAdd _ _ _ _ :: _ => Some FileExistsError
         | _ => None
         end |}.


(** * Facts *)

(** ** Strings *)

Lemma append_length (a b : string) :
  String.length (a +:+ b) = (String.length a + String.length b)%nat.
Proof. induction a as [|c a IH]; simpl; [done|by rewrite IH]. Qed.

Lemma append_assoc (a b c : string) : (a +:+ b) +:+ c = a +:+ (b +:+ c).
Proof.
  induction a as [|x a IH]; [done|].
  change (String x ((a +:+ b) +:+ c) = String x (a +:+ b +:+ c)). by f_equal.
Qed.

Lemma prefix_append (a b : string) : String.prefix a (a +:+ b) = true.
Proof.
  induction a as [|x a IH]; [by destruct b|].
  change (String.prefix (String x a) (String x (a +:+ b)) = true).
  cbn [String.prefix]. destruct (ascii_dec x x); [done|congruence].
Qed.

Lemma append_nonempty_neq (a b : string) : b ≠ "" → a ≠ a +:+ b.
Proof.
  intros Hb Heq. apply (f_equal String.length) in Heq.
  rewrite append_length in Heq. destruct b; [done|simpl in Heq; lia].
Qed.

(** ** Induction over the occurrence tree *)

Section OccurrenceInduction.

Variable P : Occurrence → Prop.

Hypothesis step :
  ∀ n c children, Forall P children → P (mkOccurrence n c children).

Lemma Occurrence_tree_ind (o : Occurrence) : P o.
Proof.
  revert o. fix tree 1. intros [n c children]. apply step.
  induction children as [|x rest IH]; [apply List.Forall_nil|].
  apply List.Forall_cons; [apply tree|exact IH].
Qed.

End OccurrenceInduction.

(** ** The enumeration of components *)

Section Enumerate.

Implicit Types (rv : gmap string Component) (occs : list Occurrence).

Let visit rv occ := dict_update rv (enumerate_occurrence occ).

Lemma enumerate_occurrence_unfold n c children :
  enumerate_occurrence (mkOccurrence n c children)
  = fold_left visit children (<[name c := c]> ∅).
Proof. reflexivity. Qed.

Lemma visit_keeps_keys occs rv k :
  is_Some (rv !! k) → is_Some (fold_left visit occs rv !! k).
Proof.
  revert rv. induction occs as [|occ occs IH]; intros rv Hk; simpl; [done|].
  apply IH. unfold visit, dict_update.
  rewrite lookup_union_is_Some. by right.
Qed.

Lemma visit_adds_keys occs rv occ k :
  In occ occs →
  is_Some (enumerate_occurrence occ !! k) →
  is_Some (fold_left visit occs rv !! k).
Proof.
  revert rv. induction occs as [|o occs IH]; intros rv Hin Hk; simpl in *; [done|].
  destruct Hin as [->|Hin].
  - apply visit_keeps_keys. unfold visit, dict_update.
    rewrite lookup_union_is_Some. by left.
  - by apply IH.
Qed.

Lemma visit_lookup occs rv k c :
  fold_left visit occs rv !! k = Some c →
  rv !! k = Some c ∨ ∃ occ, In occ occs ∧ enumerate_occurrence occ !! k = Some c.
Proof.
  revert rv. induction occs as [|o occs IH]; intros rv Hk; simpl in *; [by left|].
  destruct (IH _ Hk) as [Hv|(occ & Hin & Hocc)].
  - unfold visit, dict_update in Hv.
    apply lookup_union_Some_raw in Hv as [Hv|[_ Hv]].
    + right. exists o. split; [by left|done].
    + by left.
  - right. exists occ. split; [by right|done].
Qed.

Lemma enumerate_occurrence_complete o c :
  reaches_from o c → is_Some (enumerate_occurrence o !! name c).
Proof.
  induction 1 as [[n k children]|[n k children] child c Hin _ IH].
  - rewrite enumerate_occurrence_unfold. apply visit_keeps_keys.
    simpl. rewrite lookup_insert_eq. by eexists.
  - rewrite enumerate_occurrence_unfold. by eapply visit_adds_keys.
Qed.

Lemma enumerate_occurrence_sound o k c :
  enumerate_occurrence o !! k = Some c → name c = k ∧ reaches_from o c.
Proof.
  revert k c. induction o as [n own children IH] using Occurrence_tree_ind.
  intros k c. rewrite enumerate_occurrence_unfold. intros Hk.
  apply visit_lookup in Hk as [Hk|(occ & Hin & Hk)].
  - apply lookup_insert_Some in Hk as [[<- <-]|[_ Hk]]; [|done].
    split; [done|]. apply (reaches_own (mkOccurrence n own children)).
  - rewrite Forall_forall in IH.
    destruct (IH occ (proj2 (list_elem_of_In _ _) Hin) k c Hk) as [Hname Hreach].
    split; [done|]. by eapply reaches_below.
Qed.

Lemma recursiveEnumerateComponents_names (root : Root) k c :
  recursiveEnumerateComponents root !! k = Some c → name c = k.
Proof.
  destruct root as [o|own]; simpl; intros Hk.
  - by apply enumerate_occurrence_sound in Hk as [Hname _].
  - apply visit_lookup in Hk as [Hk|(occ & Hin & Hk)].
    + by apply lookup_insert_Some in Hk as [[<- <-]|[_ Hk]].
    + by apply enumerate_occurrence_sound in Hk as [Hname _].
Qed.

Lemma reaches_root_component (root : Root) : reaches root (root_component root).
Proof. destruct root as [o|k]; simpl; [apply reaches_own|by left]. Qed.

Lemma recursiveEnumerateComponents_complete (root : Root) c :
  reaches root c → is_Some (recursiveEnumerateComponents root !! name c).
Proof.
  destruct root as [o|k]; simpl; intros Hc.
  - by apply enumerate_occurrence_complete.
  - destruct Hc as [->|(occ & Hin & Hc)].
    + apply visit_keeps_keys. rewrite lookup_insert_eq. by eexists.
    + eapply visit_adds_keys; [done|]. by apply enumerate_occurrence_complete.
Qed.

Lemma recursiveEnumerateComponents_sound (root : Root) k c :
  recursiveEnumerateComponents root !! k = Some c → name c = k ∧ reaches root c.
Proof.
  destruct root as [o|own]; simpl; intros Hk.
  - by apply enumerate_occurrence_sound.
  - apply visit_lookup in Hk as [Hk|(occ & Hin & Hk)].
    + apply lookup_insert_Some in Hk as [[<- <-]|[_ Hk]]; [|done].
      split; [done|by left].
    + apply enumerate_occurrence_sound in Hk as [Hname Hreach].
      split; [done|]. right. by exists occ.
Qed.

Lemma last_named_app k (l1 l2 : list Component) :
  last_named k (l1 ++ l2)
  = match last_named k l2 with
    | Some c => Some c
    | None => last_named k l1
    end.
Proof. unfold last_named. by rewrite filter_app, last_app. Qed.

Lemma visit_last_named occs k :
  Forall (fun o => enumerate_occurrence o !! k = last_named k (visited_from o)) occs →
  ∀ rv, fold_left visit occs rv !! k
        = match last_named k (flat_map visited_from occs) with
          | Some c => Some c
          | None => rv !! k
          end.
Proof.
  induction 1 as [|o occs Ho _ IH]; intros rv; [done|].
  cbn [fold_left flat_map]. rewrite IH, last_named_app.
  destruct (last_named k (flat_map visited_from occs)); [done|].
  unfold visit, dict_update. rewrite lookup_union, Ho.
  by destruct (last_named k (visited_from o)), (rv !! k).
Qed.

Lemma last_named_own k (c : Component) :
  ({[ name c := c ]} : gmap string Component) !! k = last_named k [c].
Proof.
  unfold last_named. rewrite filter_cons, filter_nil.
  case_decide as Hk.
  - subst k. by rewrite lookup_singleton_eq.
  - by rewrite lookup_singleton_ne.
Qed.

Lemma enumerate_occurrence_last o :
  ∀ k, enumerate_occurrence o !! k = last_named k (visited_from o).
Proof.
  induction o as [n c children IH] using Occurrence_tree_ind. intros k.
  rewrite enumerate_occurrence_unfold. cbn [visited_from].
  rewrite visit_last_named.
  - change (c :: flat_map visited_from children)
      with ([c] ++ flat_map visited_from children).
    rewrite last_named_app.
    destruct (last_named k (flat_map visited_from children)); [done|].
    rewrite insert_empty. apply last_named_own.
  - eapply Forall_impl; [exact IH|]. intros o Ho. apply Ho.
Qed.

Lemma recursiveEnumerateComponents_last (root : Root) k :
  recursiveEnumerateComponents root !! k = last_named k (visited root).
Proof.
  destruct root as [o|c]; [apply enumerate_occurrence_last|].
  cbn [recursiveEnumerateComponents visited].
  change (fold_left visit (occurrences c) (<[name c := c]> ∅) !! k
          = last_named k ([c] ++ flat_map visited_from (occurrences c))).
  rewrite visit_last_named, last_named_app.
  - destruct (last_named k (flat_map visited_from (occurrences c))); [done|].
    rewrite insert_empty. apply last_named_own.
  - apply Forall_forall. intros o _. apply enumerate_occurrence_last.
Qed.

(** C4, as amended.  [recursiveEnumerateComponents], for an occurrence or a
    component as root, returns a dictionary keyed by component name.  Its
    keys are exactly the names of the components of the hierarchy: of the
    root's component and of every component reachable through the child
    occurrences.  Under a key it has one component of the hierarchy with
    that name, however many occurrences there are; so a component whose name
    no other component of the hierarchy has is in the dictionary, and with
    it the root's component and every reachable component when the names
    are all different.  Of several components with one name the dictionary
    has only the one that the traversal comes to last, the traversal taking
    the component of an occurrence first and then the sub-trees of its child
    occurrences in order. *)
Theorem recursiveEnumerateComponents_by_name (root : Root) :
  let rv := recursiveEnumerateComponents root in
  (∀ k, is_Some (rv !! k) ↔ ∃ c, reaches root c ∧ name c = k)
  ∧ (∀ k c, rv !! k = Some c → name c = k ∧ reaches root c)
  ∧ (∀ c, reaches root c →
       (∀ c', reaches root c' → name c' = name c → c' = c) →
       rv !! name c = Some c)
  ∧ ((∀ c c', reaches root c → reaches root c' → name c = name c' → c = c') →
     rv !! name (root_component root) = Some (root_component root)
     ∧ ∀ c, reaches root c → rv !! name c = Some c)
  ∧ (∀ k, rv !! k = last_named k (visited root)).
Proof.
  cbn zeta.
  assert (Hone : ∀ c, reaches root c →
            (∀ c', reaches root c' → name c' = name c → c' = c) →
            recursiveEnumerateComponents root !! name c = Some c).
  { intros c Hc Honly.
    destruct (recursiveEnumerateComponents_complete root c Hc) as [c' Hc'].
    destruct (recursiveEnumerateComponents_sound root _ _ Hc') as [Hname Hreach].
    by rewrite Hc', (Honly c' Hreach Hname). }
  split; [|split; [apply recursiveEnumerateComponents_sound|split; [exact Hone|]]].
  - intros k. split.
    + intros [c Hc].
      destruct (recursiveEnumerateComponents_sound root _ _ Hc) as [Hname Hreach].
      by exists c.
    + intros (c & Hc & <-). by apply recursiveEnumerateComponents_complete.
  - split; [|apply recursiveEnumerateComponents_last].
    intros Hunique.
    assert (Hall : ∀ c, reaches root c →
              recursiveEnumerateComponents root !! name c = Some c).
    { intros c Hc. apply Hone; [done|]. intros c' Hc' Hname.
      by apply Hunique. }
    split; [apply Hall, reaches_root_component|exact Hall].
Qed.

End Enumerate.

(** ** Occurrence counts *)

Section Counters.

Implicit Types (rv child : counter) (k parent : string) (n : Z).

Lemma counter_get_add rv k n k' :
  counter_get (counter_add rv k n) k'
  = counter_get rv k' + (if decide (k = k') then n else 0).
Proof.
  induction rv as [|[a v] rv IH]; simpl.
  - destruct (String.eqb_spec k k'); case_decide; first [done|lia].
  - destruct (String.eqb_spec a k) as [->|Hak]; simpl.
    + destruct (String.eqb_spec k k'); case_decide; first [done|lia].
    + destruct (String.eqb_spec a k') as [->|Hak'].
      * case_decide; [congruence|lia].
      * apply IH.
Qed.

Lemma counter_lookup_None rv k :
  counter_lookup rv k = None ↔ k ∉ map fst rv.
Proof.
  induction rv as [|[a v] rv IH]; simpl.
  - split; [intros _; apply not_elem_of_nil|done].
  - rewrite not_elem_of_cons.
    destruct (String.eqb_spec a k) as [->|Hak].
    + split; [done|intros [Hne _]; done].
    + rewrite IH. split; [intros Hnot; split; [congruence|done]|by intros [_ Hnot]].
Qed.

Lemma counter_get_absent rv k :
  counter_lookup rv k = None → counter_get rv k = 0.
Proof.
  induction rv as [|[a v] rv IH]; simpl; [done|].
  by destruct (String.eqb a k).
Qed.

(** The sum of the values stored under [k]. *)
Let total_under child k : Z :=
  foldr Z.add 0 (map (fun kc => if decide (kc.1 = k) then kc.2 else 0) child).

Lemma total_under_absent child k : k ∉ map fst child → total_under child k = 0.
Proof.
  induction child as [|[a v] child IH]; simpl; [done|].
  rewrite not_elem_of_cons. intros [Hne Hnot]. unfold total_under in *. simpl.
  case_decide; [congruence|]. rewrite IH; [lia|done].
Qed.

Lemma total_under_unique child k :
  NoDup (map fst child) → total_under child k = counter_get child k.
Proof.
  induction child as [|[a v] child IH]; simpl; [done|].
  rewrite NoDup_cons. intros [Hnot Hnd]. unfold total_under in *. simpl.
  destruct (String.eqb_spec a k) as [->|Hak].
  - rewrite decide_True by done.
    fold (total_under child k). rewrite total_under_absent; [lia|done].
  - rewrite decide_False by done. rewrite IH; [lia|done].
Qed.

Lemma counter_add_keys rv k n :
  map fst (counter_add rv k n)
  = if bool_decide (k ∈@{list string} map fst rv)
    then map fst rv else map fst rv ++ [k].
Proof.
  induction rv as [|[a v] rv IH].
  - cbn [counter_add map]. case_bool_decide as Hin; [|done].
    by apply not_elem_of_nil in Hin.
  - cbn [counter_add map fst].
    destruct (String.eqb_spec a k) as [->|Hak]; cbn [map fst].
    + rewrite bool_decide_eq_true_2; [done|left].
    + rewrite IH. case_bool_decide as Hin.
      * rewrite bool_decide_eq_true_2; [done|by right].
      * rewrite bool_decide_eq_false_2; [done|].
        rewrite not_elem_of_cons. split; [congruence|done].
Qed.

Lemma counter_add_NoDup rv k n :
  NoDup (map fst rv) → NoDup (map fst (counter_add rv k n)).
Proof.
  intros Hnd. rewrite counter_add_keys. case_bool_decide as Hin; [done|].
  apply NoDup_app. split; [done|]. split.
  - intros x Hx Hk. apply list_elem_of_singleton in Hk as ->. done.
  - apply NoDup_singleton.
Qed.

Lemma add_child_NoDup parent rv child :
  NoDup (map fst rv) → NoDup (map fst (add_child parent rv child)).
Proof.
  unfold add_child. revert rv.
  induction child as [|[a v] child IH]; intros rv Hnd; simpl; [done|].
  apply IH. by apply counter_add_NoDup.
Qed.

Lemma count_nested_NoDup recur occs rv :
  NoDup (map fst rv) → NoDup (map fst (count_nested recur occs rv)).
Proof.
  unfold count_nested. revert rv.
  induction occs as [|occ occs IH]; intros rv Hnd; simpl; [done|].
  apply IH. destruct (endswith _ _); [by apply add_child_NoDup|done].
Qed.

Lemma count_direct_step occs rv k :
  counter_get
    (fold_left (fun rv occ => counter_add rv (name (component occ)) 1) occs rv) k
  = counter_get rv k + direct_count occs k.
Proof.
  unfold direct_count. revert rv.
  induction occs as [|occ occs IH]; intros rv; simpl; [lia|].
  rewrite IH, counter_get_add, filter_cons.
  case_decide; simpl; lia.
Qed.

Lemma count_direct_get occs k :
  counter_get (count_direct occs) k = direct_count occs k.
Proof. unfold count_direct. by rewrite count_direct_step. Qed.

Lemma count_direct_NoDup occs : NoDup (map fst (count_direct occs)).
Proof.
  unfold count_direct.
  assert (H : ∀ rv, NoDup (map fst rv) →
    NoDup (map fst (fold_left
      (fun rv occ => counter_add rv (name (component occ)) 1) occs rv))).
  { induction occs as [|occ occs IH]; intros rv Hnd; simpl; [done|].
    apply IH. by apply counter_add_NoDup. }
  apply H. constructor.
Qed.

Lemma recursiveCountOccurences_NoDup occs :
  NoDup (map fst (recursiveCountOccurences occs)).
Proof. apply count_nested_NoDup, count_direct_NoDup. Qed.

Lemma count_children_eq occ :
  count_children occ = recursiveCountOccurences (childOccurrences occ).
Proof. by destruct occ. Qed.

(** Merging a sub-tree whose keys do not include the parent: the multiplier
    stays what it was. *)
Lemma add_child_get parent rv child k :
  parent ∉ map fst child →
  counter_get (add_child parent rv child) k
  = counter_get rv k + total_under child k * counter_get rv parent.
Proof.
  unfold add_child, total_under. revert rv.
  induction child as [|[a v] child IH]; intros rv Hnot; simpl; [lia|].
  apply not_elem_of_cons in Hnot as [Hne Hnot]. simpl in Hne.
  rewrite IH by done. rewrite !counter_get_add.
  rewrite (decide_False (P := a = parent)) by done.
  case_decide; lia.
Qed.

End Counters.

Section CountFormula.

Implicit Types (occs : list Occurrence) (rv : counter) (k : string).

Let inside occ := recursiveCountOccurences (childOccurrences occ).

Let contribution (weigh : string → Z) k occ : Z :=
  counter_get (inside occ) k * weigh (name (component occ)).

Lemma contributions_ext (f g : string → Z) k occs :
  (∀ occ, occ ∈ occs → f (name (component occ)) = g (name (component occ))) →
  foldr Z.add 0 (map (contribution f k) occs)
  = foldr Z.add 0 (map (contribution g k) occs).
Proof.
  induction occs as [|occ occs IH]; intros Hfg; simpl; [done|].
  unfold contribution at 1 3. rewrite Hfg by left.
  rewrite IH; [done|]. intros o Ho. apply Hfg. by right.
Qed.

Lemma add_child_inside rv o k :
  counter_lookup (inside o) (name (component o)) = None →
  counter_get (add_child (name (component o)) rv (count_children o)) k
  = counter_get rv k + counter_get (inside o) k * counter_get rv (name (component o)).
Proof.
  intros Hnone. rewrite count_children_eq. fold (inside o).
  rewrite add_child_get by by apply counter_lookup_None.
  rewrite total_under_unique by apply recursiveCountOccurences_NoDup. done.
Qed.

Lemma count_nested_get occs rv k :
  (∀ parent occ, parent ∈ representatives occs → occ ∈ representatives occs →
     counter_lookup (inside occ) (name (component parent)) = None) →
  counter_get (count_nested count_children occs rv) k
  = counter_get rv k
    + foldr Z.add 0 (map (contribution (counter_get rv) k) (representatives occs)).
Proof.
  unfold count_nested, representatives. revert rv.
  induction occs as [|o occs IH]; intros rv Hsafe; [simpl; lia|].
  cbn [fold_left]. rewrite filter_cons in Hsafe |- *. cbv beta in Hsafe |- *.
  destruct (endswith (occ_name o) ":1") eqn:Hrep.
  - rewrite decide_True in Hsafe |- * by done.
    set (reps := filter (λ occ, endswith (occ_name occ) ":1" = true) occs) in *.
    set (rv1 := add_child (name (component o)) rv (count_children o)).
    assert (Hkeep : ∀ p, p ∈ o :: reps →
              counter_get rv1 (name (component p)) = counter_get rv (name (component p))).
    { intros p Hp. unfold rv1. rewrite add_child_inside.
      - rewrite (counter_get_absent (inside o)); [lia|].
        apply Hsafe; [done|left].
      - apply Hsafe; left. }
    rewrite IH.
    + cbn [map foldr]. unfold contribution at 2.
      rewrite (contributions_ext (counter_get rv1) (counter_get rv)).
      * unfold rv1. rewrite add_child_inside by (apply Hsafe; left). lia.
      * intros occ Hocc. apply Hkeep. by right.
    + intros parent occ Hp Hocc. apply Hsafe; by right.
  - rewrite decide_False in Hsafe |- * by done. by apply IH.
Qed.

Lemma parents_not_nested_spec occs :
  parents_not_nested occs = true →
  ∀ parent occ, parent ∈ representatives occs → occ ∈ representatives occs →
    counter_lookup (inside occ) (name (component parent)) = None.
Proof.
  unfold parents_not_nested. rewrite forallb_forall.
  intros Hall parent occ Hp Hocc.
  apply list_elem_of_In in Hp, Hocc.
  specialize (Hall parent Hp). rewrite forallb_forall in Hall.
  specialize (Hall occ Hocc). by apply bool_decide_eq_true in Hall.
Qed.

Lemma prune_children occ :
  count_children (prune occ) = count_children occ
  ∨ endswith (occ_name occ) ":1" = false.
Proof.
  induction occ as [n c children IH] using Occurrence_tree_ind.
  destruct (endswith n ":1") eqn:Hrep; [left|by right].
  cbn [prune]. rewrite Hrep. cbn [count_children].
  assert (Hdirect : count_direct (map prune children) = count_direct children).
  { unfold count_direct. generalize ([] : counter).
    clear IH. induction children as [|x xs IHxs]; intros rv; [done|].
    cbn [map fold_left]. rewrite IHxs. by destruct x. }
  rewrite Hdirect. clear Hdirect.
  unfold count_nested. generalize (count_direct children).
  induction children as [|x xs IHxs]; intros rv; [done|].
  apply Forall_cons in IH as [Hx Hxs]. cbn [map fold_left].
  rewrite IHxs by done.
  assert (Hname : occ_name (prune x) = occ_name x) by by destruct x.
  assert (Hcomp : component (prune x) = component x) by by destruct x.
  rewrite Hname, Hcomp.
  destruct Hx as [-> | ->]; done.
Qed.

Lemma recursiveCountOccurences_prune occs :
  recursiveCountOccurences (map prune occs) = recursiveCountOccurences occs.
Proof.
  change (count_children (prune (mkOccurrence ":1" (mkComponent "" [] []) occs))
          = count_children (mkOccurrence ":1" (mkComponent "" [] []) occs)).
  destruct (prune_children (mkOccurrence ":1" (mkComponent "" [] []) occs))
    as [H|H]; [done|discriminate H].
Qed.

Lemma count_nested_accumulated occs :
  ∀ rv (acc : string → Z),
    (∀ k, counter_get rv k = acc k) →
    (∀ occ, occ ∈ representatives occs →
       counter_lookup (inside occ) (name (component occ)) = None) →
    ∀ k, counter_get (count_nested count_children occs rv) k
         = fold_left merge_rule (representatives occs) acc k.
Proof.
  unfold count_nested, representatives.
  induction occs as [|o occs IH]; intros rv acc Hacc Hsafe k; [apply Hacc|].
  cbn [fold_left]. rewrite filter_cons in Hsafe |- *. cbv beta in Hsafe |- *.
  destruct (endswith (occ_name o) ":1") eqn:Hrep.
  - rewrite decide_True in Hsafe |- * by done. cbn [fold_left].
    apply IH.
    + intros k'. rewrite add_child_inside by (apply Hsafe; left).
      unfold merge_rule. fold (inside o). by rewrite !Hacc.
    + intros occ Hocc. apply Hsafe. by right.
  - rewrite decide_False in Hsafe |- * by done. by apply IH.
Qed.

Lemma not_self_nested_spec occs :
  not_self_nested occs = true →
  ∀ occ, occ ∈ representatives occs →
    counter_lookup (inside occ) (name (component occ)) = None.
Proof.
  unfold not_self_nested. rewrite forallb_forall. intros Hall occ Hocc.
  apply list_elem_of_In in Hocc.
  specialize (Hall occ Hocc). by apply bool_decide_eq_true in Hall.
Qed.

(** C10, as amended.  The count of a component is the number of its
    occurrences in the list, to which the sub-trees of the occurrences named
    [...:1] are merged one after the other in the order of the list: each
    adds the count inside its sub-tree multiplied by the count that the
    sub-tree's own component has accumulated by then, its direct occurrences
    and what the sub-trees merged before have added to it.  This holds when
    no component is counted inside the sub-tree of its own [...:1]
    occurrence.  The accumulated count is the number of direct occurrences,
    and the multiplier the direct one, when no component with a [...:1]
    occurrence in the list is counted inside any [...:1] sub-tree of the
    list.  What lies below an occurrence not named [...:1] is never looked
    at: two lists that agree once those sub-trees are cut off have the same
    counts. *)
Theorem recursiveCountOccurences_multiplies (occs : list Occurrence) :
  (not_self_nested occs = true →
   ∀ k, counter_get (recursiveCountOccurences occs) k
        = multiplied_accumulated occs k)
  ∧ (parents_not_nested occs = true →
     ∀ k, counter_get (recursiveCountOccurences occs) k
          = multiplied_by_direct occs k)
  ∧ (∀ occs', map prune occs' = map prune occs →
       recursiveCountOccurences occs' = recursiveCountOccurences occs).
Proof.
  split; [|split].
  - intros Hsafe k. unfold recursiveCountOccurences, multiplied_accumulated.
    apply count_nested_accumulated; [apply count_direct_get|].
    by apply not_self_nested_spec.
  - intros Hsafe k. unfold recursiveCountOccurences at 1, multiplied_by_direct.
    rewrite count_nested_get by by apply parents_not_nested_spec.
    rewrite count_direct_get. f_equal.
    apply contributions_ext. intros occ _. apply count_direct_get.
  - intros occs' Heq.
    rewrite <- (recursiveCountOccurences_prune occs'), Heq.
    apply recursiveCountOccurences_prune.
Qed.

End CountFormula.

(** ** The configuration file *)

Lemma to_dict_raises (self : ComponentExportConfig) :
  to_dict self = Raise AttributeError.
Proof. reflexivity. Qed.

Section ConfigFacts.

Variable int_of_str : string → option Z.
Variable sorted_by_name : list json → result (list json).

Lemma emit_file_raises filename config w :
  components config ≠ [] →
  emit_file sorted_by_name filename config w = (w, Raise AttributeError).
Proof.
  unfold emit_file, bind, lift.
  destruct (components config) as [|self rest]; [done|]. intros _.
  cbn [map_result]. by rewrite to_dict_raises.
Qed.

Lemma parse_component_listed counts item :
  accepted_component counts item = true →
  ∃ cmp, parse_component counts item = Ok cmp ∧ listed counts item cmp.
Proof.
  destruct item as [| | | | | |kw]; try done.
  cbn [accepted_component]. rewrite andb_true_iff. intros [Hdom Hname].
  cbn [parse_component]. rewrite Hdom. fold (specified kw "name").
  fold (specified kw "to"). fold (specified kw "up").
  fold (specified kw "fmt"). fold (specified kw "count").
  destruct counts as [cs|]; cbn [cfg_count cfg_name].
  - destruct (is_none (specified kw "count")) eqn:Hcount.
    + destruct (specified kw "name") eqn:Hn; try done;
        (eexists; split; [reflexivity|]); exists kw; cbn;
        rewrite Hcount, ?Hn; done.
    + eexists; split; [reflexivity|]. exists kw. cbn. by rewrite Hcount.
  - eexists; split; [reflexivity|]. exists kw. cbn.
    by destruct (is_none (specified kw "count")) eqn:Hcount;
      [destruct (specified kw "count")|].
Qed.

Lemma parse_component_rejected counts item :
  accepted_component counts item = false →
  parse_component counts item = Raise TypeError.
Proof.
  destruct item as [| | | | | |kw]; try done.
  cbn [accepted_component parse_component]. fold (specified kw "name").
  fold (specified kw "count").
  destruct (bool_decide (dom kw ⊆ component_fields)); [|done]. cbn [andb].
  destruct counts as [cs|]; [|done]. cbn [cfg_count cfg_name].
  destruct (is_none (specified kw "count")); [|done].
  by destruct (specified kw "name").
Qed.

Lemma parse_component_TypeError counts item e :
  parse_component counts item = Raise e → e = TypeError.
Proof.
  destruct (accepted_component counts item) eqn:Hacc.
  - destruct (parse_component_listed counts item Hacc) as (cmp & -> & _). done.
  - rewrite parse_component_rejected by done. congruence.
Qed.

Lemma map_parse_component counts items :
  Forall (fun item => accepted_component counts item = true) items →
  ∃ cmps, map_result (parse_component counts) items = Ok cmps
          ∧ Forall2 (listed counts) items cmps.
Proof.
  induction 1 as [|item items Hitem _ (cmps & Hcmps & Hall)].
  - exists []. split; [done|constructor].
  - destruct (parse_component_listed counts item Hitem) as (cmp & Hcmp & Hlisted).
    exists (cmp :: cmps). cbn [map_result]. rewrite Hcmp, Hcmps.
    split; [done|by constructor].
Qed.

Lemma map_result_parse_raises counts items item e :
  item ∈ items →
  parse_component counts item = Raise e →
  map_result (parse_component counts) items = Raise TypeError.
Proof.
  intros Hin Hitem. induction items as [|x items IH]; [by apply not_elem_of_nil in Hin|].
  cbn [map_result].
  destruct (parse_component counts x) as [cmp|e'] eqn:Hx.
  - apply elem_of_cons in Hin as [->|Hin]; [congruence|].
    cbn [rbind]. by rewrite (IH Hin).
  - cbn [rbind]. f_equal. by eapply parse_component_TypeError.
Qed.

(** C9, as amended.  [parse_file], given a file that holds a JSON object,
    accepts the files whose ['v'] converts to the integer 1 under [int()]:
    when ['v'] is absent, or [int(v)] is another integer, the assertion
    fails; when [int(v)] itself raises, that exception comes out; in both
    cases no configuration is returned.  When [int(v)] is 1 (for the number
    1, and also for ["1"], [1.5] or [true]) and the file lists its
    components in a list, it returns a configuration exactly when every
    listed component is a dict over the five field names and, should a
    [counts] dictionary be given and the component have no count, has a name
    that is not a list or a dict; otherwise it raises [TypeError].  The
    configuration has the file's format and the listed components, a
    component's count being the [counts] dictionary's value for its name (or
    1) only when the file gives none. *)
Theorem parse_file_version (w : World) (filename : string)
    (counts : option counter) (f : file) (d : gmap string json) :
  fs w !! filename = Some f →
  content f = JsonText (JDict d) →
  let version := py_int int_of_str (default (JInt 0) (d !! "v")) in
  (d !! "v" = None → parse_file int_of_str w filename counts = Raise AssertionError)
  ∧ (∀ z, version = Ok z → z ≠ 1 →
       parse_file int_of_str w filename counts = Raise AssertionError)
  ∧ (∀ e, version = Raise e → parse_file int_of_str w filename counts = Raise e)
  ∧ (∀ items,
       version = Ok 1 →
       default (JList []) (d !! "components") = JList items →
       (Forall (fun item => accepted_component counts item = true) items →
        ∃ cfg,
          parse_file int_of_str w filename counts = Ok cfg
          ∧ fmt cfg = default JNull (d !! "fmt")
          ∧ modified cfg = Some (mtime f)
          ∧ Forall2 (listed counts) items (components cfg))
       ∧ (¬ Forall (fun item => accepted_component counts item = true) items →
          parse_file int_of_str w filename counts = Raise TypeError)).
Proof.
  intros Hfile Hcontent version.
  unfold parse_file. rewrite Hfile, Hcontent. cbn [dict_get rbind].
  fold version. repeat split.
  - intros Hv. unfold version. by rewrite Hv.
  - intros z Hz Hne. rewrite Hz. cbn [rbind].
    by destruct (Z.eqb_spec z 1).
  - intros e He. by rewrite He.
  - intros Hwf. rewrite H, H0. cbn.
    destruct (map_parse_component counts items Hwf) as (cmps & -> & Hall).
    cbn. eexists. split; [reflexivity|]. by cbn.
  - intros Hbad. rewrite H, H0. cbn.
    apply not_Forall_Exists in Hbad; [|intros item; apply _].
    apply Exists_exists in Hbad as (item & Hin & Hitem).
    apply not_true_is_false in Hitem.
    by rewrite (map_result_parse_raises counts items item TypeError Hin
                  (parse_component_rejected counts item Hitem)).
Qed.

End ConfigFacts.

(** ** The export run *)

(** *** The timeline *)

Lemma fresh_feature_above (features : list (string * nat)) p :
  p ∈ features → (p.2 < fresh_feature features)%nat.
Proof.
  unfold fresh_feature. induction 1 as [p l|p q l _ IH]; simpl; lia.
Qed.

Lemma delete_added_feature (features : list (string * nat)) (c : string) :
  filter (fun p => p.2 ≠ fresh_feature features)
    ((c, fresh_feature features) :: features)
  = features.
Proof.
  rewrite filter_cons_False by (simpl; intros Hne; by apply Hne).
  assert (Hall : Forall (fun p => p.2 ≠ fresh_feature features) features).
  { apply Forall_forall. intros p Hp. apply fresh_feature_above in Hp. lia. }
  generalize dependent (fresh_feature features). intros n Hall.
  induction Hall as [|p l Hp _ IH]; [done|].
  by rewrite filter_cons_True, IH.
Qed.

(** *** Histories *)

Lemma bracketed_app allowed (recent older : list event) :
  bracketed allowed recent → bracketed allowed older →
  bracketed allowed (recent ++ older).
Proof.
  intros Hrecent Holder.
  induction Hrecent as [|e l Hadd Hdel _ IH|c b u p f l Hallowed _ IH]; simpl.
  - done.
  - by apply bracketed_other.
  - by apply bracketed_rotation.
Qed.

Lemma bracketed_mono (allowed allowed' : string → string → Prop) events :
  (∀ c u, allowed c u → allowed' c u) →
  bracketed allowed events → bracketed allowed' events.
Proof.
  intros Hsub. induction 1 as [|e l Hadd Hdel _ IH|c b u p f l Hallowed _ IH].
  - constructor.
  - by apply bracketed_other.
  - apply bracketed_rotation; [by apply Hsub|done].
Qed.

Lemma bracketed_adds allowed events c b u f :
  bracketed allowed events →
  MoveFeatureAdd c b u f ∈ events → allowed c u.
Proof.
  induction 1 as [|e l Hadd Hdel _ IH|c' b' u' p f' l Hallowed _ IH]; intros Hin.
  - by apply elem_of_nil in Hin.
  - apply elem_of_cons in Hin as [<-|Hin]; [by destruct (Hadd c b u f)|by apply IH].
  - repeat (apply elem_of_cons in Hin as [Heq|Hin]; [try discriminate Heq|]).
    + by injection Heq as -> -> -> ->.
    + by apply IH.
Qed.

Lemma bracketed_single allowed e :
  timeline_event e = false → bracketed allowed [e].
Proof.
  intros He. apply bracketed_other; [| |constructor]; by intros; destruct e.
Qed.

Lemma same_host_refl (w : World) : same_host w w.
Proof. by repeat split. Qed.

Lemma same_host_trans (w1 w2 w3 : World) :
  same_host w1 w2 → same_host w2 w3 → same_host w1 w3.
Proof.
  intros (H1 & H2 & H3 & H4 & H5) (H1' & H2' & H3' & H4' & H5').
  repeat split; congruence.
Qed.

Section Tidy.

Context {A B : Type} (allowed : string → string → Prop).

Lemma tidy_pure (f : World → result A) : tidy allowed (fun w => (w, f w)).
Proof.
  intros w w' r [= <- <-]. split; [apply same_host_refl|].
  destruct (f w); [|done]. split; [done|]. exists []. split; [done|constructor].
Qed.

Lemma tidy_bind (m : M A) (k : A → M B) :
  tidy allowed m → (∀ a, tidy allowed (k a)) → tidy allowed (bind m k).
Proof.
  intros Hm Hk w w' r. unfold bind.
  destruct (m w) as [w1 [a|e]] eqn:Hmw; intros Hrun.
  - destruct (Hm _ _ _ Hmw) as (Hhost1 & Hf & new1 & Ht1 & Hb1).
    destruct (Hk a _ _ _ Hrun) as (Hhost2 & Hres).
    split; [by eapply same_host_trans|].
    destruct r as [b|e]; [|done].
    destruct Hres as (Hf' & new2 & Ht2 & Hb2).
    split; [congruence|].
    exists (new2 ++ new1). split; [by rewrite Ht2, Ht1, app_assoc|].
    by apply bracketed_app.
  - injection Hrun as <- <-. split; [by apply (Hm _ _ _ Hmw)|done].
Qed.

End Tidy.

Section Still.

Context {A B : Type}.

Lemma still_pure (f : World → result A) : still (fun w => (w, f w)).
Proof.
  intros w w' r [= <- <-]. split; [done|]. exists []. split; [done|constructor].
Qed.

Lemma still_bind (m : M A) (k : A → M B) :
  still m → (∀ a, still (k a)) → still (bind m k).
Proof.
  intros Hm Hk w w' r. unfold bind.
  destruct (m w) as [w1 [a|e]] eqn:Hmw; intros Hrun.
  - destruct (Hm _ _ _ Hmw) as (Hf & new1 & Ht1 & Hq1).
    destruct (Hk a _ _ _ Hrun) as (Hf' & new2 & Ht2 & Hq2).
    split; [congruence|].
    exists (new2 ++ new1). split; [by rewrite Ht2, Ht1, app_assoc|].
    by apply Forall_app.
  - injection Hrun as <- <-. by apply (Hm _ _ _ Hmw).
Qed.

End Still.

Lemma still_emit e : timeline_event e = false → still (emit e).
Proof.
  intros He w w' r [= <- <-]. split; [done|].
  exists [e]. split; [done|by constructor].
Qed.

Lemma still_unlink path : still (unlink path).
Proof.
  intros w w' r. unfold unlink. destruct (fs w !! path).
  - intros [= <- <-]. split; [done|].
    exists [Unlink path]. split; [done|by constructor].
  - by apply (still_pure (fun _ => Raise FileNotFoundError)).
Qed.

Section ExportFacts.

Variable joinpath : string → string → string.
Variable py_format : json → string.

Implicit Types (w : World) (cfg : ComponentExportConfig) (cmp : Component).

Lemma tidy_emit {allowed} e :
  timeline_event e = false → tidy allowed (emit e).
Proof.
  intros He w w' r [= <- <-]. split; [by repeat split|]. split; [done|].
  exists [e]. split; [done|by apply bracketed_single].
Qed.

Lemma tidy_unlink {allowed} path : tidy allowed (unlink path).
Proof.
  intros w w' r. unfold unlink. destruct (fs w !! path).
  - intros [= <- <-]. split; [by repeat split|]. split; [done|].
    exists [Unlink path]. split; [done|by apply bracketed_single].
  - by apply (tidy_pure allowed (fun _ => Raise FileNotFoundError)).
Qed.

Lemma tidy_write_text {allowed} path j : tidy allowed (write_text path j).
Proof.
  intros w w' r [= <- <-]. split; [by repeat split|]. split; [done|].
  exists [WriteText path j]. split; [done|by apply bracketed_single].
Qed.

Lemma tidy_read_json {allowed} path : tidy allowed (read_json path).
Proof.
  intros w w' r. unfold read_json.
  destruct (fs w !! path) as [f|]; [destruct (content f)|];
    intros [= <- <-]; (split; [apply same_host_refl|]); try done.
  split; [done|]. exists []. split; [done|constructor].
Qed.

(** Everything [rotate_and_export] can do.  It changes no file but the
    target and writes no text file.  When it returns, the orientation is
    valid, the target is there, the timeline is as it was, and the events
    are those of one mesh export, with the move feature added before and
    deleted after when the component is rotated.  When it raises, the
    assertion on the orientation has failed and nothing has happened, or the
    host has refused to make the directory or to export the mesh. *)
Lemma rotate_and_export_outcome cfg cmp filepath w w' r :
  rotate_and_export cfg cmp filepath w = (w', r) →
  same_host w w'
  ∧ (∀ path, path ≠ filepath → fs w' !! path = fs w !! path)
  ∧ ∃ new,
      trace w' = new ++ trace w
      ∧ Forall no_write new
      ∧ (needs_rotation cfg = false →
         moveFeatures w' = moveFeatures w
         ∧ Forall (fun e => timeline_event e = false) new)
      ∧ match r with
        | Ok _ =>
            valid_up cfg = true
            ∧ moveFeatures w' = moveFeatures w
            ∧ is_Some (fs w' !! filepath)
            ∧ (needs_rotation cfg = false
               ∧ new = [ExportSTL (name cmp) filepath; MkdirParent filepath]
               ∨ ∃ up feature,
                   needs_rotation cfg = true
                   ∧ cfg_up cfg = JStr up
                   ∧ new = [MoveFeatureDelete feature;
                            ExportSTL (name cmp) filepath; MkdirParent filepath;
                            MoveFeatureAdd (name cmp) (bRepBodies cmp) up feature])
        | Raise e =>
            exported_meshes new = []
            ∧ (valid_up cfg = false ∧ e = AssertionError ∧ w' = w
               ∨ valid_up cfg = true ∧ ∃ history, host_error w history = Some e)
        end.
Proof.
  unfold rotate_and_export, bind, ret, raise, mkdir_parent, export_stl,
    add_move_feature, delete_move_feature, needs_rotation, valid_up.
  assert (Hz : bool_decide ("z" ∈ VALID_ORIENTATIONS) = true) by done.
  destruct (cfg_up cfg) as [| | | |up| |] eqn:Hup; cbn [is_none eq_str negb andb];
    try (intros [= <- <-]; split; [apply same_host_refl|]; split; [done|];
         exists []; split; [done|]; split; [constructor|];
         split; [done|]; split; [done|by left]).
  - (* no orientation *)
    destruct (host_error w (trace w)) as [e|] eqn:He1.
    { intros [= <- <-]. split; [apply same_host_refl|]. split; [done|].
      exists []. split; [done|]. split; [constructor|].
      split; [by split; [|constructor]|]. split; [done|].
        right. split; [done|by eexists]. }
    cbn [add_event host_error trace].
    destruct (host_error w (MkdirParent filepath :: trace w)) as [e|] eqn:He2;
      intros [= <- <-]; (split; [by repeat split|]).
    + split; [done|]. exists [MkdirParent filepath]. split; [done|].
      split; [by repeat constructor|]. split; [by split; [|repeat constructor]|].
      split; [done|]. right. split; [done|by eexists].
    + split; [intros path Hpath; cbn; by apply lookup_insert_ne|].
      exists [ExportSTL (name cmp) filepath; MkdirParent filepath].
      split; [done|]. split; [by repeat constructor|].
      split; [by split; [|repeat constructor]|].
      split; [done|]. split; [done|].
      split; [cbn; rewrite lookup_insert_eq; by eexists|by left].
  - (* an orientation *)
    destruct (String.eqb_spec up "z") as [->|Hne]; cbn [negb].
    + rewrite Hz.
      destruct (host_error w (trace w)) as [e|] eqn:He1.
      { intros [= <- <-]. split; [apply same_host_refl|]. split; [done|].
        exists []. split; [done|]. split; [constructor|].
        split; [by split; [|constructor]|]. split; [done|].
        right. split; [done|by eexists]. }
      cbn [add_event host_error trace].
      destruct (host_error w (MkdirParent filepath :: trace w)) as [e|] eqn:He2;
        intros [= <- <-]; (split; [by repeat split|]).
      * split; [done|]. exists [MkdirParent filepath]. split; [done|].
        split; [by repeat constructor|]. split; [by split; [|repeat constructor]|].
        split; [done|]. right. split; [done|by eexists].
      * split; [intros path Hpath; cbn; by apply lookup_insert_ne|].
        exists [ExportSTL (name cmp) filepath; MkdirParent filepath].
        split; [done|]. split; [by repeat constructor|].
        split; [by split; [|repeat constructor]|].
        split; [done|]. split; [done|].
        split; [cbn; rewrite lookup_insert_eq; by eexists|by left].
    + clear Hz. destruct (bool_decide (up ∈ VALID_ORIENTATIONS)) eqn:Hvalid.
      * cbn [add_event set_moveFeatures host_error trace].
        set (feature := fresh_feature (moveFeatures w)).
        set (added := MoveFeatureAdd (name cmp) (bRepBodies cmp) up feature).
        cbv beta iota zeta. cbn [add_event set_moveFeatures host_error trace].
        destruct (host_error w (added :: trace w)) as [e|] eqn:He1.
        { intros [= <- <-]. split; [by repeat split|]. split; [done|].
          exists [added]. split; [done|]. split; [by repeat constructor|].
          split; [done|]. split; [done|]. right. split; [done|by eexists]. }
        cbn [add_event set_moveFeatures host_error trace].
        destruct (host_error w (MkdirParent filepath :: added :: trace w))
          as [e|] eqn:He2; intros [= <- <-]; (split; [by repeat split|]).
        -- split; [done|]. exists [MkdirParent filepath; added]. split; [done|].
           split; [by repeat constructor|]. split; [done|]. split; [done|].
           right. split; [done|by eexists].
        -- split; [intros path Hpath; cbn; by apply lookup_insert_ne|].
           exists [MoveFeatureDelete feature; ExportSTL (name cmp) filepath;
                   MkdirParent filepath; added].
           split; [done|]. split; [by repeat constructor|]. split; [done|].
           split; [done|]. split; [cbn; apply delete_added_feature|].
           split; [cbn; rewrite lookup_insert_eq; by eexists|].
           right. by exists up, feature.
      * intros [= <- <-]. split; [apply same_host_refl|]. split; [done|].
        exists []. split; [done|]. split; [constructor|].
        split; [done|]. split; [done|by left].
Qed.

Lemma tidy_rotate_and_export cfg cmp filepath :
  tidy (fun c u => c = name cmp ∧ cfg_up cfg = JStr u ∧ needs_rotation cfg = true)
    (rotate_and_export cfg cmp filepath).
Proof.
  intros w w' r Hrun.
  destruct (rotate_and_export_outcome _ _ _ _ _ _ Hrun)
    as (Hhost & _ & new & Htrace & _ & _ & Hcase).
  split; [done|]. destruct r as [u|e]; [|done].
  destruct Hcase as (_ & Hfeatures & _ & [[_ ->]|(up & feature & Hrot & Hup & ->)]).
  - split; [done|]. eexists. split; [done|].
    apply bracketed_other; [done|done|]. by apply bracketed_single.
  - split; [done|]. eexists. split; [done|].
    apply bracketed_rotation; [done|constructor].
Qed.

Lemma still_rotate_and_export cfg cmp filepath :
  needs_rotation cfg = false → still (rotate_and_export cfg cmp filepath).
Proof.
  intros Hrot w w' r Hrun.
  destruct (rotate_and_export_outcome _ _ _ _ _ _ Hrun)
    as (_ & _ & new & Htrace & _ & Hstill & _).
  destruct (Hstill Hrot) as [Hfeatures Hquiet].
  split; [done|]. by exists new.
Qed.

Ltac tidy_step :=
  first
    [ apply tidy_rotate_and_export
    | apply tidy_emit; reflexivity
    | apply tidy_unlink
    | apply tidy_write_text
    | apply tidy_read_json
    | apply tidy_bind; [|intros ?]
    | apply tidy_pure
    | match goal with
      | |- tidy _ (if ?b then _ else _) => destruct b
      | |- tidy _ (match ?x with _ => _ end) => destruct x
      end ].

Lemma tidy_remove_renamed {allowed} output_dir old_version filepath :
  tidy allowed (remove_renamed joinpath output_dir old_version filepath).
Proof. unfold remove_renamed. repeat tidy_step. Qed.

Lemma tidy_export_one main_cfg output_dir i cfg cmp version_control :
  tidy (fun c u => c = name cmp ∧ cfg_up cfg = JStr u ∧ needs_rotation cfg = true)
    (export_one joinpath py_format main_cfg output_dir i cfg cmp version_control).
Proof.
  unfold export_one.
  repeat first [apply tidy_remove_renamed | tidy_step].
Qed.

Ltac still_step :=
  first
    [ apply still_emit; reflexivity
    | apply still_unlink
    | apply still_bind; [|intros ?]
    | apply still_pure
    | match goal with
      | |- still (if ?b then _ else _) => destruct b
      | |- still (match ?x with _ => _ end) => destruct x
      end ].

Lemma still_remove_renamed output_dir old_version filepath :
  still (remove_renamed joinpath output_dir old_version filepath).
Proof. unfold remove_renamed. repeat still_step. Qed.

Lemma still_export_one main_cfg output_dir i cfg cmp version_control :
  needs_rotation cfg = false →
  still (export_one joinpath py_format main_cfg output_dir i cfg cmp
           version_control).
Proof.
  intros Hrot. unfold export_one.
  repeat first
    [ apply still_remove_renamed
    | apply still_rotate_and_export; exact Hrot
    | still_step ].
Qed.

(** *** One iteration, step by step *)

Lemma ltb_empty (s : string) : String.ltb s "" = false.
Proof. by destruct s. Qed.

Lemma eq_str_true (v : json) (s : string) : eq_str v s = true ↔ v = JStr s.
Proof.
  destruct v; simpl; try (split; [discriminate|discriminate]).
  rewrite String.eqb_eq. split; [by intros ->|by intros [= ->]].
Qed.

(** The [if] that skips holds exactly when the old entry records the name,
    the revision and a time stamp before the configuration's. *)
Lemma unchanged_true main_cfg old_version cname revision there :
  unchanged main_cfg old_version cname revision there = Ok true
  ↔ ∃ e changed t,
      old_version = JDict e
      ∧ e !! "component" = Some (JStr cname)
      ∧ e !! "revisionId" = Some (JStr revision)
      ∧ there = true
      ∧ modified main_cfg = Some t
      ∧ e !! "changed" = Some (JStr changed)
      ∧ String.ltb changed t = true.
Proof.
  unfold unchanged, getitem. split.
  - destruct old_version as [| | | | | |e]; try discriminate. cbn [rbind].
    destruct (e !! "component") as [c|] eqn:Hc; [|discriminate]. cbn [rbind].
    destruct (eq_str c cname) eqn:Hcn; [|discriminate].
    apply eq_str_true in Hcn as ->.
    destruct (e !! "revisionId") as [r|] eqn:Hr; [|discriminate]. cbn [rbind].
    destruct (eq_str r revision) eqn:Hrn; [|discriminate].
    apply eq_str_true in Hrn as ->.
    destruct there; [|discriminate].
    destruct (modified main_cfg) as [t|]; [|discriminate].
    destruct (String.eqb t ""); [discriminate|]. cbn [negb].
    destruct (e !! "changed") as [ch|] eqn:Hch; [|discriminate]. cbn [rbind].
    destruct ch as [| | | |changed| |]; try discriminate.
    cbn [lt_str]. intros [= Hlt]. by exists e, changed, t.
  - intros (e & changed & t & -> & Hc & Hr & -> & Ht & Hch & Hlt).
    rewrite Hc. cbn [rbind]. rewrite (proj2 (eq_str_true _ _) eq_refl).
    rewrite Hr. cbn [rbind]. rewrite (proj2 (eq_str_true _ _) eq_refl).
    rewrite Ht. destruct (String.eqb_spec t "") as [->|_].
    + by rewrite ltb_empty in Hlt.
    + cbn [negb]. rewrite Hch. cbn. by rewrite Hlt.
Qed.

(** [export_one], with the sequencing spelled out. *)
Lemma export_one_unfold main_cfg output_dir i cfg cmp version_control w :
  export_one joinpath py_format main_cfg output_dir i cfg cmp version_control w
  = let w1 := progressed i w in
    match file_names py_format main_cfg cfg with
    | Raise e => (w1, Raise e)
    | Ok names =>
        let filepath := joinpath output_dir names.2 in
        match dict_get version_control names.1 JNull with
        | Raise e => (w1, Raise e)
        | Ok old_version =>
            match
              (if is_none old_version then Ok false
               else unchanged main_cfg old_version (name cmp)
                      (revision_of w1 (trace w1) cmp)
                      (bool_decide (is_Some (fs w1 !! filepath))))
            with
            | Raise e => (w1, Raise e)
            | Ok true => (w1, Ok (version_control, Continue))
            | Ok false =>
                match
                  (if is_none old_version then (w1, Ok tt)
                   else remove_renamed joinpath output_dir old_version filepath w1)
                with
                | (w2, Raise e) => (w2, Raise e)
                | (w2, Ok _) =>
                    match
                      setitem version_control names.1
                        (manifest_entry (name cmp) filepath
                           (revision_of w2 (trace w2) cmp) (root_comp_name w2)
                           (clock w2 (trace w2)))
                    with
                    | Raise e => (w2, Raise e)
                    | Ok version_control' =>
                        match rotate_and_export cfg cmp filepath w2 with
                        | (w3, Raise e) => (w3, Raise e)
                        | (w3, Ok _) =>
                            if cancel_pressed w3 (trace w3)
                            then (w3, Ok (version_control', Break))
                            else (add_event (ProgressValue (S i)) w3,
                                  Ok (version_control', EndOfBody))
                        end
                    end
                end
            end
        end
    end.
Proof.
  unfold export_one, bind at 1 2 3 4, emit at 1 2, lift at 1 2. cbn zeta.
  fold (progressed i w).
  destruct (file_names py_format main_cfg cfg) as [names|e]; [|done].
  destruct (dict_get version_control names.1 JNull) as [old_version|e]; [|done].
  unfold bind at 1.
  destruct (is_none old_version) eqn:Hnone; cbn [negb].
  - unfold ret at 1. unfold bind, revisionId, now, lift, wasCancelled, emit, ret.
    destruct (setitem _ _ _); [|done].
    destruct (rotate_and_export _ _ _ _) as [w3 [[]|e]]; [|done].
    by destruct (cancel_pressed w3 (trace w3)).
  - unfold bind at 1 2 3, revisionId at 1, path_exists at 1, lift at 1.
    destruct (unchanged _ _ _ _ _) as [[|]|e]; [done| |done].
    unfold bind at 1.
    destruct (remove_renamed _ _ _ _ _) as [w2 [[]|e]]; [|done].
    unfold ret at 1. unfold bind, revisionId, now, lift, wasCancelled, emit, ret.
    destruct (setitem _ _ _); [|done].
    destruct (rotate_and_export _ _ _ _) as [w3 [[]|e]]; [|done].
    by destruct (cancel_pressed w3 (trace w3)).
Qed.

Lemma remove_renamed_inv output_dir old_version filepath w w2 u :
  remove_renamed joinpath output_dir old_version filepath w = (w2, Ok u) →
  w2 = w ∨ ∃ p, w2 = add_event (Unlink p) (set_fs (delete p) w).
Proof.
  unfold remove_renamed, bind, lift, path_exists, unlink, ret, raise.
  destruct (getitem old_version "filename") as [recorded|]; [|discriminate].
  destruct (eq_str recorded filepath); cbn [negb]; [intros [= <-]; by left|].
  destruct recorded as [| | | |old| |]; try discriminate.
  case_bool_decide as Hthere.
  - destruct Hthere as [f ->]. intros [= <-]. right. by eexists.
  - intros [= <-]. by left.
Qed.

Lemma rotate_and_export_bracket cfg cmp filepath w w3 u :
  rotate_and_export cfg cmp filepath w = (w3, Ok u) →
  ∃ bracket, trace w3 = bracket ++ trace w ∧ export_bracket cmp filepath bracket.
Proof.
  intros Hrun.
  destruct (rotate_and_export_outcome _ _ _ _ _ _ Hrun)
    as (_ & _ & new & Htrace & _ & _ & _ & _ & _ & Hcase).
  exists new. split; [done|].
  destruct Hcase as [[_ ->]|(up & feature & _ & _ & ->)]; [by left|right].
  by exists up, feature.
Qed.

Lemma export_bracket_meshes cmp filepath bracket :
  export_bracket cmp filepath bracket →
  exported_meshes bracket = [(name cmp, filepath)]
  ∧ progress_values bracket = []
  ∧ Forall no_write bracket.
Proof.
  intros [->|(up & feature & ->)]; by repeat constructor.
Qed.

Lemma rotate_and_export_inv cfg cmp filepath w w3 u :
  rotate_and_export cfg cmp filepath w = (w3, Ok u) →
  valid_up cfg = true
  ∧ is_Some (fs w3 !! filepath)
  ∧ same_host w w3
  ∧ ∃ new, trace w3 = new ++ trace w
           ∧ exported_meshes new = [(name cmp, filepath)]
           ∧ progress_values new = [].
Proof.
  intros Hrun.
  destruct (rotate_and_export_bracket _ _ _ _ _ _ Hrun) as (new & Htrace & Hnew).
  destruct (rotate_and_export_outcome _ _ _ _ _ _ Hrun)
    as (Hhost & _ & _ & _ & _ & _ & Hvalid & _ & Hfile & _).
  destruct (export_bracket_meshes _ _ _ Hnew) as (Hstl & Hprog & _).
  repeat (split; [done|]). by exists new.
Qed.

Lemma rotate_and_export_valid cfg cmp filepath w :
  valid_up cfg = true →
  host_obliging w →
  ∃ w3, rotate_and_export cfg cmp filepath w = (w3, Ok tt).
Proof.
  intros Hvalid Hhost.
  destruct (rotate_and_export cfg cmp filepath w) as [w3 [[]|e]] eqn:Hrun;
    [by eexists|].
  destruct (rotate_and_export_outcome _ _ _ _ _ _ Hrun)
    as (_ & _ & _ & _ & _ & _ & _ & [(Hno & _)|(_ & history & He)]).
  - congruence.
  - by rewrite Hhost in He.
Qed.


(** What [unchanged] is asked in an iteration amounts to [skip_condition]. *)
Lemma unchanged_skip_condition main_cfg m file_key filepath cmp w :
  (is_none (default JNull (m !! file_key)) = false
   ∧ unchanged main_cfg (default JNull (m !! file_key)) (name cmp)
       (revision_of w (trace w) cmp) (bool_decide (is_Some (fs w !! filepath)))
     = Ok true)
  ↔ skip_condition main_cfg w m file_key filepath cmp.
Proof.
  rewrite unchanged_true. unfold skip_condition. split.
  - intros (Hnone & e & changed & t & Hold & Hc & Hr & Hthere & Ht & Hch & Hlt).
    exists e, changed, t. apply bool_decide_eq_true in Hthere.
    destruct (m !! file_key) as [v|]; simpl in Hold; [|discriminate].
    by subst v.
  - intros (e & changed & t & Hold & Hc & Hr & Hthere & Ht & Hch & Hlt).
    rewrite Hold. split; [done|]. exists e, changed, t.
    by rewrite bool_decide_eq_true_2.
Qed.

(** The part of an iteration after the manifest entry is written. *)
Lemma export_tail_inv cfg cmp filepath i w w2 w' (vc vc' : json) ending pre :
  same_host w w2 →
  trace w2 = pre ++ trace w →
  exported_meshes pre = [] →
  progress_values pre = [i] →
  match rotate_and_export cfg cmp filepath w2 with
  | (w3, Raise e) => (w3, Raise e)
  | (w3, Ok _) =>
      if cancel_pressed w3 (trace w3) then (w3, Ok (vc, Break))
      else (add_event (ProgressValue (S i)) w3, Ok (vc, EndOfBody))
  end = (w', Ok (vc', ending)) →
  vc' = vc
  ∧ ending ≠ Continue
  ∧ valid_up cfg = true
  ∧ is_Some (fs w' !! filepath)
  ∧ ∃ new,
      trace w' = new ++ trace w
      ∧ exported_meshes new = [(name cmp, filepath)]
      ∧ progress_values new
        = match ending with EndOfBody => [S i; i] | _ => [i] end
      ∧ match ending with
        | EndOfBody => cancel_pressed w (tail (trace w')) = false
        | _ => cancel_pressed w (trace w') = true
        end.
Proof.
  intros (_ & _ & Hcancel2 & _) Htrace2 Hstl2 Hprog2.
  destruct (rotate_and_export cfg cmp filepath w2) as [w3 [[]|e]] eqn:Hrot;
    [|discriminate].
  apply rotate_and_export_inv in Hrot
    as (Hvalid & Hfile & (_ & _ & Hcancel3 & _) & new & Htrace & Hstl & Hprog).
  assert (Hnew : trace w3 = (new ++ pre) ++ trace w)
    by by rewrite Htrace, Htrace2, app_assoc.
  assert (Hmeshes : exported_meshes (new ++ pre) = [(name cmp, filepath)]).
  { unfold exported_meshes in *. by rewrite omap_app, Hstl, Hstl2. }
  assert (Hvalues : progress_values (new ++ pre) = [i]).
  { unfold progress_values in *. by rewrite omap_app, Hprog, Hprog2. }
  destruct (cancel_pressed w3 (trace w3)) eqn:Hcancel.
  - intros [= <- <- <-]. repeat (split; [done|]).
    exists (new ++ pre). repeat (split; [done|]). congruence.
  - intros [= <- <- <-]. repeat (split; [done|]).
    exists (ProgressValue (S i) :: new ++ pre). cbn [add_event trace tail].
    split; [by rewrite Hnew|]. split; [done|]. split; [cbn; by f_equal|].
    congruence.
Qed.

(** How an iteration that returns has gone. *)
Lemma export_one_Ok_inv main_cfg output_dir i cfg cmp version_control w w'
    version_control' ending :
  export_one joinpath py_format main_cfg output_dir i cfg cmp version_control w
  = (w', Ok (version_control', ending)) →
  ∃ file_key file_name m,
    file_names py_format main_cfg cfg = Ok (file_key, file_name)
    ∧ version_control = JDict m
    ∧ let filepath := joinpath output_dir file_name in
      match ending with
      | Continue =>
          skip_condition main_cfg (progressed i w) m file_key filepath cmp
          ∧ w' = progressed i w
          ∧ version_control' = version_control
      | Break | EndOfBody =>
          ¬ skip_condition main_cfg (progressed i w) m file_key filepath cmp
          ∧ valid_up cfg = true
          ∧ is_Some (fs w' !! filepath)
          ∧ ∃ revision changed new,
              version_control'
              = JDict (<[file_key := manifest_entry (name cmp) filepath revision
                                       (root_comp_name w) changed]> m)
              ∧ trace w' = new ++ trace w
              ∧ exported_meshes new = [(name cmp, filepath)]
              ∧ progress_values new
                = match ending with EndOfBody => [S i; i] | _ => [i] end
              ∧ match ending with
                | EndOfBody =>
                    cancel_pressed w (tail (trace w')) = false
                | _ => cancel_pressed w (trace w') = true
                end
      end.
Proof.
  rewrite export_one_unfold. cbn zeta.
  destruct (file_names py_format main_cfg cfg) as [[file_key file_name]|e];
    [|discriminate].
  cbn [fst snd].
  destruct version_control as [| | | | | |m]; try discriminate.
  cbn [dict_get setitem]. set (filepath := joinpath output_dir file_name).
  set (w1 := progressed i w). set (old := default JNull (m !! file_key)).
  pose proof (unchanged_skip_condition main_cfg m file_key filepath cmp w1) as Hskip.
  fold old in Hskip.
  assert (Hexport : ∀ w2 pre,
    ¬ skip_condition main_cfg w1 m file_key filepath cmp →
    same_host w w2 → trace w2 = pre ++ trace w →
    exported_meshes pre = [] → progress_values pre = [i] →
    match rotate_and_export cfg cmp filepath w2 with
    | (w3, Raise e) => (w3, Raise e)
    | (w3, Ok _) =>
        if cancel_pressed w3 (trace w3)
        then (w3, Ok (JDict (<[file_key := manifest_entry (name cmp) filepath
                 (revision_of w2 (trace w2) cmp) (root_comp_name w2)
                 (clock w2 (trace w2))]> m), Break))
        else (add_event (ProgressValue (S i)) w3,
              Ok (JDict (<[file_key := manifest_entry (name cmp) filepath
                 (revision_of w2 (trace w2) cmp) (root_comp_name w2)
                 (clock w2 (trace w2))]> m), EndOfBody))
    end = (w', Ok (version_control', ending)) →
    ∃ file_key0 file_name0 m0,
      Ok (file_key, file_name) = Ok (file_key0, file_name0) ∧ JDict m = JDict m0
      ∧ match ending with
        | Continue =>
            skip_condition main_cfg w1 m0 file_key0
              (joinpath output_dir file_name0) cmp
            ∧ w' = w1 ∧ version_control' = JDict m
        | _ =>
            ¬ skip_condition main_cfg w1 m0 file_key0
                (joinpath output_dir file_name0) cmp
            ∧ valid_up cfg = true
            ∧ is_Some (fs w' !! joinpath output_dir file_name0)
            ∧ ∃ revision changed new,
                version_control'
                = JDict (<[file_key0 := manifest_entry (name cmp)
                             (joinpath output_dir file_name0) revision
                             (root_comp_name w) changed]> m0)
                ∧ trace w' = new ++ trace w
                ∧ exported_meshes new = [(name cmp, joinpath output_dir file_name0)]
                ∧ progress_values new
                  = match ending with EndOfBody => [S i; i] | _ => [i] end
                ∧ match ending with
                  | EndOfBody => cancel_pressed w (tail (trace w')) = false
                  | _ => cancel_pressed w (trace w') = true
                  end
        end).
  { intros w2 pre Hno Hhost Htrace2 Hstl2 Hprog2 Hrun.
    eapply export_tail_inv in Hrun
      as (-> & Hending & Hvalid & Hfile & new & Hnew & Hstl & Hprog & Hcancel);
      [|done..].
    exists file_key, file_name, m. split; [done|]. split; [done|].
    destruct Hhost as (Hroot & _).
    destruct ending; [done| |];
      (repeat (split; [done|]); eexists _, _, new; rewrite Hroot; done). }
  destruct (is_none old) eqn:Hnone.
  - apply (Hexport w1 [ProgressMessage "Exporting component %v of %m"; ProgressValue i]);
      try done.
    rewrite <- Hskip. by intros [? _].
  - destruct (unchanged _ _ _ _ _) as [[|]|e] eqn:Hunchanged; [| |discriminate].
    + intros [= <- <- <-]. exists file_key, file_name, m.
      split; [done|]. split; [done|]. cbn zeta. split; [|done]. by apply Hskip.
    + destruct (remove_renamed _ _ _ _ _) as [w2 [[]|e]] eqn:Hrm; [|discriminate].
      assert (Hno : ¬ skip_condition main_cfg w1 m file_key filepath cmp).
      { rewrite <- Hskip. intros [_ Htrue]. congruence. }
      apply remove_renamed_inv in Hrm as [->|[p ->]].
      * by apply (Hexport w1
          [ProgressMessage "Exporting component %v of %m"; ProgressValue i]).
      * by apply (Hexport _
          [Unlink p; ProgressMessage "Exporting component %v of %m"; ProgressValue i]).
Qed.

(** An iteration that exports: the manifest entry is made from what the host
    reports just before the events of the mesh export. *)
Lemma export_one_written main_cfg output_dir i cfg cmp version_control w w'
    version_control' ending :
  export_one joinpath py_format main_cfg output_dir i cfg cmp version_control w
  = (w', Ok (version_control', ending)) →
  ending ≠ Continue →
  ∃ file_key file_name m pre bracket,
    file_names py_format main_cfg cfg = Ok (file_key, file_name)
    ∧ version_control = JDict m
    ∧ valid_up cfg = true
    ∧ exported_meshes pre = []
    ∧ progress_values pre = [i]
    ∧ export_bracket cmp (joinpath output_dir file_name) bracket
    ∧ trace w'
      = match ending with EndOfBody => [ProgressValue (S i)] | _ => [] end
        ++ bracket ++ pre ++ trace w
    ∧ cancel_pressed w (bracket ++ pre ++ trace w)
      = match ending with Break => true | _ => false end
    ∧ version_control'
      = JDict (<[file_key := manifest_entry (name cmp)
                   (joinpath output_dir file_name)
                   (revision_of w (pre ++ trace w) cmp) (root_comp_name w)
                   (clock w (pre ++ trace w))]> m).
Proof.
  rewrite export_one_unfold. cbn zeta.
  destruct (file_names py_format main_cfg cfg) as [[file_key file_name]|]; [|done].
  cbn [fst snd].
  destruct version_control as [| | | | | |m]; try done.
  cbn [dict_get].
  set (old := default JNull (m !! file_key)).
  set (w1 := progressed i w).
  set (filepath := joinpath output_dir file_name).
  destruct (if is_none old then Ok false else _) as [[]|];
    [by intros [= <- <- <-]| |done].
  intros Hrun Hend.
  assert (Hw2 : ∀ w2 (u : unit),
    (if is_none old then (w1, Ok tt)
     else remove_renamed joinpath output_dir old filepath w1) = (w2, Ok u) →
    same_host w w2
    ∧ ∃ pre, trace w2 = pre ++ trace w
             ∧ exported_meshes pre = [] ∧ progress_values pre = [i]).
  { intros w2 u. destruct (is_none old).
    - intros [= <- _]. split; [by repeat split|].
      by exists [ProgressMessage "Exporting component %v of %m"; ProgressValue i].
    - intros Hrem. apply remove_renamed_inv in Hrem as [->|[p ->]].
      + split; [by repeat split|].
        by exists [ProgressMessage "Exporting component %v of %m"; ProgressValue i].
      + split; [by repeat split|].
        by exists [Unlink p; ProgressMessage "Exporting component %v of %m";
                   ProgressValue i]. }
  destruct (if is_none old then _ else _) as [w2 [u|]]; [|done].
  destruct (Hw2 w2 u eq_refl)
    as ((Hdoc & Hclock & Hcancel & Hrev & _) & pre & Hpre & Hstl & Hprog).
  cbn [setitem] in Hrun.
  destruct (rotate_and_export cfg cmp filepath w2) as [w3 [u3|]] eqn:Hrot; [|done].
  destruct (rotate_and_export_bracket _ _ _ _ _ _ Hrot) as (bracket & Htrace & Hbracket).
  apply rotate_and_export_inv in Hrot as (Hvalid & _ & (_ & _ & Hcancel3 & _) & _).
  exists file_key, file_name, m, pre, bracket.
  rewrite Hdoc, Hclock, Hrev, Hpre in Hrun.
  rewrite Hcancel3, Hcancel, Htrace, Hpre in Hrun.
  destruct (cancel_pressed w (bracket ++ pre ++ trace w)) eqn:Hpressed;
    injection Hrun as <- <- <-; repeat (split; [done|]);
    cbn [add_event trace]; by rewrite ?Htrace, ?Hpre.
Qed.

(** An iteration that returns has one of the three shapes. *)
Lemma export_one_shape main_cfg output_dir i cfg cmp version_control w w'
    version_control' ending :
  export_one joinpath py_format main_cfg output_dir i cfg cmp version_control w
  = (w', Ok (version_control', ending)) →
  iteration_shape w i cmp (target_of joinpath py_format main_cfg output_dir cfg)
    w ending w'.
Proof.
  intros Hrun.
  assert (Hexported : ending ≠ Continue →
    ∃ fname new,
      target_of joinpath py_format main_cfg output_dir cfg = joinpath output_dir fname
      ∧ exported_meshes new = [(name cmp, joinpath output_dir fname)]
      ∧ progress_values new = [i]
      ∧ trace w'
        = match ending with EndOfBody => [ProgressValue (S i)] | _ => [] end
          ++ new ++ trace w
      ∧ cancel_pressed w (new ++ trace w)
        = match ending with Break => true | _ => false end).
  { intros Hend.
    destruct (export_one_written _ _ _ _ _ _ _ _ _ _ Hrun Hend)
      as (key & fname & m & pre & bracket & Hnames & _ & _ & Hstl & Hprog
          & Hbracket & Htrace & Hpressed & _).
    destruct (export_bracket_meshes _ _ _ Hbracket) as (Hstl' & Hprog' & _).
    exists fname, (bracket ++ pre).
    split; [unfold target_of; by rewrite Hnames|].
    unfold exported_meshes, progress_values in *.
    rewrite !omap_app, Hstl', Hstl, Hprog', Hprog, <- !app_assoc. done. }
  destruct ending; cbn [iteration_shape].
  - apply export_one_Ok_inv in Hrun as (k & f & m & _ & _ & _ & -> & _). done.
  - destruct Hexported as (fname & new & -> & Hstl & Hprog & Htrace & Hpressed);
      [done|].
    exists new. rewrite Htrace. by repeat split.
  - destruct Hexported as (fname & new & -> & Hstl & Hprog & Htrace & Hpressed);
      [done|].
    exists new. rewrite Htrace. by repeat split.
Qed.

(** *** Entries *)

Lemma flat_entry_field (e : gmap string json) (k : string) :
  dom e = entry_fields →
  (∀ k x, e !! k = Some x → ∃ s, x = JStr s) →
  k ∈ entry_fields →
  ∃ s, e !! k = Some (JStr s).
Proof.
  intros Hdom Hstr Hk. rewrite <- Hdom in Hk.
  apply elem_of_dom in Hk as [x Hx].
  destruct (Hstr _ _ Hx) as [s ->]. by exists s.
Qed.

Lemma manifest_entry_flat cname filepath revision document changed :
  flat_entry (manifest_entry cname filepath revision document changed).
Proof.
  eexists. split; [reflexivity|]. split.
  - rewrite !dom_insert_L, dom_empty_L. unfold entry_fields. set_solver.
  - intros k x Hx.
    repeat (apply lookup_insert_Some in Hx as [[_ <-]|[_ Hx]]; [by eexists|]).
    by rewrite lookup_empty in Hx.
Qed.

Lemma unchanged_flat main_cfg old cname revision there :
  flat_entry old → ∃ b, unchanged main_cfg old cname revision there = Ok b.
Proof.
  intros (e & -> & Hdom & Hstr). unfold unchanged, getitem.
  destruct (flat_entry_field e "component" Hdom Hstr) as [c ->];
    [unfold entry_fields; set_solver|].
  destruct (flat_entry_field e "revisionId" Hdom Hstr) as [r ->];
    [unfold entry_fields; set_solver|].
  destruct (flat_entry_field e "changed" Hdom Hstr) as [ch ->];
    [unfold entry_fields; set_solver|].
  cbn. destruct (String.eqb c cname); [|by eexists].
  destruct (String.eqb r revision); [|by eexists].
  destruct there; [|by eexists].
  destruct (modified main_cfg) as [t|]; [|by eexists].
  destruct (negb (String.eqb t "")); by eexists.
Qed.

Lemma remove_renamed_flat output_dir old filepath w :
  flat_entry old →
  ∃ w2, remove_renamed joinpath output_dir old filepath w = (w2, Ok tt).
Proof.
  intros (e & -> & Hdom & Hstr).
  unfold remove_renamed, bind, lift, path_exists, unlink, ret, getitem.
  destruct (flat_entry_field e "filename" Hdom Hstr) as [f ->];
    [unfold entry_fields; set_solver|].
  cbn [eq_str]. destruct (negb (String.eqb f filepath)); [|by eexists].
  case_bool_decide as Hthere; [|by eexists].
  destruct Hthere as [x ->]. by eexists.
Qed.

(** *** One iteration: what decides it *)


Lemma export_one_goes_on main_cfg output_dir i cfg cmp m w file_key file_name :
  file_names py_format main_cfg cfg = Ok (file_key, file_name) →
  ¬ skip_condition main_cfg (progressed i w) m file_key
      (joinpath output_dir file_name) cmp →
  readable_entry (m !! file_key) →
  ∃ w2,
    (w2 = progressed i w
     ∨ ∃ p, w2 = add_event (Unlink p) (set_fs (delete p) (progressed i w)))
    ∧ export_one joinpath py_format main_cfg output_dir i cfg cmp (JDict m) w
    = match
        rotate_and_export cfg cmp (joinpath output_dir file_name) w2
      with
      | (w3, Raise e) => (w3, Raise e)
      | (w3, Ok _) =>
          let version_control' :=
            JDict (<[file_key := manifest_entry (name cmp)
                       (joinpath output_dir file_name)
                       (revision_of w2 (trace w2) cmp) (root_comp_name w2)
                       (clock w2 (trace w2))]> m) in
          if cancel_pressed w3 (trace w3)
          then (w3, Ok (version_control', Break))
          else (add_event (ProgressValue (S i)) w3,
                Ok (version_control', EndOfBody))
      end.
Proof.
  intros Hnames Hno Hread. rewrite export_one_unfold, Hnames.
  cbn zeta. cbn [fst snd dict_get setitem].
  rewrite <- unchanged_skip_condition in Hno.
  destruct (is_none (default JNull (m !! file_key))) eqn:Hnone.
  - eexists. split; [by left|done].
  - assert (Hflat : flat_entry (default JNull (m !! file_key))).
    { destruct (m !! file_key) as [v|]; [|done].
      destruct Hread as [->|Hflat]; done. }
    destruct (unchanged_flat main_cfg _ (name cmp)
                (revision_of (progressed i w) (trace (progressed i w)) cmp)
                (bool_decide (is_Some (fs (progressed i w)
                   !! joinpath output_dir file_name))) Hflat) as [b Hb].
    rewrite Hb. destruct b; [by destruct Hno|].
    destruct (remove_renamed_flat output_dir _ (joinpath output_dir file_name)
                (progressed i w) Hflat) as [w2 Hrm].
    rewrite Hrm. exists w2. split; [|done]. by eapply remove_renamed_inv.
Qed.

Lemma export_one_exports main_cfg output_dir i cfg cmp m w file_key file_name :
  file_names py_format main_cfg cfg = Ok (file_key, file_name) →
  ¬ skip_condition main_cfg (progressed i w) m file_key
      (joinpath output_dir file_name) cmp →
  readable_entry (m !! file_key) →
  valid_up cfg = true →
  host_obliging w →
  ∃ w' version_control' ending,
    export_one joinpath py_format main_cfg output_dir i cfg cmp (JDict m) w
    = (w', Ok (version_control', ending))
    ∧ ending ≠ Continue.
Proof.
  intros Hnames Hno Hread Hvalid Hhost.
  destruct (export_one_goes_on main_cfg output_dir i cfg cmp m w _ _
              Hnames Hno Hread) as (w2 & Hw2 & ->).
  assert (Hhost2 : host_obliging w2) by (by destruct Hw2 as [->|[p ->]]).
  destruct (rotate_and_export_valid cfg cmp (joinpath output_dir file_name) w2
              Hvalid Hhost2) as [w3 ->].
  cbn zeta. destruct (cancel_pressed w3 (trace w3)); by eexists _, _, _.
Qed.


(** *** File key and file name *)

Lemma file_names_inv main_cfg cfg file_key file_name :
  file_names py_format main_cfg cfg = Ok (file_key, file_name) →
  ∃ file_to file_ext,
    cfg_to cfg = JStr file_to
    ∧ py_or (cfg_fmt cfg) (fmt main_cfg) = JStr file_ext
    ∧ file_key
      = (if endswith file_to file_ext
         then drop_last (String.length file_ext) file_to
         else file_to)
    ∧ file_name
      = file_key
        +:+ (if is_none (cfg_count cfg) then ""
             else "_x" +:+ py_format (cfg_count cfg))
        +:+ "." +:+ file_ext.
Proof.
  unfold file_names.
  destruct (cfg_to cfg) as [| | | |file_to| |]; try discriminate.
  destruct (py_or (cfg_fmt cfg) (fmt main_cfg)) as [| | | |file_ext| |];
    try discriminate.
  intros [= <- <-]. exists file_to, file_ext. repeat (split; [done|]).
  destruct (is_none (cfg_count cfg)); cbn [negb]; [done|].
  by rewrite !append_assoc.
Qed.

(** C5, as amended.  The key under which the entry of an exported component
    is stored is not the name of the file written for it but the base name
    the file name starts with: the configured [to] without a trailing
    extension; the file name adds [_x] and the count, when there is one, and
    always a dot and the extension.  The entry under that key records the
    path of the file, and that is the file the mesh is written to. *)
Theorem manifest_key_is_base_name main_cfg cfg file_key file_name :
  file_names py_format main_cfg cfg = Ok (file_key, file_name) →
  (∃ file_to file_ext,
     cfg_to cfg = JStr file_to
     ∧ py_or (cfg_fmt cfg) (fmt main_cfg) = JStr file_ext
     ∧ file_key
       = (if endswith file_to file_ext
          then drop_last (String.length file_ext) file_to
          else file_to)
     ∧ file_name
       = file_key
         +:+ (if is_none (cfg_count cfg) then ""
              else "_x" +:+ py_format (cfg_count cfg))
         +:+ "." +:+ file_ext)
  ∧ String.prefix file_key file_name = true
  ∧ file_key ≠ file_name
  ∧ ∀ output_dir i cmp version_control w w' version_control' ending,
      export_one joinpath py_format main_cfg output_dir i cfg cmp
        version_control w = (w', Ok (version_control', ending)) →
      ending ≠ Continue →
      getitem (stored version_control' file_key) "filename"
      = Ok (JStr (joinpath output_dir file_name))
      ∧ ∃ new, trace w' = new ++ trace w
               ∧ exported_meshes new
                 = [(name cmp, joinpath output_dir file_name)].
Proof.
  intros Hnames.
  destruct (file_names_inv _ _ _ _ Hnames) as (file_to & file_ext & Hto & Hext & Hkey & Hname).
  split; [by exists file_to, file_ext|].
  split; [rewrite Hname; apply prefix_append|].
  split.
  { rewrite Hname. apply append_nonempty_neq.
    destruct (is_none (cfg_count cfg)); done. }
  intros output_dir i cmp version_control w w' version_control' ending Hrun Hending.
  apply export_one_Ok_inv in Hrun as (k & f & m & Hnames' & -> & Hcase).
  rewrite Hnames in Hnames'. injection Hnames' as <- <-.
  destruct ending; [done| |];
    destruct Hcase as (_ & _ & _ & revision & changed & new & -> & Htrace & Hstl & _);
    (split; [cbn [stored]; rewrite lookup_insert_eq; done|by exists new]).
Qed.




(** *** The loop *)

Lemma lookup_component_found all_components cfg hit :
  lookup_component all_components (cfg_name cfg) = Ok hit →
  match hit with
  | Some cmp => found all_components cfg = true ∧ paired all_components (cfg, cmp)
  | None => found all_components cfg ≠ true
  end.
Proof.
  unfold found, lookup_component, paired.
  destruct (cfg_name cfg) as [| | | |s| |] eqn:Hname; try discriminate;
    try (by intros [= <-]).
  intros [= <-]. destruct (all_components !! s) as [cmp|] eqn:Hs.
  - split; [apply bool_decide_eq_true; by eexists|]. cbn. by exists s.
  - rewrite bool_decide_eq_true. by intros [? ?].
Qed.

Lemma select_components_spec all_components cfgs todo :
  select_components all_components cfgs = Ok todo →
  map fst todo = filter (fun cfg => found all_components cfg = true) cfgs
  ∧ Forall (paired all_components) todo.
Proof.
  revert todo. induction cfgs as [|cfg cfgs IH]; intros todo; cbn [select_components].
  - intros [= <-]. split; [done|constructor].
  - destruct (lookup_component all_components (cfg_name cfg)) as [hit|] eqn:Hlook;
      [|discriminate]. cbn [rbind].
    destruct (select_components all_components cfgs) as [others|]; [|discriminate].
    cbn [rbind]. destruct (IH others eq_refl) as [Hmap Hall].
    apply lookup_component_found in Hlook.
    destruct hit as [cmp|]; intros [= <-].
    + destruct Hlook as [Hfound Hpaired]. rewrite filter_cons_True by done.
      cbn. split; [by f_equal|by constructor].
    + by rewrite filter_cons_False.
Qed.

Lemma tidy_mono {A} (allowed allowed' : string → string → Prop) (m : M A) :
  (∀ c u, allowed c u → allowed' c u) → tidy allowed m → tidy allowed' m.
Proof.
  intros Hsub Hm w w' r Hrun.
  destruct (Hm _ _ _ Hrun) as (Hhost & Hres).
  split; [done|]. destruct r as [a|e]; [|done].
  destruct Hres as (Hfeatures & new & Htrace & Hb).
  split; [done|]. exists new. split; [done|]. by eapply bracketed_mono.
Qed.

Lemma tidy_export_loop main_cfg output_dir cfgs todo :
  Forall (fun pair => pair.1 ∈ cfgs ∧ cfg_name pair.1 = JStr (name pair.2)) todo →
  ∀ i version_control,
    tidy (rotating cfgs)
      (export_loop joinpath py_format main_cfg output_dir i todo version_control).
Proof.
  induction 1 as [|[cfg cmp] todo [Hin Hname] _ IH]; intros i version_control;
    cbn [export_loop].
  - apply tidy_pure.
  - apply tidy_bind.
    + eapply tidy_mono; [|apply tidy_export_one].
      intros c u (-> & Hup & Hrot). by exists cfg.
    + intros [vc' ending]. cbn [fst snd].
      destruct ending; [apply IH|apply tidy_pure|apply IH].
Qed.

Lemma paired_configured root cfgs todo :
  select_components (recursiveEnumerateComponents root) cfgs = Ok todo →
  Forall (fun pair => pair.1 ∈ cfgs ∧ cfg_name pair.1 = JStr (name pair.2)) todo.
Proof.
  intros Hsel. destruct (select_components_spec _ _ _ Hsel) as [Hmap Hpaired].
  apply Forall_forall. intros [cfg cmp] Hin. cbn [fst snd]. split.
  - assert (Hcfg : cfg ∈ map fst todo)
      by (apply list_elem_of_fmap; by exists (cfg, cmp)).
    rewrite Hmap in Hcfg. by apply list_elem_of_filter in Hcfg as [_ ?].
  - rewrite Forall_forall in Hpaired.
    destruct (Hpaired _ Hin) as (s & Hs & Hlook). cbn [fst snd] in *.
    apply recursiveEnumerateComponents_names in Hlook. by rewrite Hs, Hlook.
Qed.

Lemma tidy_export main_cfg output_dir root :
  tidy (rotating (components main_cfg))
    (export joinpath py_format main_cfg output_dir root).
Proof.
  unfold export. intros w w' r. unfold bind at 1, lift at 1.
  destruct (select_components _ _) as [todo|e] eqn:Hsel.
  - revert w w' r. apply paired_configured in Hsel.
    repeat first
      [ apply tidy_export_loop; exact Hsel
      | tidy_step ].
  - intros [= <- <-]. split; [apply same_host_refl|done].
Qed.

Lemma bracketed_quiet allowed events :
  (∀ c u, ¬ allowed c u) →
  bracketed allowed events →
  Forall (fun e => timeline_event e = false) events.
Proof.
  intros Hnone. induction 1 as [|e l Hadd Hdel _ IH|c b u p f l Hallowed _ IH].
  - constructor.
  - constructor; [|done]. destruct e; try done.
    + by destruct (Hadd cname bodies up feature).
    + by destruct (Hdel feature).
  - by destruct (Hnone c u).
Qed.

(** C3. The reorientation is temporary.  When [export] returns, the
    timeline has the move features it had before, and the history that the
    run has added is bracketed: a move feature is only ever added for a
    configured component whose [up] is set and is not ["z"], and each
    addition is followed at once by the making of the directory, the mesh
    export of that component and the deletion of that same feature.  An
    iteration for a component whose [up] is unset or ["z"] adds no timeline
    event at all and leaves the timeline as it is, however it ends.  (When
    the host refuses to make the directory or to export the mesh, the run
    raises with the move feature still there: nothing catches the
    exception.) *)
Theorem export_rotation_is_temporary main_cfg output_dir root w w' :
  export joinpath py_format main_cfg output_dir root w = (w', Ok tt) →
  moveFeatures w' = moveFeatures w
  ∧ (∃ new,
       trace w' = new ++ trace w
       ∧ bracketed (rotating (components main_cfg)) new
       ∧ (∀ c b u f, MoveFeatureAdd c b u f ∈ new →
            rotating (components main_cfg) c u))
  ∧ (∀ i cfg cmp version_control w0,
       needs_rotation cfg = false →
       let w1 := (export_one joinpath py_format main_cfg output_dir i cfg cmp
                    version_control w0).1 in
       moveFeatures w1 = moveFeatures w0
       ∧ ∃ new, trace w1 = new ++ trace w0
                ∧ Forall (fun e => timeline_event e = false) new).
Proof.
  intros Hrun.
  destruct (tidy_export _ _ _ _ _ _ Hrun) as (_ & Hfeatures & new & Htrace & Hb).
  split; [done|]. split.
  - exists new. repeat (split; [done|]).
    intros c b u f Hin. by eapply bracketed_adds.
  - intros i cfg cmp version_control w0 Hrot. cbn zeta.
    destruct (export_one _ _ _ _ _ _ _ _ w0) as [w1 r] eqn:Hone.
    by apply (still_export_one _ _ _ _ _ _ Hrot _ _ _ Hone).
Qed.

(** Everything a run of the loop that returns has done. *)
Lemma export_loop_run main_cfg output_dir todo :
  ∀ i version_control w w' version_control',
    export_loop joinpath py_format main_cfg output_dir i todo version_control w
    = (w', Ok version_control') →
    let its := iterations joinpath py_format main_cfg output_dir i todo
                 version_control w in
    let done := exported joinpath py_format main_cfg output_dir i todo
                  version_control w in
    (∃ new,
       trace w' = new ++ trace w
       ∧ rev (progress_values new) = progress_script i (map fst its)
       ∧ rev (exported_meshes new)
         = map (fun x => (name x.1.2,
                          target_of joinpath py_format main_cfg output_dir x.1.1))
             done)
    ∧ (∀ m, version_control = JDict m →
         version_control' = JDict (updated py_format main_cfg m done))
    ∧ (todo = [] ∧ version_control' = version_control
       ∨ ∃ m, version_control = JDict m)
    ∧ Forall (fun x =>
                (x.1.1, x.1.2) ∈ todo
                ∧ ∃ revision changed,
                    x.2 = manifest_entry (name x.1.2)
                            (target_of joinpath py_format main_cfg output_dir x.1.1)
                            revision (root_comp_name w) changed) done
    ∧ (∀ j ending wj, its !! j = Some (ending, wj) → ending = Break →
         S j = length its)
    ∧ (length its = length todo ∨ ∃ wj, last its = Some (Break, wj))
    ∧ Forall (cancel_seen w) its
    ∧ w' = default w (snd <$> last its).
Proof.
  induction todo as [|[cfg cmp] rest IH];
    intros i version_control w w' version_control'.
  - cbn. intros [= <- <-]. split.
    { exists []. by repeat split. }
    repeat split; try (by intros ? [= <-]); try (by left); try constructor.
    intros j ending wj Hj. by rewrite lookup_nil in Hj.
  - cbn [export_loop iterations exported]. unfold bind at 1.
    destruct (export_one _ _ _ _ _ _ _ _ w) as [w1 [[vc1 ending]|e]] eqn:Hone;
      [|discriminate].
    cbn [fst snd].
    destruct (tidy_export_one _ _ _ _ _ _ _ _ _ Hone)
      as ((Hroot & _ & Hcancel & _) & _).
    apply export_one_Ok_inv in Hone as (key & fname & m & Hnames & -> & Hcase).
    assert (Hkey : file_key_of py_format main_cfg cfg = key)
      by (unfold file_key_of; by rewrite Hnames).
    assert (Htarget : target_of joinpath py_format main_cfg output_dir cfg
                      = joinpath output_dir fname)
      by (unfold target_of; by rewrite Hnames).
    cbn zeta in Hcase.
    destruct ending.
    + (* continue *)
      destruct Hcase as (_ & -> & ->). intros Hrest.
      destruct (IH _ _ _ _ _ Hrest)
        as ((new & Htrace & Hprog & Hstl) & Hvc & _ & Hdone & Hbreak & Hlen & Hseen & Hlast).
      split.
      { exists (new ++ [ProgressMessage "Exporting component %v of %m"; ProgressValue i]).
        split; [by rewrite Htrace, <- app_assoc|].
        unfold progress_values, exported_meshes in *.
        rewrite !omap_app, !rev_app_distr, Hprog, Hstl. by cbn. }
      split; [intros m' [= <-]; by apply Hvc|].
      split; [right; by exists m|].
      split.
      { eapply Forall_impl; [exact Hdone|]. intros x [Hin Hx].
        split; [by right|done]. }
      split.
      { intros [|j] ending wj Hj Hending; cbn in Hj.
        - by injection Hj as <- <-.
        - cbn [length]. f_equal. by eapply Hbreak. }
      split.
      { destruct Hlen as [Hlen|[wj Hwj]]; [left; cbn; by f_equal|right].
        exists wj. by rewrite last_cons, Hwj. }
      split; [constructor; [done|exact Hseen]|].
      rewrite Hlast, last_cons. by destruct (last _).
    + (* break *)
      destruct Hcase as (_ & _ & _ & revision & changed & new & -> & Htrace & Hstl & Hprog & Hpressed).
      intros [= <- <-]. split.
      { exists new. split; [done|]. rewrite Hprog, Hstl. cbn. by rewrite Htarget. }
      split.
      { intros m' [= <-]. unfold updated. cbn [foldl stored fst snd].
        by rewrite Hkey, lookup_insert_eq. }
      split; [right; by exists m|].
      split.
      { constructor; [|constructor]. cbn [fst snd stored]. split; [left|].
        rewrite Hkey, lookup_insert_eq, Htarget. by eexists _, _. }
      split.
      { intros [|j] ending wj Hj Hending; cbn in Hj |- *;
          first [done|discriminate]. }
      split; [right; by eexists|].
      split; [constructor; [done|constructor]|done].
    + (* end of the body *)
      destruct Hcase as (_ & _ & _ & revision & changed & new & -> & Htrace & Hstl & Hprog & Hpressed).
      intros Hrest.
      destruct (IH _ _ _ _ _ Hrest)
        as ((new' & Htrace' & Hprog' & Hstl') & Hvc & _ & Hdone & Hbreak & Hlen & Hseen & Hlast).
      split.
      { exists (new' ++ new). split; [by rewrite Htrace', Htrace, app_assoc|].
        unfold progress_values, exported_meshes in *.
        rewrite !omap_app, !rev_app_distr, Hprog, Hstl, Hprog', Hstl'.
        cbn. by rewrite Htarget. }
      split.
      { intros m' [= <-]. rewrite (Hvc _ eq_refl). unfold updated.
        cbn [foldl stored fst snd]. by rewrite Hkey, lookup_insert_eq. }
      split; [right; by exists m|].
      split.
      { constructor.
        - cbn [fst snd stored]. split; [left|].
          rewrite Hkey, lookup_insert_eq, Htarget. by eexists _, _.
        - eapply Forall_impl; [exact Hdone|]. intros x [Hin (r & t & Hx)].
          split; [by right|]. exists r, t. by rewrite Hx, Hroot. }
      split.
      { intros [|j] ending wj Hj Hending; cbn in Hj.
        - by injection Hj as <- <-.
        - cbn [length]. f_equal. by eapply Hbreak. }
      split.
      { destruct Hlen as [Hlen|[wj Hwj]]; [left; cbn; by f_equal|right].
        exists wj. by rewrite last_cons, Hwj. }
      split.
      { constructor; [done|]. eapply Forall_impl; [exact Hseen|].
        intros [e wj]. unfold cancel_seen. cbn [fst snd]. by rewrite Hcancel. }
      rewrite Hlast, last_cons. by destruct (last _).
Qed.

Lemma written_during_host w0 w w' cmp target entry pre :
  same_host w w0 → trace w0 = pre ++ trace w →
  written_during w0 w' cmp target entry → written_during w w' cmp target entry.
Proof.
  intros (Hdoc & Hclock & _ & Hrev & _) Hpre
    (earlier & bracket & later & Htrace & Hbracket & ->).
  exists (earlier ++ pre), bracket, later.
  rewrite Hdoc, Hclock, Hrev, Hpre in *. rewrite <- !app_assoc.
  by repeat split.
Qed.

Lemma written_during_later w w' w'' cmp target entry more :
  trace w'' = more ++ trace w' →
  written_during w w' cmp target entry → written_during w w'' cmp target entry.
Proof.
  intros Hmore (earlier & bracket & later & Htrace & Hbracket & ->).
  exists earlier, bracket, (more ++ later).
  rewrite Hmore, Htrace, <- !app_assoc. by repeat split.
Qed.

(** The entries of the exported components are written at their mesh
    exports. *)
Lemma export_loop_written main_cfg output_dir todo :
  ∀ i version_control w w' version_control',
    export_loop joinpath py_format main_cfg output_dir i todo version_control w
    = (w', Ok version_control') →
    Forall (fun x =>
              written_during w w' x.1.2
                (target_of joinpath py_format main_cfg output_dir x.1.1) x.2)
      (exported joinpath py_format main_cfg output_dir i todo version_control w).
Proof.
  induction todo as [|[cfg cmp] rest IH];
    intros i version_control w w' version_control'; [constructor|].
  cbn [export_loop exported]. unfold bind at 1.
  destruct (export_one _ _ _ _ _ _ _ _ w) as [w1 [[vc1 ending]|e]] eqn:Hone;
    [|discriminate].
  cbn [fst snd].
  destruct (tidy_export_one _ _ _ _ _ _ _ _ _ Hone)
    as (Hhost & _ & new1 & Htrace1 & _).
  assert (Hthis : ending ≠ Continue →
    written_during w w1 cmp (target_of joinpath py_format main_cfg output_dir cfg)
      (stored vc1 (file_key_of py_format main_cfg cfg))).
  { intros Hend.
    destruct (export_one_written _ _ _ _ _ _ _ _ _ _ Hone Hend)
      as (key & fname & m & pre & bracket & Hnames & _ & _ & _ & _
          & Hbracket & Htrace & _ & ->).
    unfold target_of, file_key_of. rewrite Hnames. cbn [fst snd stored].
    rewrite lookup_insert_eq. cbn [default].
    eexists pre, bracket, _. split; [exact Htrace|]. by split. }
  destruct ending.
  - intros Hrest. eapply Forall_impl; [exact (IH _ _ _ _ _ Hrest)|].
    intros x Hx. by eapply written_during_host.
  - intros [= <- <-]. constructor; [by apply Hthis|constructor].
  - intros Hrest.
    destruct (export_loop_run _ _ _ _ _ _ _ _ Hrest) as ((more & Hmore & _) & _).
    constructor.
    + eapply written_during_later; [exact Hmore|]. by apply Hthis.
    + eapply Forall_impl; [exact (IH _ _ _ _ _ Hrest)|].
      intros x Hx. by eapply written_during_host.
Qed.

Lemma iteration_shape_host w w0 i cmp target before ending after :
  cancel_pressed w0 = cancel_pressed w →
  iteration_shape w0 i cmp target before ending after →
  iteration_shape w i cmp target before ending after.
Proof. intros Hcancel. destruct ending; cbn; [done|by rewrite Hcancel..]. Qed.

Lemma sequential_host target w w0 its :
  cancel_pressed w0 = cancel_pressed w →
  ∀ i todo before,
    sequential target w0 i todo before its → sequential target w i todo before its.
Proof.
  intros Hcancel. induction its as [|[ending after] its IH];
    intros i todo before; [by destruct todo|].
  destruct todo as [|[cfg cmp] rest]; [done|]. cbn [sequential].
  intros (Hshape & Hbreak & Hnext & Hrest).
  split; [by eapply iteration_shape_host|]. by auto.
Qed.

(** The iterations of a run of the loop that returns are one after the
    other, each of one of the three shapes. *)
Lemma export_loop_sequential main_cfg output_dir todo :
  ∀ i version_control w w' version_control',
    export_loop joinpath py_format main_cfg output_dir i todo version_control w
    = (w', Ok version_control') →
    sequential (target_of joinpath py_format main_cfg output_dir) w i todo w
      (iterations joinpath py_format main_cfg output_dir i todo version_control w).
Proof.
  induction todo as [|[cfg cmp] rest IH];
    intros i version_control w w' version_control'; [done|].
  cbn [export_loop iterations]. unfold bind at 1.
  destruct (export_one _ _ _ _ _ _ _ _ w) as [w1 [[vc1 ending]|e]] eqn:Hone;
    [|discriminate].
  cbn [fst snd sequential].
  destruct (tidy_export_one _ _ _ _ _ _ _ _ _ Hone)
    as ((_ & _ & Hcancel & _) & _).
  pose proof (export_one_shape _ _ _ _ _ _ _ _ _ _ Hone) as Hshape.
  assert (Hgoes : ∀ version_control'',
    export_loop joinpath py_format main_cfg output_dir (S i) rest vc1 w1
    = (w', Ok version_control'') →
    rest ≠ [] →
    iterations joinpath py_format main_cfg output_dir (S i) rest vc1 w1 ≠ []).
  { intros vc'' Hrest Hne. destruct rest as [|[cfg2 cmp2] rest2]; [done|].
    cbn [export_loop iterations] in *. unfold bind at 1 in Hrest.
    by destruct (export_one _ _ _ _ _ _ _ _ w1) as [w2 [[vc2 ending2]|e]]. }
  destruct ending.
  - intros Hrest. split; [done|]. split; [done|].
    split; [intros _; by eapply Hgoes|].
    eapply sequential_host; [exact Hcancel|]. by eapply IH.
  - intros _. split; [done|]. split; [done|].
    split; [by intros []|by destruct rest].
  - intros Hrest. split; [done|]. split; [done|].
    split; [intros _; by eapply Hgoes|].
    eapply sequential_host; [exact Hcancel|]. by eapply IH.
Qed.

(** *** The whole run *)

Lemma export_Ok_inv main_cfg output_dir root w w' :
  export joinpath py_format main_cfg output_dir root w = (w', Ok tt) →
  ∃ todo version_control version_control' w1,
    select_components (recursiveEnumerateComponents root) (components main_cfg)
    = Ok todo
    ∧ loaded_manifest joinpath output_dir w = Some version_control
    ∧ export_loop joinpath py_format main_cfg output_dir 0 todo version_control
        (add_event (ProgressShow (length todo)) w)
      = (w1, Ok version_control')
    ∧ w' = (write_text (joinpath output_dir version_control_name) version_control'
              (add_event ProgressHide w1)).1.
Proof.
  unfold export, loaded_manifest. unfold bind at 1, lift at 1.
  destruct (select_components _ _) as [todo|]; [|discriminate].
  unfold bind at 1, emit at 1. unfold bind at 1, path_exists at 1.
  cbn [fs add_event]. unfold bind at 1.
  set (w0 := add_event (ProgressShow (length todo)) w).
  assert (Hload : ∀ w0' r,
    (if bool_decide (is_Some (fs w !! joinpath output_dir version_control_name))
     then read_json (joinpath output_dir version_control_name)
     else ret (JDict ∅)) w0 = (w0', r) →
    w0' = w0
    ∧ ∀ vc, r = Ok vc →
      match fs w !! joinpath output_dir version_control_name with
      | Some f => match content f with JsonText j => Some j | _ => None end
      | None => Some (JDict ∅)
      end = Some vc).
  { intros w0' r. unfold read_json, ret. subst w0. cbn [fs add_event].
    destruct (fs w !! joinpath output_dir version_control_name) as [f|] eqn:Hf.
    - rewrite bool_decide_eq_true_2 by by eexists.
      cbn [fs add_event]. rewrite Hf.
      destruct (content f); intros Heq; injection Heq as <- <-;
        (split; [done|]); intros vc Hvc; [by injection Hvc as ->|done..].
    - rewrite bool_decide_eq_false_2 by by intros [? ?].
      intros [= <- <-]. split; [done|]. by intros vc [= <-]. }
  match goal with
  | |- context [(if ?b then ?x else ?y) w0] =>
      destruct ((if b then x else y) w0) as [w0' [vc|]] eqn:Hread; [|discriminate]
  end.
  destruct (Hload _ _ eq_refl) as [-> Hvc]. clear Hload Hread.
  unfold bind at 1.
  destruct (export_loop _ _ _ _ _ _ _ w0) as [w1 [vc'|]] eqn:Hloop; [|discriminate].
  unfold bind at 1, emit at 1. intros Hwrite.
  exists todo, vc, vc', w1. split; [done|]. split; [by apply Hvc|].
  split; [done|]. unfold write_text in *. by injection Hwrite as <-.
Qed.

Lemma updated_snoc main_cfg (m : gmap string json) done x :
  updated py_format main_cfg m (done ++ [x])
  = <[file_key_of py_format main_cfg x.1.1 := x.2]>
      (updated py_format main_cfg m done).
Proof. unfold updated. by rewrite foldl_app. Qed.

Lemma updated_untouched main_cfg (m : gmap string json) done k :
  (∀ x, x ∈ done → file_key_of py_format main_cfg x.1.1 ≠ k) →
  updated py_format main_cfg m done !! k = m !! k.
Proof.
  induction done as [|x done IH] using rev_ind; intros Hkeys; [done|].
  rewrite updated_snoc, lookup_insert_ne.
  - apply IH. intros y Hy. apply Hkeys, elem_of_app. by left.
  - apply Hkeys, elem_of_app. right. by apply list_elem_of_singleton.
Qed.

Lemma updated_last main_cfg (m : gmap string json) before x after :
  (∀ y, y ∈ after → file_key_of py_format main_cfg y.1.1
                    ≠ file_key_of py_format main_cfg x.1.1) →
  updated py_format main_cfg m (before ++ x :: after)
    !! file_key_of py_format main_cfg x.1.1 = Some x.2.
Proof.
  intros Hafter. unfold updated. rewrite foldl_app. cbn [foldl].
  fold (updated py_format main_cfg
          (<[file_key_of py_format main_cfg x.1.1 := x.2]>
             (foldl (fun m x => <[file_key_of py_format main_cfg x.1.1 := x.2]> m)
                m before)) after).
  rewrite updated_untouched by done. apply lookup_insert_eq.
Qed.

Lemma updated_lookup main_cfg (m : gmap string json) done k v :
  updated py_format main_cfg m done !! k = Some v →
  m !! k = Some v
  ∨ ∃ x, x ∈ done ∧ file_key_of py_format main_cfg x.1.1 = k ∧ x.2 = v.
Proof.
  induction done as [|x done IH] using rev_ind; [by left|].
  rewrite updated_snoc. intros Hk.
  apply lookup_insert_Some in Hk as [[<- <-]|[_ Hk]].
  - right. exists x. split; [|done]. apply elem_of_app. right.
    by apply list_elem_of_singleton.
  - destruct (IH Hk) as [?|(y & Hy & ?)]; [by left|right].
    exists y. split; [|done]. apply elem_of_app. by left.
Qed.

Lemma updated_key_written main_cfg (m : gmap string json) done x :
  x ∈ done →
  ∃ y, y ∈ done
       ∧ file_key_of py_format main_cfg y.1.1 = file_key_of py_format main_cfg x.1.1
       ∧ updated py_format main_cfg m done
           !! file_key_of py_format main_cfg x.1.1 = Some y.2.
Proof.
  induction done as [|z done IH] using rev_ind; [by intros ?%not_elem_of_nil|].
  intros Hx. unfold updated. rewrite foldl_app. cbn [foldl].
  fold (updated py_format main_cfg m done).
  destruct (decide (file_key_of py_format main_cfg z.1.1
                    = file_key_of py_format main_cfg x.1.1)) as [Hkey|Hkey].
  - exists z. split; [apply elem_of_app; right; by apply list_elem_of_singleton|].
    split; [done|]. rewrite <- Hkey. apply lookup_insert_eq.
  - apply elem_of_app in Hx as [Hx|Hx].
    + destruct (IH Hx) as (y & Hy & Hyk & Hlook).
      exists y. split; [apply elem_of_app; by left|]. split; [done|].
      by rewrite lookup_insert_ne.
    + apply list_elem_of_singleton in Hx as ->. done.
Qed.

(** C7, as amended.  [export] keeps the manifest entries it does not touch.
    When it returns, the manifest file holds the manifest it loaded with the
    entries of the components exported in this run (those not skipped, which
    are exactly the mesh exports in the history) put under their file keys,
    in order: a key that is the file key of none of them has what it had;
    every such component has, under its file key, an entry written in this
    run for a component with that file key, its own unless a later exported
    component has the same key (of two exported components with one file
    key only the later has an entry); and each of those entries records the
    component's name and file. *)
Theorem export_preserves_untouched main_cfg output_dir root w w' m :
  export joinpath py_format main_cfg output_dir root w = (w', Ok tt) →
  loaded_manifest joinpath output_dir w = Some (JDict m) →
  ∃ todo f new,
    select_components (recursiveEnumerateComponents root) (components main_cfg)
    = Ok todo
    ∧ let done := exported joinpath py_format main_cfg output_dir 0 todo
                    (JDict m) (add_event (ProgressShow (length todo)) w) in
      let m' := updated py_format main_cfg m done in
      fs w' !! joinpath output_dir version_control_name = Some f
      ∧ content f = JsonText (JDict m')
      ∧ (∀ k, (∀ x, x ∈ done → file_key_of py_format main_cfg x.1.1 ≠ k) →
           m' !! k = m !! k)
      ∧ (∀ before x after, done = before ++ x :: after →
           (∀ y, y ∈ after → file_key_of py_format main_cfg y.1.1
                             ≠ file_key_of py_format main_cfg x.1.1) →
           m' !! file_key_of py_format main_cfg x.1.1 = Some x.2)
      ∧ Forall (fun x =>
                  (x.1.1, x.1.2) ∈ todo
                  ∧ ∃ revision changed,
                      x.2 = manifest_entry (name x.1.2)
                              (target_of joinpath py_format main_cfg output_dir x.1.1)
                              revision (root_comp_name w) changed) done
      ∧ trace w' = new ++ trace w
      ∧ rev (exported_meshes new)
        = map (fun x => (name x.1.2,
                         target_of joinpath py_format main_cfg output_dir x.1.1))
            done
      ∧ (∀ x, x ∈ done →
           ∃ y, y ∈ done
                ∧ file_key_of py_format main_cfg y.1.1
                  = file_key_of py_format main_cfg x.1.1
                ∧ m' !! file_key_of py_format main_cfg x.1.1 = Some y.2).
Proof.
  intros Hrun Hloaded.
  apply export_Ok_inv in Hrun as (todo & vc & vc' & w1 & Hsel & Hvc & Hloop & ->).
  rewrite Hloaded in Hvc. injection Hvc as <-.
  apply export_loop_run in Hloop
    as ((new & Htrace & _ & Hstl) & Hupdated & _ & Hdone & _).
  rewrite (Hupdated _ eq_refl).
  eexists todo, _, ([WriteText _ _; ProgressHide] ++ new ++ [ProgressShow (length todo)]).
  split; [done|]. cbn zeta. cbn [write_text fst fs add_event set_fs trace content].
  split; [apply lookup_insert_eq|]. split; [done|].
  split; [intros k Hk; by apply updated_untouched|].
  split; [intros before x after -> Hafter; by apply updated_last|].
  split; [exact Hdone|].
  split; [rewrite Htrace; cbn; by rewrite <- app_assoc|].
  split; [|intros x Hx; by apply updated_key_written].
  rewrite <- Hstl. unfold exported_meshes.
  rewrite !omap_app. cbn [omap list_omap app]. by rewrite app_nil_r.
Qed.

(** C2. Every entry [export] writes is a dict with exactly the five fields
    [component], [filename], [revisionId], [fromDocument] and [changed].
    When [export] returns, the manifest it loaded from the JSON file is
    saved to that file, as a dict, with the entries of the exported
    components (exactly the mesh exports of the run, in order) put under
    their file keys.  The entry of an exported component holds the
    component's name, the path of the exported file, the revision id that
    the host reported for the component and the time that the clock showed
    just before the events of its mesh export, and the document's name.
    Every entry of the saved manifest is one that was loaded or the entry of
    an exported component, under that component's file key; under the file
    key of every exported component there is an entry written in this run;
    so a manifest of such entries stays one. *)
Theorem manifest_entries_flat main_cfg output_dir root w w' m :
  export joinpath py_format main_cfg output_dir root w = (w', Ok tt) →
  loaded_manifest joinpath output_dir w = Some (JDict m) →
  (∀ c p r d t,
     flat_entry (manifest_entry c p r d t)
     ∧ getitem (manifest_entry c p r d t) "component" = Ok (JStr c)
     ∧ getitem (manifest_entry c p r d t) "filename" = Ok (JStr p)
     ∧ getitem (manifest_entry c p r d t) "revisionId" = Ok (JStr r)
     ∧ getitem (manifest_entry c p r d t) "fromDocument" = Ok (JStr d)
     ∧ getitem (manifest_entry c p r d t) "changed" = Ok (JStr t))
  ∧ ∃ todo f new,
      select_components (recursiveEnumerateComponents root) (components main_cfg)
      = Ok todo
      ∧ let done := exported joinpath py_format main_cfg output_dir 0 todo
                      (JDict m) (add_event (ProgressShow (length todo)) w) in
        let m' := updated py_format main_cfg m done in
        fs w' !! joinpath output_dir version_control_name = Some f
        ∧ content f = JsonText (JDict m')
        ∧ trace w' = new ++ trace w
        ∧ rev (exported_meshes new)
          = map (fun x => (name x.1.2,
                           target_of joinpath py_format main_cfg output_dir x.1.1))
              done
        ∧ Forall (fun x =>
                    x.1.1 ∈ components main_cfg
                    ∧ cfg_name x.1.1 = JStr (name x.1.2)
                    ∧ written_during w w' x.1.2
                        (target_of joinpath py_format main_cfg output_dir x.1.1)
                        x.2) done
        ∧ (∀ k v, m' !! k = Some v →
             m !! k = Some v
             ∨ ∃ x, x ∈ done ∧ k = file_key_of py_format main_cfg x.1.1 ∧ v = x.2)
        ∧ (∀ x, x ∈ done →
             ∃ y, y ∈ done
                  ∧ file_key_of py_format main_cfg y.1.1
                    = file_key_of py_format main_cfg x.1.1
                  ∧ m' !! file_key_of py_format main_cfg x.1.1 = Some y.2)
        ∧ (flat_manifest m → flat_manifest m').
Proof.
  intros Hrun Hloaded. split.
  { intros c p r d t. split; [apply manifest_entry_flat|]. by repeat split. }
  apply export_Ok_inv in Hrun as (todo & vc & vc' & w1 & Hsel & Hvc & Hloop & ->).
  rewrite Hloaded in Hvc. injection Hvc as <-.
  pose proof (export_loop_written _ _ _ _ _ _ _ _ Hloop) as Hwritten.
  apply export_loop_run in Hloop
    as ((new & Htrace & _ & Hstl) & Hupdated & _ & Hdone & _).
  rewrite (Hupdated _ eq_refl). cbn zeta in Hdone, Hstl.
  set (done := exported _ _ _ _ _ _ _ _) in *.
  pose proof (paired_configured _ _ _ Hsel) as Hpaired.
  assert (Hentries : ∀ k v, updated py_format main_cfg m done !! k = Some v →
    m !! k = Some v
    ∨ ∃ x, x ∈ done ∧ k = file_key_of py_format main_cfg x.1.1 ∧ v = x.2).
  { intros k v Hk. apply updated_lookup in Hk as [?|(x & Hx & <- & <-)]; [by left|].
    right. by exists x. }
  eexists todo, _,
    ([WriteText _ _; ProgressHide] ++ new ++ [ProgressShow (length todo)]).
  split; [done|]. cbn zeta. cbn [write_text fst fs add_event set_fs trace content].
  split; [apply lookup_insert_eq|]. split; [done|].
  split; [rewrite Htrace; cbn; by rewrite <- app_assoc|].
  split.
  { unfold exported_meshes in *.
    rewrite !omap_app. cbn [omap list_omap app]. rewrite app_nil_r. exact Hstl. }
  split.
  { apply Forall_forall. intros x Hx.
    pose proof (proj1 (Forall_forall _ _) Hdone x Hx) as (Hin & _).
    pose proof (proj1 (Forall_forall _ _) Hpaired _ Hin) as [Hcfg Hname].
    pose proof (proj1 (Forall_forall _ _) Hwritten x Hx) as Hx'.
    cbn [fst snd] in Hcfg, Hname.
    split; [done|]. split; [done|].
    eapply (written_during_later _ w1 _ _ _ _ [WriteText _ _; ProgressHide]);
      [reflexivity|].
    eapply (written_during_host (add_event (ProgressShow (length todo)) w) w
              _ _ _ _ [ProgressShow (length todo)]);
      [by repeat split|reflexivity|]. exact Hx'. }
  split; [exact Hentries|].
  split; [intros x Hx; by apply updated_key_written|].
  intros Hflat k v Hk.
  destruct (Hentries k v Hk) as [Hold|(x & Hx & _ & ->)].
  - by eapply Hflat.
  - rewrite Forall_forall in Hdone.
    destruct (Hdone x Hx) as (_ & r & t & ->). apply manifest_entry_flat.
Qed.

(** C6, as amended.  [export] works through exactly the configured
    components whose names the assembly has, in the order of the
    configuration, in one loop, one iteration after the other.  The progress
    counter is set to [i] when the [i]-th of them starts.  An iteration that
    skips its component does nothing else, whether Cancel is pressed or not,
    and the next component follows.  An iteration that does not skip exports
    the mesh and then reads the Cancel flag: when it is set the loop ends
    there, nothing further is processed and the counter stays at [i];
    when it is not set the counter is set to [i + 1] and the next component
    follows.  So the loop ends early only at a component that was exported,
    with the flag set after its export.  When the loop is over the
    progress dialog is hidden and the manifest accumulated so far is written
    to the manifest file. *)
Theorem export_loop_is_sequential main_cfg output_dir root w w' :
  export joinpath py_format main_cfg output_dir root w = (w', Ok tt) →
  ∃ todo version_control version_control' new f,
    select_components (recursiveEnumerateComponents root) (components main_cfg)
    = Ok todo
    ∧ map fst todo
      = filter (fun cfg => found (recursiveEnumerateComponents root) cfg = true)
          (components main_cfg)
    ∧ Forall (paired (recursiveEnumerateComponents root)) todo
    ∧ loaded_manifest joinpath output_dir w = Some version_control
    ∧ let w0 := add_event (ProgressShow (length todo)) w in
      let its := iterations joinpath py_format main_cfg output_dir 0 todo
                   version_control w0 in
      trace w'
      = WriteText (joinpath output_dir version_control_name) version_control'
          :: ProgressHide :: new ++ trace w0
      ∧ trace (default w0 (snd <$> last its)) = new ++ trace w0
      ∧ sequential (target_of joinpath py_format main_cfg output_dir) w 0 todo
          w0 its
      ∧ rev (progress_values new) = progress_script 0 (map fst its)
      ∧ (∀ j ending wj, its !! j = Some (ending, wj) → ending = Break →
           S j = length its)
      ∧ (length its = length todo ∨ ∃ wj, last its = Some (Break, wj))
      ∧ Forall (cancel_seen w) its
      ∧ fs w' !! joinpath output_dir version_control_name = Some f
      ∧ content f = JsonText version_control'
      ∧ (∀ m, version_control = JDict m →
           version_control'
           = JDict (updated py_format main_cfg m
                      (exported joinpath py_format main_cfg output_dir 0 todo
                         version_control w0))).
Proof.
  intros Hrun.
  apply export_Ok_inv in Hrun as (todo & vc & vc' & w1 & Hsel & Hvc & Hloop & ->).
  destruct (select_components_spec _ _ _ Hsel) as [Hmap Hpaired].
  pose proof (export_loop_sequential _ _ _ _ _ _ _ _ Hloop) as Hseq.
  apply export_loop_run in Hloop
    as ((new & Htrace & Hprog & _) & Hupdated & _ & _ & Hbreak & Hlen & Hseen & Hlast).
  eexists todo, vc, vc', new, _. repeat (split; [done|]).
  cbn zeta. cbn [write_text fst fs add_event set_fs trace content].
  split; [by rewrite Htrace|].
  split; [by rewrite <- Hlast|].
  split; [by apply (sequential_host _ w (add_event (ProgressShow (length todo)) w))|].
  repeat (split; [done|]).
  split; [apply lookup_insert_eq|]. split; [done|]. exact Hupdated.
Qed.

End ExportFacts.

(** * More about the export run *)

(** ** Where a run writes *)

Section Confined.

Context {A B : Type} (inside : string → Prop) (quiet : event → Prop).

Lemma confined_pure (f : World → result A) :
  confined inside quiet (fun w => (w, f w)).
Proof.
  intros w w' r [= <- <-]. split; [done|]. exists []. split; [done|constructor].
Qed.

Lemma confined_bind (m : M A) (k : A → M B) :
  confined inside quiet m → (∀ a, confined inside quiet (k a)) →
  confined inside quiet (bind m k).
Proof.
  intros Hm Hk w w' r. unfold bind.
  destruct (m w) as [w1 [a|e]] eqn:Hmw; intros Hrun.
  - destruct (Hm _ _ _ Hmw) as (Hfs1 & new1 & Ht1 & Hq1).
    destruct (Hk a _ _ _ Hrun) as (Hfs2 & new2 & Ht2 & Hq2).
    split; [intros path Hpath; by rewrite Hfs2, Hfs1|].
    exists (new2 ++ new1). split; [by rewrite Ht2, Ht1, app_assoc|].
    by apply Forall_app.
  - injection Hrun as <- <-. by apply (Hm _ _ _ Hmw).
Qed.

End Confined.

Lemma confined_mono {A} (inside inside' : string → Prop)
    (quiet quiet' : event → Prop) (m : M A) :
  (∀ path, inside path → inside' path) →
  (∀ e, quiet e → quiet' e) →
  confined inside quiet m → confined inside' quiet' m.
Proof.
  intros Hin Hq Hm w w' r Hrun.
  destruct (Hm _ _ _ Hrun) as (Hfs & new & Htrace & Hnew).
  split; [intros path Hpath; apply Hfs; naive_solver|].
  exists new. split; [done|]. by eapply Forall_impl.
Qed.

Lemma confined_emit {inside} {quiet : event → Prop} e :
  quiet e → confined inside quiet (emit e).
Proof.
  intros He w w' r [= <- <-]. split; [done|].
  exists [e]. split; [done|by constructor].
Qed.

Lemma confined_unlink {inside : string → Prop} {quiet : event → Prop} path :
  inside path → quiet (Unlink path) → confined inside quiet (unlink path).
Proof.
  intros Hin Hq w w' r. unfold unlink. destruct (fs w !! path).
  - intros [= <- <-]. split.
    + intros p Hp. cbn. apply lookup_delete_ne. by intros ->.
    + exists [Unlink path]. split; [done|by constructor].
  - intros [= <- <-]. split; [done|]. exists []. split; [done|constructor].
Qed.

Lemma confined_write_text {inside : string → Prop} {quiet : event → Prop} path j :
  inside path → quiet (WriteText path j) →
  confined inside quiet (write_text path j).
Proof.
  intros Hin Hq w w' r [= <- <-]. split.
  - intros p Hp. cbn. apply lookup_insert_ne. by intros ->.
  - exists [WriteText path j]. split; [done|by constructor].
Qed.

Lemma confined_read_json {inside} {quiet : event → Prop} path :
  confined inside quiet (read_json path).
Proof.
  intros w w' r. unfold read_json.
  destruct (fs w !! path) as [f|]; [destruct (content f)|];
    intros [= <- <-]; (split; [done|]); exists []; (split; [done|constructor]).
Qed.

Lemma confined_rotate_and_export_at cfg cmp filepath :
  confined (fun path => path = filepath) no_write
    (rotate_and_export cfg cmp filepath).
Proof.
  intros w w' r Hrun.
  destruct (rotate_and_export_outcome _ _ _ _ _ _ Hrun)
    as (_ & Hfs & new & Htrace & Hquiet & _).
  split; [exact Hfs|]. by exists new.
Qed.

Section WhereExportWrites.

Variable joinpath : string → string → string.
Variable py_format : json → string.

(** The paths that are the output directory joined with some name. *)
Let below (output_dir path : string) : Prop := ∃ s, path = joinpath output_dir s.

Lemma confined_rotate_and_export output_dir cfg cmp file_name :
  confined (below output_dir) no_write
    (rotate_and_export cfg cmp (joinpath output_dir file_name)).
Proof.
  eapply confined_mono; [| |apply confined_rotate_and_export_at]; [|done].
  intros path ->. by exists file_name.
Qed.

Ltac confined_step :=
  first
    [ apply confined_rotate_and_export
    | apply confined_emit; exact I
    | apply confined_unlink; [by eexists|exact I]
    | apply confined_read_json
    | apply confined_bind; [|intros ?]
    | apply confined_pure
    | match goal with
      | |- confined _ _ (if ?b then _ else _) => destruct b
      | |- confined _ _ (match ?x with _ => _ end) => destruct x
      end ].

Lemma confined_remove_renamed output_dir old_version filepath :
  confined (below output_dir) no_write
    (remove_renamed joinpath output_dir old_version filepath).
Proof. unfold remove_renamed. repeat confined_step. Qed.

Lemma confined_export_one main_cfg output_dir i cfg cmp version_control :
  confined (below output_dir) no_write
    (export_one joinpath py_format main_cfg output_dir i cfg cmp version_control).
Proof.
  unfold export_one.
  repeat first [apply confined_remove_renamed | confined_step].
Qed.

Lemma confined_export_loop main_cfg output_dir todo :
  ∀ i version_control,
    confined (below output_dir) no_write
      (export_loop joinpath py_format main_cfg output_dir i todo version_control).
Proof.
  induction todo as [|[cfg cmp] todo IH]; intros i version_control;
    cbn [export_loop].
  - apply confined_pure.
  - apply confined_bind; [apply confined_export_one|].
    intros [vc' ending]. cbn [fst snd].
    destruct ending; [apply IH|apply confined_pure|apply IH].
Qed.

(** A computation that adds no text-file write when it raises. *)
Let fails_quietly {A} (m : M A) : Prop :=
  ∀ w w' e, m w = (w', Raise e) →
    ∃ new, trace w' = new ++ trace w ∧ Forall no_write new.

Lemma fails_quietly_bind {A B} inside (m : M A) (k : A → M B) :
  confined inside no_write m → (∀ a, fails_quietly (k a)) →
  fails_quietly (bind m k).
Proof.
  intros Hm Hk w w' e. unfold bind.
  destruct (m w) as [w1 [a|e1]] eqn:Hmw; intros Hrun.
  - destruct (Hm _ _ _ Hmw) as (_ & new1 & Ht1 & Hq1).
    destruct (Hk a _ _ _ Hrun) as (new2 & Ht2 & Hq2).
    exists (new2 ++ new1). split; [by rewrite Ht2, Ht1, app_assoc|].
    by apply Forall_app.
  - injection Hrun as <- <-. by destruct (Hm _ _ _ Hmw) as (_ & Hnew).
Qed.

(** X1. A run of [export] that raises has not written the manifest: the
    history it adds has no writing of a text file, whatever was exported
    before the exception. *)
Theorem failed_export_saves_no_manifest main_cfg output_dir root w w' e :
  export joinpath py_format main_cfg output_dir root w = (w', Raise e) →
  ∃ new, trace w' = new ++ trace w ∧ Forall no_write new.
Proof.
  revert w w' e. change (fails_quietly
    (export joinpath py_format main_cfg output_dir root)).
  unfold export.
  eapply fails_quietly_bind; [apply (confined_pure (below output_dir))|].
  intros todo.
  eapply fails_quietly_bind; [by apply (confined_emit (inside := below output_dir))|].
  intros _.
  eapply fails_quietly_bind; [apply (confined_pure (below output_dir))|].
  intros there.
  eapply fails_quietly_bind.
  { instantiate (1 := below output_dir).
    destruct there; [apply confined_read_json|apply confined_pure]. }
  intros version_control.
  eapply fails_quietly_bind; [apply confined_export_loop|].
  intros version_control'.
  eapply fails_quietly_bind; [by apply (confined_emit (inside := below output_dir))|].
  intros _ w w' e. unfold write_text. discriminate.
Qed.

End WhereExportWrites.

(** ** More on the occurrence counts *)

Section CountedKeys.

Implicit Types (occs : list Occurrence) (rv child : counter) (k parent : string).

Lemma keys_counter_add rv k n k' :
  k' ∈ keys (counter_add rv k n) ↔ k' ∈ keys rv ∨ k' = k.
Proof.
  unfold keys. rewrite counter_add_keys. case_bool_decide as Hin.
  - split; [by left|]. by intros [H| ->].
  - rewrite elem_of_app, list_elem_of_singleton. done.
Qed.

Lemma keys_add_child parent rv child k :
  k ∈ keys (add_child parent rv child) ↔ k ∈ keys rv ∨ k ∈ keys child.
Proof.
  unfold add_child. revert rv.
  induction child as [|[a v] child IH]; intros rv; simpl.
  - split; [by left|]. intros [H|H]; [done|]. by apply not_elem_of_nil in H.
  - rewrite IH, keys_counter_add. unfold keys at 3. cbn [map fst].
    rewrite elem_of_cons. fold (keys child). tauto.
Qed.

Lemma keys_count_direct occs rv k :
  k ∈ keys (fold_left (fun rv occ => counter_add rv (name (component occ)) 1)
              occs rv)
  ↔ k ∈ keys rv ∨ ∃ occ, In occ occs ∧ name (component occ) = k.
Proof.
  revert rv. induction occs as [|o occs IH]; intros rv; simpl.
  - split; [by left|]. by intros [H|(occ & [] & _)].
  - rewrite IH, keys_counter_add. split.
    + intros [[H| ->]|(occ & Hin & Hk)]; [by left| |].
      * right. exists o. by split; [left|].
      * right. exists occ. by split; [right|].
    + intros [H|(occ & [<-|Hin] & Hk)]; [by left; left| |].
      * left. by right.
      * right. by exists occ.
Qed.

Lemma keys_count_nested recur occs rv k :
  k ∈ keys (count_nested recur occs rv)
  ↔ k ∈ keys rv
    ∨ ∃ occ, In occ occs ∧ endswith (occ_name occ) ":1" = true
             ∧ k ∈ keys (recur occ).
Proof.
  unfold count_nested. revert rv.
  induction occs as [|o occs IH]; intros rv; simpl.
  - split; [by left|]. by intros [H|(occ & [] & _)].
  - rewrite IH. destruct (endswith (occ_name o) ":1") eqn:Hrep.
    + rewrite keys_add_child. split.
      * intros [[H|H]|(occ & Hin & Hocc)]; [by left| |].
        -- right. exists o. by split; [left|].
        -- right. exists occ. by split; [right|].
      * intros [H|(occ & [<-|Hin] & Hone & Hk)]; [by left; left| |].
        -- left. by right.
        -- right. by exists occ.
    + split.
      * intros [H|(occ & Hin & Hocc)]; [by left|].
        right. exists occ. by split; [right|].
      * intros [H|(occ & [<-|Hin] & Hone & Hk)]; [by left| |].
        -- congruence.
        -- right. by exists occ.
Qed.

Lemma keys_counted_tree (o : Occurrence) :
  ∀ k, k ∈ keys (count_children o) ↔ counted_in (childOccurrences o) k.
Proof.
  induction o as [n c children IH] using Occurrence_tree_ind.
  intros k. cbn [count_children childOccurrences].
  rewrite keys_count_nested. unfold count_direct. rewrite keys_count_direct.
  rewrite Forall_forall in IH. split.
  - intros [[H|(occ & Hin & <-)]|(occ & Hin & Hone & Hk)].
    + by apply not_elem_of_nil in H.
    + by apply counted_direct.
    + apply (counted_below _ occ); [done|done|].
      by apply (IH occ (proj2 (list_elem_of_In _ _) Hin)).
  - intros Hk. inversion Hk as [? occ Hin|? occ ? Hin Hone Hbelow]; subst.
    + left. right. by exists occ.
    + right. exists occ. split; [done|]. split; [done|].
      by apply (IH occ (proj2 (list_elem_of_In _ _) Hin)).
Qed.

(** X3. The keys of [recursiveCountOccurences] are the names of the
    components that have an occurrence in the list or are counted below an
    occurrence of the list named [...:1]: what lies below an occurrence with
    another number only is not a key. *)
Theorem recursiveCountOccurences_keys occs k :
  k ∈ keys (recursiveCountOccurences occs) ↔ counted_in occs k.
Proof.
  exact (keys_counted_tree (mkOccurrence ":1" (mkComponent "" [] []) occs) k).
Qed.

Lemma counted_in_reaches occs k :
  counted_in occs k →
  ∃ occ c, In occ occs ∧ reaches_from occ c ∧ name c = k.
Proof.
  induction 1 as [occs occ Hin|occs occ k Hin _ _ (child & c & Hchild & Hc & Hk)].
  - exists occ, (component occ). split; [done|]. split; [apply reaches_own|done].
  - exists occ, c. split; [done|]. split; [|done].
    by apply (reaches_below occ child).
Qed.

Lemma counted_in_enumerated (root_comp : Component) k :
  counted_in (occurrences root_comp) k →
  ∃ c, recursiveEnumerateComponents (RootComponent root_comp) !! k = Some c
       ∧ name c = k.
Proof.
  intros Hk.
  destruct (counted_in_reaches _ _ Hk) as (occ & c & Hin & Hc & <-).
  assert (Hsome : is_Some (recursiveEnumerateComponents (RootComponent root_comp)
                             !! name c)).
  { cbn [recursiveEnumerateComponents].
    eapply visit_adds_keys; [exact Hin|]. by apply enumerate_occurrence_complete. }
  destruct Hsome as [c' Hc'].
  exists c'. split; [done|]. by apply recursiveEnumerateComponents_names in Hc'.
Qed.

(** X4. Every name that [on_create] counts from the occurrences of the root
    component, and so every name [ExportConfig.generate] lists, is a key of
    [recursiveEnumerateComponents] for that root: [export] finds a component
    under it. *)
Theorem counted_names_are_enumerated (root_comp : Component) k :
  k ∈ keys (recursiveCountOccurences (occurrences root_comp)) →
  ∃ c, recursiveEnumerateComponents (RootComponent root_comp) !! k = Some c
       ∧ name c = k.
Proof.
  intros Hk. apply counted_in_enumerated.
  exact (proj1 (keys_counted_tree
                  (mkOccurrence ":1" (mkComponent "" [] []) (occurrences root_comp)) k)
           Hk).
Qed.

Let positive rv : Prop := Forall (fun kc => 1 ≤ kc.2) rv.

Lemma counter_add_positive rv k n :
  positive rv → 1 ≤ n → positive (counter_add rv k n).
Proof.
  unfold positive. intros Hrv Hn.
  induction Hrv as [|[a v] rv Hv Hrest IH]; simpl.
  - by apply List.Forall_cons; [|apply List.Forall_nil].
  - destruct (String.eqb a k).
    + apply List.Forall_cons; [simpl in *; lia|done].
    + by apply List.Forall_cons.
Qed.

Lemma counter_get_positive rv k :
  positive rv → k ∈ keys rv → 1 ≤ counter_get rv k.
Proof.
  unfold positive, keys. intros Hrv.
  induction Hrv as [|[a v] rv Hv _ IH]; simpl.
  - intros H. by apply not_elem_of_nil in H.
  - rewrite elem_of_cons. destruct (String.eqb_spec a k) as [->|Hne]; [done|].
    intros [->|Hin]; [done|by apply IH].
Qed.

Lemma add_child_positive parent rv child :
  positive rv → positive child → parent ∈ keys rv →
  positive (add_child parent rv child).
Proof.
  unfold add_child. intros Hrv Hchild. revert rv Hrv.
  induction Hchild as [|[a v] child Hv _ IH]; intros rv Hrv Hparent; simpl; [done|].
  apply IH.
  - apply counter_add_positive; [done|].
    pose proof (counter_get_positive rv parent Hrv Hparent). simpl in Hv. nia.
  - apply keys_counter_add. by left.
Qed.

Lemma count_nested_positive recur occs rv :
  positive rv →
  (∀ occ, In occ occs → name (component occ) ∈ keys rv) →
  (∀ occ, In occ occs → positive (recur occ)) →
  positive (count_nested recur occs rv).
Proof.
  unfold count_nested. revert rv.
  induction occs as [|o occs IH]; intros rv Hrv Hparents Hrecur; simpl; [done|].
  apply IH.
  - destruct (endswith (occ_name o) ":1"); [|done].
    apply add_child_positive; [done|apply Hrecur; by left|apply Hparents; by left].
  - intros occ Hin. destruct (endswith (occ_name o) ":1").
    + apply keys_add_child. left. apply Hparents. by right.
    + apply Hparents. by right.
  - intros occ Hin. apply Hrecur. by right.
Qed.

Lemma count_direct_positive occs rv :
  positive rv →
  positive (fold_left (fun rv occ => counter_add rv (name (component occ)) 1)
              occs rv).
Proof.
  revert rv. induction occs as [|o occs IH]; intros rv Hrv; simpl; [done|].
  apply IH. by apply counter_add_positive.
Qed.

Lemma count_children_positive (o : Occurrence) : positive (count_children o).
Proof.
  induction o as [n c children IH] using Occurrence_tree_ind.
  cbn [count_children]. apply count_nested_positive.
  - apply count_direct_positive. apply List.Forall_nil.
  - intros occ Hin. unfold count_direct. apply keys_count_direct.
    right. by exists occ.
  - intros occ Hin. rewrite Forall_forall in IH.
    by apply IH, list_elem_of_In.
Qed.

Lemma add_child_grows parent rv child k :
  positive rv → positive child → parent ∈ keys rv →
  counter_get rv k ≤ counter_get (add_child parent rv child) k.
Proof.
  unfold add_child. intros Hrv Hchild. revert rv Hrv.
  induction Hchild as [|[a v] child Hv _ IH]; intros rv Hrv Hparent; simpl; [lia|].
  pose proof (counter_get_positive rv parent Hrv Hparent) as Hmul. simpl in Hv.
  etrans; [|apply IH].
  - rewrite counter_get_add. case_decide; nia.
  - apply counter_add_positive; [done|nia].
  - apply keys_counter_add. by left.
Qed.

Lemma count_nested_grows recur occs rv k :
  positive rv →
  (∀ occ, In occ occs → name (component occ) ∈ keys rv) →
  (∀ occ, In occ occs → positive (recur occ)) →
  counter_get rv k ≤ counter_get (count_nested recur occs rv) k.
Proof.
  unfold count_nested. revert rv.
  induction occs as [|o occs IH]; intros rv Hrv Hparents Hrecur; simpl; [lia|].
  assert (Ho : positive (recur o)) by (apply Hrecur; by left).
  assert (Hown : name (component o) ∈ keys rv) by (apply Hparents; by left).
  etrans; [|apply IH].
  - destruct (endswith (occ_name o) ":1"); [by apply add_child_grows|lia].
  - destruct (endswith (occ_name o) ":1"); [by apply add_child_positive|done].
  - intros occ Hin. destruct (endswith (occ_name o) ":1").
    + apply keys_add_child. left. apply Hparents. by right.
    + apply Hparents. by right.
  - intros occ Hin. apply Hrecur. by right.
Qed.

Lemma counter_lookup_Some rv k n :
  counter_lookup rv k = Some n → k ∈ keys rv ∧ counter_get rv k = n.
Proof.
  unfold keys. induction rv as [|[a v] rv IH]; simpl; [done|].
  destruct (String.eqb_spec a k) as [->|Hne].
  - intros [= ->]. split; [left|done].
  - intros Hk. destruct (IH Hk) as [Hin Hget]. split; [by right|done].
Qed.

(** X5. A count that [recursiveCountOccurences] stores is at least 1, and at
    least the number of occurrences of the component in the list itself:
    merging the sub-trees only adds to it. *)
Theorem recursiveCountOccurences_at_least_direct occs k n :
  counter_lookup (recursiveCountOccurences occs) k = Some n →
  1 ≤ n ∧ direct_count occs k ≤ n.
Proof.
  intros Hk. apply counter_lookup_Some in Hk as [Hin <-].
  pose proof (count_children_positive
                (mkOccurrence ":1" (mkComponent "" [] []) occs)) as Hpos.
  cbn [count_children] in Hpos.
  split; [by apply counter_get_positive|].
  rewrite <- count_direct_get. unfold recursiveCountOccurences.
  apply count_nested_grows.
  - apply count_direct_positive. apply List.Forall_nil.
  - intros occ Hocc. unfold count_direct. apply keys_count_direct.
    right. by exists occ.
  - intros occ _. apply count_children_positive.
Qed.

End CountedKeys.

(** ** More on the export run *)

Section RunEdges.

Variable joinpath : string → string → string.
Variable py_format : json → string.

Lemma select_components_none all_components cfgs :
  Forall (fun cfg => lookup_component all_components (cfg_name cfg) = Ok None) cfgs →
  select_components all_components cfgs = Ok [].
Proof.
  induction 1 as [|cfg cfgs Hcfg _ IH]; [done|].
  cbn [select_components]. by rewrite Hcfg, IH.
Qed.

(** X6. When the assembly has none of the configured components, [export]
    exports nothing and still returns: the dialog opens with the maximum 0
    and closes, and the manifest file is written with what it held, or is
    created holding the empty dict. *)
Theorem export_nothing_to_do main_cfg output_dir root w version_control :
  Forall (fun cfg =>
            lookup_component (recursiveEnumerateComponents root) (cfg_name cfg)
            = Ok None) (components main_cfg) →
  loaded_manifest joinpath output_dir w = Some version_control →
  let path := joinpath output_dir version_control_name in
  ∃ w',
    export joinpath py_format main_cfg output_dir root w = (w', Ok tt)
    ∧ trace w'
      = [WriteText path version_control; ProgressHide; ProgressShow 0] ++ trace w
    ∧ fs w'
      = <[path := {| content := JsonText version_control;
                     mtime := clock w (ProgressHide :: ProgressShow 0 :: trace w) |}]>
          (fs w)
    ∧ moveFeatures w' = moveFeatures w.
Proof.
  intros Hnone Hloaded path. unfold export, bind, lift.
  rewrite (select_components_none _ _ Hnone). cbn [length emit].
  unfold path_exists, loaded_manifest in *. cbn [add_event fs].
  fold path in Hloaded |- *.
  destruct (fs w !! path) as [f|] eqn:Hfile.
  - rewrite bool_decide_eq_true_2 by (by eexists).
    unfold read_json. cbn [add_event fs]. rewrite Hfile.
    destruct (content f) as [j| |]; simplify_eq.
    cbn. eexists. split; [reflexivity|]. by repeat split.
  - rewrite bool_decide_eq_false_2 by (by intros [? [=]]).
    injection Hloaded as <-. cbn. eexists. split; [reflexivity|]. by repeat split.
Qed.

Lemma select_components_unhashable all_components cfgs cfg :
  cfg ∈ cfgs →
  match cfg_name cfg with JList _ | JDict _ => True | _ => False end →
  select_components all_components cfgs = Raise TypeError.
Proof.
  intros Hin Hname. induction cfgs as [|c cfgs IH]; [by apply not_elem_of_nil in Hin|].
  cbn [select_components].
  destruct (lookup_component all_components (cfg_name c)) as [hit|e] eqn:Hc.
  - apply elem_of_cons in Hin as [->|Hin].
    { by destruct (cfg_name c). }
    rewrite (IH Hin). done.
  - cbn [rbind]. f_equal. unfold lookup_component in Hc.
    by destruct (cfg_name c); simplify_eq.
Qed.

(** X7. A configured component whose name is a JSON list or object cannot be
    looked up in the dictionary of components: [export] raises [TypeError]
    before the dialog opens and before any file is touched. *)
Theorem export_unhashable_name main_cfg output_dir root w cfg :
  cfg ∈ components main_cfg →
  match cfg_name cfg with JList _ | JDict _ => True | _ => False end →
  export joinpath py_format main_cfg output_dir root w = (w, Raise TypeError).
Proof.
  intros Hin Hname. unfold export, bind, lift.
  by rewrite (select_components_unhashable _ _ cfg Hin Hname).
Qed.

Lemma export_one_entry_time main_cfg output_dir i cfg cmp version_control w w'
    version_control' ending :
  export_one joinpath py_format main_cfg output_dir i cfg cmp version_control w
  = (w', Ok (version_control', ending)) →
  ending ≠ Continue →
  ∃ file_key file_name m revision history,
    file_names py_format main_cfg cfg = Ok (file_key, file_name)
    ∧ version_control = JDict m
    ∧ valid_up cfg = true
    ∧ version_control'
      = JDict (<[file_key := manifest_entry (name cmp)
                   (joinpath output_dir file_name) revision (root_comp_name w)
                   (clock w history)]> m).
Proof.
  rewrite export_one_unfold. cbn zeta.
  destruct (file_names py_format main_cfg cfg) as [[file_key file_name]|]; [|done].
  cbn [fst snd].
  destruct version_control as [| | | | | |m]; try done.
  cbn [dict_get].
  set (old := default JNull (m !! file_key)).
  set (w1 := progressed i w).
  destruct (if is_none old then Ok false else _) as [[]|]; [by intros [= <- <- <-]| |done].
  intros Hrun Hend.
  assert (Hw2 : ∀ w2 (u : unit),
    (if is_none old then (w1, Ok tt)
     else remove_renamed joinpath output_dir old (joinpath output_dir file_name) w1)
    = (w2, Ok u) →
    clock w2 = clock w ∧ root_comp_name w2 = root_comp_name w).
  { intros w2 u. destruct (is_none old).
    - by intros [= <- _].
    - intros Hrem. by apply remove_renamed_inv in Hrem as [->|[p ->]]. }
  destruct (if is_none old then _ else _) as [w2 [u|]]; [|done].
  destruct (Hw2 w2 u eq_refl) as [Hclock Hdoc].
  cbn [setitem] in Hrun.
  destruct (rotate_and_export cfg cmp (joinpath output_dir file_name) w2)
    as [w3 [u3|]] eqn:Hrot; [|done].
  apply rotate_and_export_inv in Hrot as (Hvalid & _).
  exists file_key, file_name, m, (revision_of w2 (trace w2) cmp), (trace w2).
  rewrite <- Hclock, <- Hdoc.
  by destruct (cancel_pressed w3 (trace w3)); injection Hrun as <- <- <-.
Qed.

(** X9. Running [export] again does not skip what it has just exported.
    When the clock of a run is never before the modification time of the
    configuration file (the file was last written before the run), a
    component that the run exports is exported again by any later iteration
    for it under the same configuration, in whatever state the directory and
    the design are, the host making the directory and exporting the mesh as
    it did the first time: skipping takes a configuration file modified
    after the export. *)
Theorem export_repeats_without_config_change main_cfg output_dir i j cfg cmp
    version_control w w1 version_control1 ending w2 :
  export_one joinpath py_format main_cfg output_dir i cfg cmp version_control w
  = (w1, Ok (version_control1, ending)) →
  ending ≠ Continue →
  (∀ t history, modified main_cfg = Some t → String.ltb (clock w history) t = false) →
  host_obliging w2 →
  ∃ w3 version_control3 ending',
    export_one joinpath py_format main_cfg output_dir j cfg cmp version_control1 w2
    = (w3, Ok (version_control3, ending'))
    ∧ ending' ≠ Continue.
Proof.
  intros Hrun Hend Hclock Hhost.
  destruct (export_one_entry_time _ _ _ _ _ _ _ _ _ _ Hrun Hend)
    as (file_key & file_name & m & revision & history & Hnames & -> & Hvalid & ->).
  eapply export_one_exports; [exact Hnames| | |exact Hvalid|exact Hhost].
  - intros (e & changed & t & Hentry & _ & _ & _ & Hmod & Hchanged & Hlt).
    rewrite lookup_insert_eq in Hentry. injection Hentry as <-.
    rewrite lookup_insert_eq in Hchanged. injection Hchanged as <-.
    by rewrite (Hclock t history Hmod) in Hlt.
  - rewrite lookup_insert_eq. right. apply manifest_entry_flat.
Qed.



End RunEdges.

(** ** More on the file names *)

Lemma substring_append_left (base ext : string) :
  substring 0 (String.length base) (base +:+ ext) = base.
Proof.
  induction base as [|c base IH]; simpl.
  - by destruct ext.
  - by rewrite IH.
Qed.

Lemma substring_whole (s : string) : substring 0 (String.length s) s = s.
Proof. induction s as [|c s IH]; simpl; [done|by rewrite IH]. Qed.

Lemma substring_append_right (base ext : string) :
  substring (String.length base) (String.length ext) (base +:+ ext) = ext.
Proof.
  induction base as [|c base IH]; simpl; [apply substring_whole|exact IH].
Qed.

Lemma endswith_append (base ext : string) : endswith (base +:+ ext) ext = true.
Proof.
  unfold endswith. rewrite append_length.
  replace (String.length base + String.length ext - String.length ext)%nat
    with (String.length base) by lia.
  rewrite substring_append_right, String.eqb_refl, andb_true_r.
  apply Nat.leb_le. lia.
Qed.

Lemma drop_last_append (base ext : string) :
  ext ≠ "" → drop_last (String.length ext) (base +:+ ext) = base.
Proof.
  intros Hext. unfold drop_last.
  destruct (String.length ext) as [|k] eqn:Hlen; [by destruct ext|].
  rewrite <- Hlen, append_length.
  replace (String.length base + String.length ext - String.length ext)%nat
    with (String.length base) by lia.
  apply substring_append_left.
Qed.

Section FileNames.

Variable py_format : json → string.

(** X8. When the configured name ends with the extension, the extension is
    cut off and nothing else: of [part.stl] the key is [part.], with the
    dot, and the file written is [part..stl]. *)
Theorem file_names_extension_in_name main_cfg cfg (base ext : string) :
  cfg_to cfg = JStr (base +:+ ext) →
  py_or (cfg_fmt cfg) (fmt main_cfg) = JStr ext →
  ext ≠ "" →
  file_names py_format main_cfg cfg
  = Ok (base,
        (if is_none (cfg_count cfg) then base
         else base +:+ "_x" +:+ py_format (cfg_count cfg)) +:+ "." +:+ ext).
Proof.
  intros Hto Hext Hne. unfold file_names. rewrite Hto, Hext.
  rewrite endswith_append, drop_last_append by done.
  by destruct (is_none (cfg_count cfg)).
Qed.

End FileNames.

(** ** More on the configuration file *)

Section ConfigEdges.

Variable int_of_str : string → option Z.
Variable sorted_by_name : list json → result (list json).

(** X11. [emit_file] writes a file only for a configuration without
    components, and then [parse_file] reads the configuration back, with the
    time of writing as its modification time; with a component, [to_dict]
    raises [AttributeError] and nothing is written. *)
Theorem emit_file_round_trip (config : ExportConfig) (filename : string)
    (w : World) (counts : option counter) :
  sorted_by_name [] = Ok [] →
  let run := emit_file sorted_by_name filename config w in
  (components config ≠ [] → run = (w, Raise AttributeError))
  ∧ (components config = [] →
       run.2 = Ok tt
       ∧ parse_file int_of_str run.1 filename counts
         = Ok {| fmt := fmt config; components := [];
                 modified := Some (clock w (trace w)) |}).
Proof.
  intros Hsorted run. split.
  - apply emit_file_raises.
  - intros Hnone. unfold run, emit_file, bind, lift. rewrite Hnone.
    cbn [map_result]. rewrite Hsorted. unfold write_text. cbn [fst snd].
    split; [done|]. unfold parse_file. cbn [add_event set_fs fs].
    rewrite lookup_insert_eq. cbn [content mtime dict_get].
    assert (Hv : (<["components" := JList []]>
                    (<["fmt" := fmt config]> (<["v" := JInt 1]> ∅)) : gmap string json)
                 !! "v" = Some (JInt 1)).
    { rewrite lookup_insert_ne by done. rewrite lookup_insert_ne by done.
      apply lookup_insert_eq. }
    assert (Hfmt : (<["components" := JList []]>
                      (<["fmt" := fmt config]> (<["v" := JInt 1]> ∅)) : gmap string json)
                   !! "fmt" = Some (fmt config)).
    { rewrite lookup_insert_ne by done. apply lookup_insert_eq. }
    rewrite Hv, Hfmt, lookup_insert_eq. done.
Qed.

(** X12. [parse_file] does not return a configuration for a version-1 file
    that lists a component which is not a JSON object or has a field other
    than [name], [to], [up], [fmt] and [count]: the constructor raises
    [TypeError], wherever in the list the component stands. *)
Theorem parse_file_rejects_component (w : World) (filename : string)
    (counts : option counter) (f : file) (d : gmap string json)
    (items : list json) (item : json) :
  fs w !! filename = Some f →
  content f = JsonText (JDict d) →
  py_int int_of_str (default (JInt 0) (d !! "v")) = Ok 1 →
  default (JList []) (d !! "components") = JList items →
  item ∈ items →
  match item with
  | JDict kw => ¬ dom kw ⊆ component_fields
  | _ => True
  end →
  parse_file int_of_str w filename counts = Raise TypeError.
Proof.
  intros Hfile Hcontent Hversion Hlisted Hin Hbad.
  unfold parse_file. rewrite Hfile, Hcontent. cbn [dict_get rbind].
  rewrite Hversion. cbn [rbind Z.eqb Pos.eqb]. rewrite Hlisted. cbn [py_iter rbind].
  rewrite (map_result_parse_raises counts items item TypeError Hin); [done|].
  destruct item as [| | | | | |kw]; try done.
  cbn [parse_component]. by rewrite bool_decide_eq_false_2.
Qed.

End ConfigEdges.

(** ** The generated configuration *)

Lemma contains_char_replace (c new : ascii) (s : string) :
  new ≠ c → contains_char c (replace_char c new s) = false.
Proof.
  intros Hne. induction s as [|x s IH]; [done|].
  cbn [replace_char contains_char]. rewrite IH, orb_false_r.
  destruct (Ascii.eqb_spec x c) as [->|Hx]; by apply Ascii.eqb_neq.
Qed.

Lemma contains_char_substring (c : ascii) (s : string) :
  contains_char c s = false →
  ∀ n m, contains_char c (substring n m s) = false.
Proof.
  induction s as [|x s IH]; intros Hs n m.
  - by destruct n, m.
  - cbn [contains_char] in Hs. apply orb_false_iff in Hs as [Hx Hs].
    destruct n as [|n]; destruct m as [|m]; cbn [substring contains_char];
      rewrite ?Hx, ?IH; done.
Qed.

Lemma contains_char_drop_last (c : ascii) (s : string) (k : nat) :
  contains_char c s = false → contains_char c (drop_last k s) = false.
Proof.
  intros Hs. destruct k; [done|]. by apply contains_char_substring.
Qed.

Section Generated.

Variable lower : string → string.
Variable py_format : json → string.

(** X13. For every component of a configuration that
    [ExportConfig.generate] makes, the file name is found without an
    exception: it is the key followed by [.stl], and the key has no space
    (and is the lower-case name with [_] for every space, unless that ends
    in [stl]). *)
Theorem generate_file_names (component_names : list string)
    (cfg : ComponentExportConfig) :
  cfg ∈ components (generate lower component_names) →
  ∃ cmp key,
    cmp ∈ component_names
    ∧ cfg_name cfg = JStr cmp
    ∧ file_names py_format (generate lower component_names) cfg
      = Ok (key, key +:+ ".stl")
    ∧ contains_char " " key = false
    ∧ (endswith (replace_char " " "_" (lower cmp)) "stl" = false →
       key = replace_char " " "_" (lower cmp)).
Proof.
  cbn [generate components]. intros Hin.
  apply list_elem_of_fmap in Hin as (cmp & -> & Hcmp).
  assert (Hto : contains_char " " (replace_char " " "_" (lower cmp)) = false)
    by by apply contains_char_replace.
  unfold file_names.
  cbn [generate cfg_to cfg_fmt cfg_count cfg_name fmt py_or truthy is_none negb].
  cbn zeta.
  destruct (endswith (replace_char " " "_" (lower cmp)) "stl") eqn:Hends.
  - eexists cmp, _. split; [done|]. split; [done|]. split; [reflexivity|].
    split; [by apply contains_char_drop_last|congruence].
  - eexists cmp, _. split; [done|]. split; [done|]. split; [reflexivity|]. done.
Qed.

(** X14. The configuration generated from the names counted in the
    occurrences of the root component is exported in full when the root
    component is selected: [export]'s first loop finds a component for every
    generated entry, in order, and the component has the entry's name. *)
Theorem generated_components_are_selected (root_comp : Component) :
  let generated :=
    generate lower (keys (recursiveCountOccurences (occurrences root_comp))) in
  ∃ todo,
    select_components (recursiveEnumerateComponents (RootComponent root_comp))
      (components generated) = Ok todo
    ∧ map fst todo = components generated
    ∧ Forall (fun pair => cfg_name pair.1 = JStr (name pair.2)) todo.
Proof.
  cbn zeta. cbn [generate components].
  assert (Hall : ∀ k, k ∈ keys (recursiveCountOccurences (occurrences root_comp)) →
            ∃ c, recursiveEnumerateComponents (RootComponent root_comp) !! k = Some c
                 ∧ name c = k).
  { intros k Hk. apply counted_in_enumerated.
    exact (proj1 (keys_counted_tree
                    (mkOccurrence ":1" (mkComponent "" [] []) (occurrences root_comp)) k)
             Hk). }
  induction (keys (recursiveCountOccurences (occurrences root_comp)))
    as [|k ks IH].
  - exists []. by repeat split.
  - destruct IH as (todo & Hsel & Hmap & Hnames).
    { intros k' Hk'. apply Hall. by right. }
    destruct (Hall k) as (c & Hc & Hname); [left|].
    eexists ((_, c) :: todo). cbn [map select_components cfg_name lookup_component].
    rewrite Hc. cbn [rbind]. rewrite Hsel. cbn [rbind].
    split; [reflexivity|]. cbn [map fst]. split; [by rewrite Hmap|].
    apply List.Forall_cons; [by cbn; rewrite Hname|done].
Qed.

End Generated.

(** ** The command *)

Section CommandFacts.

Variable int_of_str : string → option Z.
Variable sorted_by_name : list json → result (list json).
Variable joinpath : string → string → string.
Variable py_format : json → string.
Variable lower : string → string.
Variable path_str : string → string.

Let run := on_execute int_of_str sorted_by_name joinpath py_format lower path_str.

(** X15. The first run in a directory, with an occurrence or a component
    selected.  When the design has components, [on_execute] cannot make the
    configuration file: [emit_file] raises [AttributeError], no file is
    written, the message about the new file is not shown, and only the
    settings have been updated.  For a design without components the file is
    written, with version 1, the format [stl] and no components, and the
    message is shown. *)
Theorem on_execute_first_run (dir_selected : string) (sel_obj : Entity)
    (component_counts : counter) (s : Session) (root : Root) :
  root_of sel_obj = Some root →
  fs (host s) !! joinpath (path_str dir_selected) config_file_name = None →
  let output_dir := path_str dir_selected in
  let after := (run dir_selected sel_obj component_counts s).1 in
  let remembered :=
    JDict (<["last_selection" := JStr (selection_name sel_obj)]>
             (<["last_dir" := JStr output_dir]> ∅)) in
  get_settings after = remembered
  ∧ (component_counts ≠ [] →
       (run dir_selected sel_obj component_counts s).2 = Raise AttributeError
       ∧ host after = host s
       ∧ calls after = MakeDirs output_dir :: calls s)
  ∧ (component_counts = [] → sorted_by_name [] = Ok [] →
       (run dir_selected sel_obj component_counts s).2 = Ok tt
       ∧ (∃ f, fs (host after) !! joinpath output_dir config_file_name = Some f
               ∧ content f
                 = JsonText (JDict (<["components" := JList []]>
                                      (<["fmt" := JStr "stl"]>
                                         (<["v" := JInt 1]> ∅)))))
       ∧ calls after
         = [MessageBox "Created new export configuration file. Please edit it and run this script again.";
            MakeDirs output_dir] ++ calls s).
Proof.
  intros Hroot Hfile output_dir after remembered.
  unfold after, run, on_execute. rewrite Hroot. cbn zeta.
  cbn [update_settings add_call host]. rewrite Hfile.
  rewrite bool_decide_eq_false_2 by (by intros [? [=]]). cbn [negb].
  assert (Hget : ∀ w config s0,
    get_settings (with_host w (update_settings config s0)) = JDict config
    ∧ ∀ c, get_settings (add_call c (with_host w (update_settings config s0)))
           = JDict config).
  { intros w config s0. unfold get_settings.
    cbn [with_host add_call update_settings stored_settings document_name].
    by rewrite lookup_insert_eq. }
  destruct component_counts as [|kc rest].
  - unfold emit_file, bind, lift.
    cbn [keys map generate components fmt map_result].
    destruct (sorted_by_name []) as [sorted|e] eqn:Hsorted;
      cbn [write_text fst snd]; (split; [apply Hget|]); (split; [done|]);
      intros _ [= <-].
    cbn [with_host add_call update_settings host calls set_fs add_event fs].
    split; [done|]. split; [|done].
    eexists. split; [apply lookup_insert_eq|done].
  - rewrite emit_file_raises by done. cbn [fst snd].
    split; [apply Hget|]. split; [done|]. intros [=].
Qed.

End CommandFacts.

(** * The statements at concrete inputs *)

(** ** The assembly *)

(** The enumeration of the example design has [Plate], which has two
    occurrences and a name of its own. *)
Lemma recursiveEnumerateComponents_by_name_witness :
  recursiveEnumerateComponents design_root !! "Plate" = Some plate.
Proof.
  destruct (recursiveEnumerateComponents_by_name design_root)
    as (_ & _ & Hone & _).
  apply (Hone plate).
  - right. exists (occurrence_of "Plate:1" plate).
    split; [right; left; reflexivity|apply (reaches_own (occurrence_of "Plate:1" plate))].
  - intros c' [->|(occ & Hin & Hreach)] Hname; [discriminate Hname|].
    destruct Hin as [<-|[<-|[<-|[]]]];
      inversion Hreach as [|? child ? Hchild]; subst; cbn in *.
    all: try reflexivity. all: try discriminate Hname. all: destruct Hchild.
Defined.

(** C4 as stated fails.  The component [Part] has, below it, an occurrence
    of another component that is also called [Part].  The traversal stores
    the root's component under ["Part"] and then the other one, which
    replaces it: the dictionary does not contain the root's component. *)
Lemma shadowed_root_is_not_enumerated :
  root_component (RootOccurrence (occurrence_of "Part:1" outer_part)) = outer_part
  ∧ recursiveEnumerateComponents (RootOccurrence (occurrence_of "Part:1" outer_part))
    = {[ "Part" := inner_part ]}
  ∧ inner_part ≠ outer_part
  ∧ ∀ k c,
      recursiveEnumerateComponents (RootOccurrence (occurrence_of "Part:1" outer_part))
        !! k = Some c →
      c ≠ outer_part.
Proof.
  assert (Hrv : recursiveEnumerateComponents
                  (RootOccurrence (occurrence_of "Part:1" outer_part))
                = {[ "Part" := inner_part ]}).
  { vm_compute. reflexivity. }
  split; [reflexivity|]. split; [exact Hrv|]. split; [discriminate|].
  intros k c. rewrite Hrv. intros Hk.
  apply lookup_singleton_Some in Hk as [_ <-]. discriminate.
Qed.

(** C10 as stated fails.  In [nested_twice] the component [C] is below the
    first occurrence of [B], and [B] has one direct occurrence; with the
    direct occurrence count as multiplier [C] would count 1, but the code has
    already added the occurrence of [B] inside [A:1] to [B]'s count when it
    merges the sub-tree of [B:1], and gives [C] the count 2. *)
Lemma count_uses_accumulated_multiplier :
  counter_get (recursiveCountOccurences nested_twice) "C" = 2
  ∧ multiplied_by_direct nested_twice "C" = 1
  ∧ counter_get (recursiveCountOccurences nested_twice) "C"
    ≠ multiplied_by_direct nested_twice "C".
Proof. split; [reflexivity|]. split; [reflexivity|]. discriminate. Qed.

(** In [nested_twice] no component lies below its own first occurrence,
    and the rule with the accumulated multiplier gives [C] the count 2. *)
Lemma recursiveCountOccurences_multiplies_witness :
  not_self_nested nested_twice = true
  ∧ counter_get (recursiveCountOccurences nested_twice) "C"
    = multiplied_accumulated nested_twice "C"
  ∧ multiplied_accumulated nested_twice "C" = 2.
Proof.
  split; [reflexivity|].
  split; [|reflexivity].
  exact (proj1 (recursiveCountOccurences_multiplies nested_twice) eq_refl "C").
Defined.

(** ** The configuration file *)

(** C8: the code fails where the claim holds.  Writing the configuration
    that [ExportConfig.generate] makes for a design with one component raises
    [AttributeError] in [to_dict], which reads the attribute [orientation]
    that the class does not have, and no file is written; there is nothing
    to read back. *)
Theorem emit_file_fails_on_generated_config :
  emit_file sorted_short "out/export_for_printing.json" generated_config fresh_world
  = (fresh_world, Raise AttributeError)
  ∧ parse_file int_of_digits fresh_world "out/export_for_printing.json" None
    = Raise FileNotFoundError.
Proof. split; reflexivity. Qed.

(** C9 as stated fails.  A file that gives its version as the string ["1"],
    or as the number [1.5], has a ['v'] that differs from 1, and is parsed
    without an error. *)
Lemma parse_file_accepts_other_versions :
  JStr "1" ≠ JInt 1
  ∧ parse_file int_of_digits
      (configured_world (config_with_version (JStr "1") [bracket_entry]))
      "out/export_for_printing.json" None
    = Ok {| fmt := JNull; components := [bracket_cfg];
            modified := Some "2026-01-02T10:00:00" |}
  ∧ JFloat one_and_a_half ≠ JInt 1
  ∧ parse_file int_of_digits
      (configured_world (config_with_version (JFloat one_and_a_half) [bracket_entry]))
      "out/export_for_printing.json" None
    = Ok {| fmt := JNull; components := [bracket_cfg];
            modified := Some "2026-01-02T10:00:00" |}.
Proof. split; [discriminate|]. split; [reflexivity|]. split; [discriminate|reflexivity]. Qed.

(** A version-1 file listing [Bracket] without a count, read with counts
    that give [Bracket] three occurrences. *)
Lemma parse_file_version_witness :
  fs (configured_world (config_with_version (JInt 1) [bracket_entry]))
    !! "out/export_for_printing.json"
  = Some (json_file (config_with_version (JInt 1) [bracket_entry])
            "2026-01-02T10:00:00")
  ∧ ∃ cfg,
      parse_file int_of_digits
        (configured_world (config_with_version (JInt 1) [bracket_entry]))
        "out/export_for_printing.json" (Some [("Bracket", 3)])
      = Ok cfg
      ∧ Forall2 (listed (Some [("Bracket", 3)])) [bracket_entry] (components cfg).
Proof.
  split; [reflexivity|].
  destruct (parse_file_version int_of_digits
              (configured_world (config_with_version (JInt 1) [bracket_entry]))
              "out/export_for_printing.json" (Some [("Bracket", 3)])
              (json_file (config_with_version (JInt 1) [bracket_entry])
                 "2026-01-02T10:00:00")
              (<["components" := JList [bracket_entry]]> (<["v" := JInt 1]> ∅))
              eq_refl eq_refl)
    as (_ & _ & _ & Hparse).
  destruct (proj1 (Hparse [bracket_entry] eq_refl eq_refl)
              (@List.Forall_cons _ _ bracket_entry [] eq_refl (@List.Forall_nil _ _)))
    as (cfg & Hcfg & _ & _ & Hlisted).
  exists cfg. split; [exact Hcfg|exact Hlisted].
Defined.

(** ** The export run *)



(** C5 as stated fails.  In a fresh directory [Bracket] is written to the
    file [bracket.stl], and its entry is stored under the key [bracket]:
    the manifest has nothing under the file's name or path. *)
Lemma key_is_not_the_file_name :
  (export join_slash format_scalar (config_of [bracket_cfg]) "out"
     design_root fresh_world).2 = Ok tt
  ∧ exported_meshes
      (trace (export join_slash format_scalar (config_of [bracket_cfg]) "out"
                design_root fresh_world).1)
    = [("Bracket", "out/bracket.stl")]
  ∧ stored (saved_manifest
              (export join_slash format_scalar (config_of [bracket_cfg]) "out"
                 design_root fresh_world).1) "bracket"
    = manifest_entry "Bracket" "out/bracket.stl" "rev-7" "Assembly v3"
        "2026-01-03T10:00:00"
  ∧ stored (saved_manifest
              (export join_slash format_scalar (config_of [bracket_cfg]) "out"
                 design_root fresh_world).1) "bracket.stl"
    = JNull
  ∧ stored (saved_manifest
              (export join_slash format_scalar (config_of [bracket_cfg]) "out"
                 design_root fresh_world).1) "out/bracket.stl"
    = JNull
  ∧ "bracket" ≠ "bracket.stl".
Proof.
  split; [vm_compute; reflexivity|]. split; [vm_compute; reflexivity|].
  split; [vm_compute; reflexivity|]. split; [vm_compute; reflexivity|].
  split; [vm_compute; reflexivity|discriminate].
Qed.

(** [Plate], with a count of 2: key [plate], file [plate_x2.stl]. *)
Lemma manifest_key_is_base_name_witness :
  file_names format_scalar (config_of [bracket_cfg; plate_cfg]) plate_cfg
  = Ok ("plate", "plate_x2.stl")
  ∧ String.prefix "plate" "plate_x2.stl" = true
  ∧ "plate" ≠ "plate_x2.stl".
Proof.
  split; [reflexivity|].
  destruct (manifest_key_is_base_name join_slash format_scalar
              (config_of [bracket_cfg; plate_cfg]) plate_cfg "plate"
              "plate_x2.stl" eq_refl) as (_ & Hprefix & Hne & _).
  split; [exact Hprefix|exact Hne].
Defined.

(** C6 as stated fails.  Cancel is pressed as soon as the dialog shows.
    [Bracket] is current first and is skipped; the loop does not stop after
    it but goes on to [Plate], exports it, and only then leaves. *)
Lemma cancel_is_not_read_when_skipping :
  (∀ e history, cancel_pressed cancelled_world (e :: history) = true)
  ∧ map fst
      (iterations join_slash format_scalar (config_of [bracket_cfg; plate_cfg])
         "out" 0 [(bracket_cfg, bracket); (plate_cfg, plate)]
         (JDict bracket_manifest) (add_event (ProgressShow 2) cancelled_world))
    = [Continue; Break]
  ∧ rev (progress_values
           (trace (export join_slash format_scalar
                     (config_of [bracket_cfg; plate_cfg]) "out" design_root
                     cancelled_world).1))
    = [0%nat; 1%nat]
  ∧ exported_meshes
      (trace (export join_slash format_scalar
                (config_of [bracket_cfg; plate_cfg]) "out" design_root
                cancelled_world).1)
    = [("Plate", "out/plate_x2.stl")].
Proof.
  split; [done|]. split; [vm_compute; reflexivity|].
  split; vm_compute; reflexivity.
Qed.

(** The manifest of the example is saved with the entry of [Plate], the
    one component that is exported, and stays a manifest of flat entries. *)
Lemma manifest_entries_flat_witness :
  (export join_slash format_scalar (config_of [bracket_cfg; plate_cfg]) "out"
     design_root later_world).2 = Ok tt
  ∧ loaded_manifest join_slash "out" later_world = Some (JDict bracket_manifest)
  ∧ ∃ f,
      fs (export join_slash format_scalar (config_of [bracket_cfg; plate_cfg])
            "out" design_root later_world).1
        !! join_slash "out" version_control_name = Some f
      ∧ content f
        = JsonText
            (JDict
               (updated format_scalar (config_of [bracket_cfg; plate_cfg])
                  bracket_manifest
                  [(plate_cfg, plate,
                    manifest_entry "Plate" "out/plate_x2.stl" "rev-7"
                      "Assembly v3" "2026-01-03T10:00:00")])).
Proof.
  split; [vm_compute; reflexivity|]. split; [vm_compute; reflexivity|].
  destruct (manifest_entries_flat join_slash format_scalar
              (config_of [bracket_cfg; plate_cfg]) "out" design_root later_world
              _ bracket_manifest
              ltac:(vm_compute; reflexivity) ltac:(vm_compute; reflexivity))
    as (_ & todo & f & new & Hsel & Hf & Hcontent & _).
  exists f. split; [exact Hf|].
  vm_compute in Hsel. injection Hsel as <-.
  rewrite Hcontent. vm_compute. reflexivity.
Defined.

(** In the example the timeline is left as it was. *)
Lemma export_rotation_is_temporary_witness :
  (export join_slash format_scalar (config_of [bracket_cfg; plate_cfg]) "out"
     design_root later_world).2 = Ok tt
  ∧ moveFeatures
      (export join_slash format_scalar (config_of [bracket_cfg; plate_cfg]) "out"
         design_root later_world).1
    = moveFeatures later_world.
Proof.
  split; [vm_compute; reflexivity|].
  exact (proj1 (export_rotation_is_temporary join_slash format_scalar
                  (config_of [bracket_cfg; plate_cfg]) "out" design_root
                  later_world _ ltac:(vm_compute; reflexivity))).
Defined.

(** When the operating system refuses to make the directory for [Plate],
    which is rotated, the run raises and the move feature is still in the
    timeline. *)
Lemma refused_export_leaves_move_feature :
  (export join_slash format_scalar (config_of [plate_cfg]) "out" design_root
     refusing_world).2
  = Raise FileExistsError
  ∧ moveFeatures refusing_world = []
  ∧ moveFeatures
      (export join_slash format_scalar (config_of [plate_cfg]) "out" design_root
         refusing_world).1
    = [("Plate", 1%nat)].
Proof. split; [vm_compute; reflexivity|]. split; vm_compute; reflexivity. Qed.

(** In the example both configured components are processed, in order. *)
Lemma export_loop_is_sequential_witness :
  (export join_slash format_scalar (config_of [bracket_cfg; plate_cfg]) "out"
     design_root later_world).2 = Ok tt
  ∧ ∃ todo,
      select_components (recursiveEnumerateComponents design_root)
        (components (config_of [bracket_cfg; plate_cfg])) = Ok todo
      ∧ map fst todo
        = filter (fun cfg => found (recursiveEnumerateComponents design_root) cfg = true)
            (components (config_of [bracket_cfg; plate_cfg])).
Proof.
  split; [vm_compute; reflexivity|].
  destruct (export_loop_is_sequential join_slash format_scalar
              (config_of [bracket_cfg; plate_cfg]) "out" design_root later_world
              _ ltac:(vm_compute; reflexivity))
    as (todo & vc & vc' & new & f & Hsel & Hmap & _).
  exists todo. split; [exact Hsel|exact Hmap].
Defined.

(** In the example the manifest is written back with what was loaded. *)
Lemma export_preserves_untouched_witness :
  (export join_slash format_scalar (config_of [bracket_cfg; plate_cfg]) "out"
     design_root later_world).2 = Ok tt
  ∧ loaded_manifest join_slash "out" later_world = Some (JDict bracket_manifest)
  ∧ ∃ todo f,
      select_components (recursiveEnumerateComponents design_root)
        (components (config_of [bracket_cfg; plate_cfg])) = Ok todo
      ∧ fs (export join_slash format_scalar (config_of [bracket_cfg; plate_cfg])
              "out" design_root later_world).1
          !! join_slash "out" version_control_name = Some f.
Proof.
  split; [vm_compute; reflexivity|]. split; [vm_compute; reflexivity|].
  destruct (export_preserves_untouched join_slash format_scalar
              (config_of [bracket_cfg; plate_cfg]) "out" design_root later_world
              _ bracket_manifest
              ltac:(vm_compute; reflexivity) ltac:(vm_compute; reflexivity))
    as (todo & f & new & Hsel & Hf & _).
  exists todo, f. split; [exact Hsel|exact Hf].
Defined.

(** C7 as stated fails.  [Bracket] and [Plate] are both configured to the
    name [bracket].  Both are exported, to the same file, and the manifest
    that is written has one entry under the key [bracket], that of [Plate]:
    [Bracket] was exported in this run and has no entry. *)
Lemma shared_key_loses_entry :
  (export join_slash format_scalar (config_of [bracket_cfg; plate_as_bracket_cfg])
     "out" design_root fresh_world).2 = Ok tt
  ∧ rev (exported_meshes
           (trace (export join_slash format_scalar
                     (config_of [bracket_cfg; plate_as_bracket_cfg]) "out"
                     design_root fresh_world).1))
    = [("Bracket", "out/bracket.stl"); ("Plate", "out/bracket.stl")]
  ∧ saved_manifest
      (export join_slash format_scalar
         (config_of [bracket_cfg; plate_as_bracket_cfg]) "out" design_root
         fresh_world).1
    = JDict {[ "bracket" :=
                 manifest_entry "Plate" "out/bracket.stl" "rev-7" "Assembly v3"
                   "2026-01-03T10:00:00" ]}
  ∧ ∀ k, getitem
           (stored (saved_manifest
                      (export join_slash format_scalar
                         (config_of [bracket_cfg; plate_as_bracket_cfg]) "out"
                         design_root fresh_world).1) k) "component"
         ≠ Ok (JStr "Bracket").
Proof.
  assert (Hsaved : saved_manifest
      (export join_slash format_scalar
         (config_of [bracket_cfg; plate_as_bracket_cfg]) "out" design_root
         fresh_world).1
    = JDict {[ "bracket" :=
                 manifest_entry "Plate" "out/bracket.stl" "rev-7" "Assembly v3"
                   "2026-01-03T10:00:00" ]})
    by (vm_compute; reflexivity).
  split; [vm_compute; reflexivity|]. split; [vm_compute; reflexivity|].
  split; [exact Hsaved|].
  intros k. rewrite Hsaved. cbn [stored].
  destruct (decide (k = "bracket")) as [->|Hne].
  - rewrite lookup_singleton_eq. cbn. discriminate.
  - rewrite lookup_singleton_ne by done. cbn. discriminate.
Qed.

(** ** Further runs *)

(** [Plate] is exported, then the second entry for it has the orientation
    ["w"]: the run stops at the assertion and has written no text file. *)
Lemma failed_export_saves_no_manifest_witness :
  (export join_slash format_scalar (config_of [plate_cfg; tilted_cfg]) "out"
     design_root fresh_world).2
  = Raise AssertionError
  ∧ ∃ new,
      trace (export join_slash format_scalar (config_of [plate_cfg; tilted_cfg])
               "out" design_root fresh_world).1
      = new ++ trace fresh_world
      ∧ Forall no_write new.
Proof.
  split; [vm_compute; reflexivity|].
  apply (failed_export_saves_no_manifest join_slash format_scalar
           (config_of [plate_cfg; tilted_cfg]) "out" design_root fresh_world
           _ AssertionError).
  vm_compute; reflexivity.
Defined.

(** [Plate] is counted from the occurrences of the example's root and is
    enumerated for it. *)
Lemma counted_names_are_enumerated_witness :
  ∃ c, recursiveEnumerateComponents (RootComponent assembly) !! "Plate" = Some c
       ∧ name c = "Plate".
Proof.
  apply (counted_names_are_enumerated assembly "Plate").
  apply (bool_decide_unpack _). vm_compute. exact I.
Defined.

(** Four plates in two frames, none of them directly in the list. *)
Lemma recursiveCountOccurences_at_least_direct_witness :
  1 ≤ 4 ∧ direct_count two_frames "Plate" ≤ 4.
Proof.
  apply (recursiveCountOccurences_at_least_direct two_frames "Plate" 4).
  vm_compute; reflexivity.
Defined.

(** Exporting from the occurrence of [Plate] with a configuration that names
    [Bracket] only: the manifest is written back as it was. *)
Lemma export_nothing_to_do_witness :
  ∃ w',
    export join_slash format_scalar (config_of [bracket_cfg]) "out"
      (RootOccurrence (occurrence_of "Plate:1" plate)) later_world
    = (w', Ok tt)
    ∧ trace w'
      = [WriteText (join_slash "out" version_control_name) (JDict bracket_manifest);
         ProgressHide; ProgressShow 0] ++ trace later_world.
Proof.
  destruct (export_nothing_to_do join_slash format_scalar
              (config_of [bracket_cfg]) "out"
              (RootOccurrence (occurrence_of "Plate:1" plate)) later_world
              (JDict bracket_manifest)
              (@List.Forall_cons _ _ bracket_cfg [] eq_refl (@List.Forall_nil _ _))
              ltac:(vm_compute; reflexivity))
    as (w' & Hrun & Htrace & _).
  exists w'. split; [exact Hrun|exact Htrace].
Defined.

(** A component name that is a list. *)
Lemma export_unhashable_name_witness :
  export join_slash format_scalar (config_of [bracket_cfg; unhashable_cfg]) "out"
    design_root later_world
  = (later_world, Raise TypeError).
Proof.
  apply (export_unhashable_name join_slash format_scalar
           (config_of [bracket_cfg; unhashable_cfg]) "out" design_root
           later_world unhashable_cfg).
  - apply list_elem_of_In. simpl. right; left; reflexivity.
  - exact I.
Defined.

(** [part.stl] gives the key [part.] and the file [part..stl]. *)
Lemma file_names_extension_in_name_witness :
  file_names format_scalar (config_of [dotted_cfg]) dotted_cfg
  = Ok ("part.", "part..stl").
Proof.
  apply (file_names_extension_in_name format_scalar (config_of [dotted_cfg])
           dotted_cfg "part." "stl"); [reflexivity|reflexivity|discriminate].
Defined.

(** [Plate] is exported on the third of January under a configuration of the
    second, and would be exported again at once. *)
Lemma export_repeats_without_config_change_witness :
  ∃ w3 version_control3 ending',
    export_one join_slash format_scalar (config_of [plate_cfg]) "out" 0
      plate_cfg plate
      (JDict (<["plate" := manifest_entry "Plate" "out/plate_x2.stl" "rev-7"
                             "Assembly v3" "2026-01-03T10:00:00"]>
                bracket_manifest))
      (export_one join_slash format_scalar (config_of [plate_cfg]) "out" 0
         plate_cfg plate (JDict bracket_manifest) later_world).1
    = (w3, Ok (version_control3, ending'))
    ∧ ending' ≠ Continue.
Proof.
  apply (export_repeats_without_config_change join_slash format_scalar
           (config_of [plate_cfg]) "out" 0 0 plate_cfg plate
           (JDict bracket_manifest) later_world
           (export_one join_slash format_scalar (config_of [plate_cfg]) "out" 0
              plate_cfg plate (JDict bracket_manifest) later_world).1
           (JDict (<["plate" := manifest_entry "Plate" "out/plate_x2.stl" "rev-7"
                                  "Assembly v3" "2026-01-03T10:00:00"]>
                     bracket_manifest))
           EndOfBody).
  - vm_compute; reflexivity.
  - discriminate.
  - intros t history [= <-]. vm_compute; reflexivity.
  - intros history. vm_compute; reflexivity.
Defined.


(** A configuration without components is written and read back. *)
Lemma emit_file_round_trip_witness :
  (emit_file sorted_short "out/export_for_printing.json" empty_config fresh_world).2
  = Ok tt
  ∧ parse_file int_of_digits
      (emit_file sorted_short "out/export_for_printing.json" empty_config
         fresh_world).1
      "out/export_for_printing.json" None
    = Ok {| fmt := JStr "stl"; components := [];
            modified := Some "2026-01-03T10:00:00" |}.
Proof.
  exact (proj2 (emit_file_round_trip int_of_digits sorted_short empty_config
                  "out/export_for_printing.json" fresh_world None eq_refl)
           eq_refl).
Defined.

(** A file that calls the orientation [orientation] is not read. *)
Lemma parse_file_rejects_component_witness :
  parse_file int_of_digits
    (configured_world (config_with_version (JInt 1) [bracket_entry; misspelt_entry]))
    "out/export_for_printing.json" None
  = Raise TypeError.
Proof.
  apply (parse_file_rejects_component int_of_digits
           (configured_world
              (config_with_version (JInt 1) [bracket_entry; misspelt_entry]))
           "out/export_for_printing.json" None
           (json_file (config_with_version (JInt 1) [bracket_entry; misspelt_entry])
              "2026-01-02T10:00:00")
           (<["components" := JList [bracket_entry; misspelt_entry]]>
              (<["v" := JInt 1]> ∅))
           [bracket_entry; misspelt_entry] misspelt_entry).
  - vm_compute; reflexivity.
  - reflexivity.
  - vm_compute; reflexivity.
  - vm_compute; reflexivity.
  - apply list_elem_of_In. simpl. right; left; reflexivity.
  - apply (bool_decide_unpack _). vm_compute. exact I.
Defined.

(** The generated entry of a component called [Top Plate]. *)
Lemma generate_file_names_witness :
  ∃ cmp key,
    cmp ∈ ["Bracket"; "Top Plate"]
    ∧ JStr "Top Plate" = JStr cmp
    ∧ file_names format_scalar (generate lower_ascii ["Bracket"; "Top Plate"])
        {| cfg_name := JStr "Top Plate"; cfg_to := JStr "top_plate";
           cfg_up := JNull; cfg_fmt := JNull; cfg_count := JNull |}
      = Ok (key, key +:+ ".stl")
    ∧ contains_char " " key = false.
Proof.
  destruct (generate_file_names lower_ascii format_scalar ["Bracket"; "Top Plate"]
              {| cfg_name := JStr "Top Plate"; cfg_to := JStr "top_plate";
                 cfg_up := JNull; cfg_fmt := JNull; cfg_count := JNull |})
    as (cmp & key & Hin & Hname & Hfile & Hspace & _).
  - apply list_elem_of_In. simpl. right; left; reflexivity.
  - exists cmp, key. split; [exact Hin|]. split; [exact Hname|].
    split; [exact Hfile|exact Hspace].
Defined.

(** Both parts of the example design are generated and selected. *)
Lemma generated_components_are_selected_witness :
  ∃ todo,
    select_components (recursiveEnumerateComponents (RootComponent assembly))
      (components
         (generate lower_ascii
            (keys (recursiveCountOccurences (occurrences assembly)))))
    = Ok todo
    ∧ length todo = 2%nat.
Proof.
  destruct (generated_components_are_selected lower_ascii assembly)
    as (todo & Hsel & Hmap & _).
  exists todo. split; [exact Hsel|].
  rewrite <- (length_map fst), Hmap. reflexivity.
Defined.

(** The first run on the example design stops with [AttributeError]. *)
Lemma on_execute_first_run_witness :
  (on_execute int_of_digits sorted_short join_slash format_scalar lower_ascii
     plain_path "out" (EntityComponent assembly)
     (recursiveCountOccurences (occurrences assembly)) first_session).2
  = Raise AttributeError
  ∧ host (on_execute int_of_digits sorted_short join_slash format_scalar
            lower_ascii plain_path "out" (EntityComponent assembly)
            (recursiveCountOccurences (occurrences assembly)) first_session).1
    = fresh_world.
Proof.
  destruct (on_execute_first_run int_of_digits sorted_short join_slash
              format_scalar lower_ascii plain_path "out"
              (EntityComponent assembly)
              (recursiveCountOccurences (occurrences assembly)) first_session
              (RootComponent assembly) eq_refl ltac:(vm_compute; reflexivity))
    as (_ & Hfails & _).
  destruct (Hfails ltac:(vm_compute; discriminate)) as (Hraise & Hhost & _).
  split; [exact Hraise|exact Hhost].
Defined.

